(** * konfig.paths: the Path value type, its grammar and its canonical form

    A shallow embedding of [src/konfig/paths.py].

    Conventions of the embedding.
    - A Python [str] is a Rocq [string]; its characters are the code points
      below 256 (the Latin-1 block), which is where every character the
      grammar names explicitly lives.
    - A Python [int] is a [Z]; a [float] is a binary64 [spec_float]; a
      [complex] is a pair of them.
    - A raised exception is the [Raise] branch of [result].
    - [functools.cache] looks the arguments of a call up in a dictionary
      before it runs the function, which hashes [self]: [__hash__] and
      [__repr__] are the cached methods, with the number of calls that the
      recursion limit allows as an argument; [__hash__wrapped] and
      [__repr__wrapped] are the functions behind the cache.
    - Values carry no object identity; the comparison of the host, which
      asks for it, takes it as an argument ([identity]).
    - [path_parser] is the grammar run by an Earley parser with its dynamic
      lexer: at a position, each terminal the rules can take there matches
      the one text its regular expression matches first; an optional item
      that is absent adds no child to the tree (the parser's
      [maybe_placeholders] is off, as it is in lark-parser before 1.0). *)

From Stdlib Require Import String Ascii List ZArith NArith Bool Lia.
From Stdlib Require Import DecimalString DecimalN DecimalPos DecimalFacts.
From Stdlib Require Import Floats.SpecFloat Zpow_facts.
Import ListNotations.

#[local] Open Scope string_scope.
#[local] Open Scope Z_scope.

(** ** Results and exceptions *)

Inductive exn : Type :=
| ValueError (msg : option string)
| TypeError (msg : string)
| RecursionError
| SyntaxError
| OverflowError
| IndexError
| KeyError
| ParseError
| VisitError (orig : exn).

(** The message of a [ValueError] is [None] where the host writes into it
    the [repr] of an object that is no value of the embedding: a token of
    the parser in the message of [int], a node of the syntax tree in the
    message of [ast.literal_eval]. *)

Inductive result (A : Type) : Type :=
| Ok (a : A)
| Raise (e : exn).

Arguments Ok {A} a.
Arguments Raise {A} e.

Definition bind {A B : Type} (r : result A) (k : A -> result B) : result B :=
  match r with
  | Ok a => k a
  | Raise e => Raise e
  end.

Notation "x <- r ;; k" := (bind r (fun x => k))
  (at level 61, r at next level, right associativity).

(** ** Host values

    The runtime values a key can be.  [VList] stands for the values the
    validator turns down (an ordered mutable collection). *)

#[local] Unset Elimination Schemes.

Inductive value : Type :=
| VInt (z : Z)
| VBool (b : bool)
| VFloat (f : spec_float)
| VComplex (re im : spec_float)
| VStr (s : string)
| VNone
| VSlice (start stop step : value)
| VTuple (items : list value)
| VList (items : list value).

#[local] Set Elimination Schemes.

(** ** Characters *)

Definition chr (n : N) : ascii := ascii_of_N n.
Definition ord (c : ascii) : N := N_of_ascii c.

Definition squote : ascii := "'"%char.
Definition dquote : ascii := chr 34.
Definition backslash : ascii := "\"%char.
Definition newline : ascii := chr 10.

Definition in_range (lo hi : N) (c : ascii) : bool :=
  (N.leb lo (ord c) && N.leb (ord c) hi)%bool.

Definition char_eqb (a b : ascii) : bool := Ascii.eqb a b.

Definition is_x (c : ascii) : bool := (char_eqb "x" c || char_eqb "X" c)%bool.
Definition is_o (c : ascii) : bool := (char_eqb "o" c || char_eqb "O" c)%bool.
Definition is_b (c : ascii) : bool := (char_eqb "b" c || char_eqb "B" c)%bool.
Definition is_j (c : ascii) : bool := (char_eqb "j" c || char_eqb "J" c)%bool.
Definition is_e (c : ascii) : bool := (char_eqb "e" c || char_eqb "E" c)%bool.
Definition is_dot (c : ascii) : bool := char_eqb "." c.

Fixpoint contains (c : ascii) (s : string) : bool :=
  match s with
  | EmptyString => false
  | String a r => (char_eqb a c || contains c r)%bool
  end.

Definition starts_with (f : ascii -> bool) (s : string) : bool :=
  match s with
  | String c _ => f c
  | EmptyString => false
  end.

Fixpoint string_existsb (f : ascii -> bool) (s : string) : bool :=
  match s with
  | EmptyString => false
  | String a r => (f a || string_existsb f r)%bool
  end.

Fixpoint string_forallb (f : ascii -> bool) (s : string) : bool :=
  match s with
  | EmptyString => true
  | String a r => (f a && string_forallb f r)%bool
  end.

Fixpoint join (sep : string) (l : list string) : string :=
  match l with
  | [] => ""
  | [x] => x
  | x :: r => x ++ sep ++ join sep r
  end.

(** ** Integers as text *)

Definition nat_repr (n : N) : string := NilZero.string_of_uint (N.to_uint n).

Definition int_repr (z : Z) : string :=
  match z with
  | Z0 => "0"
  | Zpos p => nat_repr (Npos p)
  | Zneg p => "-" ++ nat_repr (Npos p)
  end.

(** ** Floats as text (binary64, [repr] is the shortest text that reads back) *)

Definition float_prec : Z := 53.
Definition float_emax : Z := 1024.

(** The binary64 value nearest to [(-1)^neg * m * 10^e10]. *)
Definition float_of_decimal (neg : bool) (m : Z) (e10 : Z) : spec_float :=
  match m with
  | Zpos p =>
      if 0 <=? e10
      then binary_normalize float_prec float_emax
             ((if neg then Zneg p else Zpos p) * 10 ^ e10) 0 false
      else SFdiv float_prec float_emax (S754_finite neg p 0)
             (S754_finite false (Z.to_pos (10 ^ (- e10))) 0)
  | _ => S754_zero neg
  end.

Definition same_float (x y : spec_float) : bool :=
  match x, y with
  | S754_finite s1 m1 e1, S754_finite s2 m2 e2 =>
      (Bool.eqb s1 s2 && Pos.eqb m1 m2 && Z.eqb e1 e2)%bool
  | S754_zero s1, S754_zero s2 => Bool.eqb s1 s2
  | S754_infinity s1, S754_infinity s2 => Bool.eqb s1 s2
  | S754_nan, S754_nan => true
  | _, _ => false
  end.

Definition scale10 (num den k : Z) : Z * Z :=
  if 0 <=? k then (num * 10 ^ k, den) else (num, den * 10 ^ (- k)).

(** The least [k] with [num/den < 10^k], searched upwards from an estimate. *)
Fixpoint decpt_from (fuel : nat) (num den k : Z) : Z :=
  match fuel with
  | O => k
  | S f =>
      let '(n, d) := scale10 num den (- k) in
      if n <? d then k else decpt_from f num den (k + 1)
  end.

Definition decpt_of (num den : Z) : Z :=
  let est := ((Z.log2 num - Z.log2 den - 1) * 30102) / 100000 in
  decpt_from 8 num den est.

(** The digits of the shortest decimal that reads back as [x], and the
    position of its decimal point; of two candidates the nearer one, and of
    two that are equally near the one whose last digit is even. *)
Fixpoint shortest_from (fuel : nat) (x : spec_float) (num den k0 n : Z) : Z * Z :=
  let '(sn, sd) := scale10 num den (n - k0) in
  let lo := sn / sd in
  let hi := lo + 1 in
  let ok d :=
    match x with
    | S754_finite s _ _ =>
        ((0 <? d) && same_float (float_of_decimal s d (k0 - n)) x)%bool
    | _ => false
    end in
  let twice := 2 * (sn - lo * sd) in
  let lo_nearer := ((twice <? sd) || ((twice =? sd) && Z.even lo))%bool in
  let pick d := if d =? 10 ^ n then (10 ^ (n - 1), k0 + 1) else (d, k0) in
  match fuel with
  | O => pick (if lo_nearer then lo else hi)
  | S f =>
      match ok lo, ok hi with
      | true, true => pick (if lo_nearer then lo else hi)
      | true, false => pick lo
      | false, true => pick hi
      | false, false => shortest_from f x num den k0 (n + 1)
      end
  end.

Definition float_digits (x : spec_float) : string * Z :=
  match x with
  | S754_finite _ m e =>
      let '(num, den) :=
        if 0 <=? e then (Zpos m * 2 ^ e, 1) else (Zpos m, 2 ^ (- e)) in
      let '(d, k) := shortest_from 16 x num den (decpt_of num den) 1 in
      (nat_repr (Z.to_N d), k)
  | _ => ("0", 1)
  end.

Fixpoint zeros (n : nat) : string :=
  match n with
  | O => ""
  | S k => String "0" (zeros k)
  end.

Definition exp_repr (e : Z) : string :=
  let a := nat_repr (Z.to_N (Z.abs e)) in
  (if e <? 0 then "-" else "+") ++ (if Z.abs e <? 10 then "0" ++ a else a).

(** [PyOS_double_to_string] with format code ['r']: [dot0] asks for a
    trailing [.0] on integral values, [plus] for an explicit [+] sign. *)
Definition format_float (dot0 plus : bool) (x : spec_float) : string :=
  let sign (s : bool) := if s then "-" else if plus then "+" else "" in
  match x with
  | S754_nan => sign false ++ "nan"
  | S754_infinity s => sign s ++ "inf"
  | S754_zero s => sign s ++ "0" ++ (if dot0 then ".0" else "")
  | S754_finite s _ _ =>
      let '(ds, decpt) := float_digits x in
      let len := String.length ds in
      let n := Z.of_nat len in
      let body :=
        if ((decpt <=? -4) || (16 <? decpt))%bool then
          String.substring 0 1 ds
          ++ (if 1 <? n then "." ++ String.substring 1 (len - 1) ds else "")
          ++ "e" ++ exp_repr (decpt - 1)
        else if decpt <=? 0 then "0." ++ zeros (Z.to_nat (- decpt)) ++ ds
        else if n <=? decpt then
          ds ++ zeros (Z.to_nat (decpt - n)) ++ (if dot0 then ".0" else "")
        else String.substring 0 (Z.to_nat decpt) ds ++ "."
             ++ String.substring (Z.to_nat decpt) (len - Z.to_nat decpt) ds in
      sign s ++ body
  end.

Definition float_repr : spec_float -> string := format_float true false.

Definition complex_repr (re im : spec_float) : string :=
  match re with
  | S754_zero false => format_float false false im ++ "j"
  | _ => "(" ++ format_float false false re ++ format_float false true im ++ "j)"
  end.

(** ** Strings as text *)

(** [str.isprintable] on one character. *)
Definition isprintable (c : ascii) : bool :=
  (in_range 32 126 c || (in_range 161 255 c && negb (N.eqb (ord c) 173)))%bool.

Definition hexdigit (n : N) : ascii :=
  if N.ltb n 10 then chr (48 + n) else chr (87 + n).

Definition repr_char (quote c : ascii) : string :=
  if (char_eqb c quote || char_eqb c backslash)%bool then String backslash (String c "")
  else if N.eqb (ord c) 9 then "\t"
  else if N.eqb (ord c) 10 then "\n"
  else if N.eqb (ord c) 13 then "\r"
  else if isprintable c then String c ""
  else String backslash
         (String "x" (String (hexdigit (N.div (ord c) 16))
                        (String (hexdigit (N.modulo (ord c) 16)) ""))).

Fixpoint repr_chars (quote : ascii) (s : string) : string :=
  match s with
  | EmptyString => ""
  | String c r => repr_char quote c ++ repr_chars quote r
  end.

Definition repr_quote (s : string) : ascii :=
  if (contains squote s && negb (contains dquote s))%bool then dquote else squote.

Definition str_repr (s : string) : string :=
  let q := repr_quote s in
  String q (repr_chars q s ++ String q "").

(** A string literal's body with its backslash escapes resolved, for the
    escapes [str_repr] writes for printable text: a backslash before a
    backslash or a quote stands for that character. *)
Fixpoint resolve_escapes (s : string) : string :=
  match s with
  | EmptyString => ""
  | String c t =>
      if char_eqb c backslash then
        match t with
        | String c2 r => String c2 (resolve_escapes r)
        | EmptyString => s
        end
      else String c (resolve_escapes t)
  end.

(** [str.isidentifier]: XID_Start or an underscore, then XID_Continue. *)
Definition xid_start (c : ascii) : bool :=
  (in_range 65 90 c || in_range 97 122 c
   || N.eqb (ord c) 170 || N.eqb (ord c) 181 || N.eqb (ord c) 186
   || in_range 192 214 c || in_range 216 246 c || in_range 248 255 c)%bool.

Definition xid_continue (c : ascii) : bool :=
  (xid_start c || in_range 48 57 c || N.eqb (ord c) 95 || N.eqb (ord c) 183)%bool.

Definition isidentifier (s : string) : bool :=
  match s with
  | EmptyString => false
  | String c r =>
      ((xid_start c || N.eqb (ord c) 95) && string_forallb xid_continue r)%bool
  end.

(** ** [repr] and [str] of a value *)

Fixpoint py_repr (v : value) : string :=
  match v with
  | VInt z => int_repr z
  | VBool b => if b then "True" else "False"
  | VFloat f => float_repr f
  | VComplex re im => complex_repr re im
  | VStr s => str_repr s
  | VNone => "None"
  | VSlice a b c =>
      "slice(" ++ py_repr a ++ ", " ++ py_repr b ++ ", " ++ py_repr c ++ ")"
  | VTuple items =>
      match items with
      | [x] => "(" ++ py_repr x ++ ",)"
      | _ => "(" ++ join ", " (map py_repr items) ++ ")"
      end
  | VList items => "[" ++ join ", " (map py_repr items) ++ "]"
  end.

Definition py_str (v : value) : string :=
  match v with
  | VStr s => s
  | _ => py_repr v
  end.

(** ** Equality of values ([==]) *)

Inductive num : Type :=
| NInt (z : Z)
| NFloat (f : spec_float)
| NComplex (re im : spec_float).

Definition numeric (v : value) : option num :=
  match v with
  | VInt z => Some (NInt z)
  | VBool b => Some (NInt (if b then 1 else 0))
  | VFloat f => Some (NFloat f)
  | VComplex re im => Some (NComplex re im)
  | _ => None
  end.

(** An integer and a float are compared exactly. *)
Definition int_eq_float (z : Z) (f : spec_float) : bool :=
  match f with
  | S754_zero _ => z =? 0
  | S754_finite s m e =>
      let sm := if s then Zneg m else Zpos m in
      if 0 <=? e then z =? sm * 2 ^ e else z * 2 ^ (- e) =? sm
  | _ => false
  end.

Definition float_is_zero (f : spec_float) : bool :=
  match f with
  | S754_zero _ => true
  | _ => false
  end.

Definition num_eq (a b : num) : bool :=
  match a, b with
  | NInt x, NInt y => x =? y
  | NInt x, NFloat f | NFloat f, NInt x => int_eq_float x f
  | NFloat f, NFloat g => SFeqb f g
  | NComplex r i, NComplex r' i' => (SFeqb r r' && SFeqb i i')%bool
  | NComplex r i, NFloat f | NFloat f, NComplex r i =>
      (float_is_zero i && SFeqb r f)%bool
  | NComplex r i, NInt x | NInt x, NComplex r i =>
      (float_is_zero i && int_eq_float x r)%bool
  end.

(** Sequence comparison: the same length and equal items, position by
    position.  [py_eq] is [==] between two values that share no object. *)
Fixpoint seq_eq {A : Type} (eq : A -> A -> bool) (xs ys : list A) : bool :=
  match xs, ys with
  | [], [] => true
  | x :: xs', y :: ys' => (eq x y && seq_eq eq xs' ys')%bool
  | _, _ => false
  end.

Fixpoint py_eq (a b : value) {struct a} : bool :=
  match a, b with
  | VStr s, VStr t => String.eqb s t
  | VNone, VNone => true
  | VSlice a1 a2 a3, VSlice b1 b2 b3 =>
      (py_eq a1 b1 && py_eq a2 b2 && py_eq a3 b3)%bool
  | VTuple xs, VTuple ys => seq_eq py_eq xs ys
  | VList xs, VList ys => seq_eq py_eq xs ys
  | _, _ =>
      match numeric a, numeric b with
      | Some x, Some y => num_eq x y
      | _, _ => false
      end
  end.

(** ** Object identity

    Where the host compares two tuples, two lists or two slices, it takes
    two items that are one object as equal without asking their [==]
    ([PyObject_RichCompareBool]); this shows for a NaN, which is not [==]
    to itself.  Values carry no identity, so a comparison is told which of
    the objects it meets on its way are one object: a position is the list
    of the indices that lead to an object (through a sequence of keys,
    through tuples and lists, and 0, 1, 2 for the start, stop and step of a
    slice), and [same pos] holds when both sides have one and the same
    object at [pos]. *)

Definition identity : Type := list nat -> bool.

(** Two sides that share no object, and a side compared with itself. *)
Definition distinct : identity := fun _ => false.
Definition itself : identity := fun _ => true.

(** The identity of the objects below the index [i]. *)
Definition below (same : identity) (i : nat) : identity :=
  fun pos => same (i :: pos).

(** Sequence comparison by the host: the same length and, position by
    position, one object or equal items; [i] is the index of the first
    item. *)
Fixpoint seq_eq_at {A : Type} (eq : identity -> A -> A -> bool)
    (same : identity) (i : nat) (xs ys : list A) : bool :=
  match xs, ys with
  | [], [] => true
  | x :: xs', y :: ys' =>
      ((same [i] || eq (below same i) x y)
       && seq_eq_at eq same (S i) xs' ys')%bool
  | _, _ => false
  end.

(** [a == b] for two objects that may share objects below them. *)
Fixpoint py_eq_at (same : identity) (a b : value) {struct a} : bool :=
  match a, b with
  | VStr s, VStr t => String.eqb s t
  | VNone, VNone => true
  | VSlice a1 a2 a3, VSlice b1 b2 b3 =>
      ((same [0%nat] || py_eq_at (below same 0) a1 b1)
       && (same [1%nat] || py_eq_at (below same 1) a2 b2)
       && (same [2%nat] || py_eq_at (below same 2) a3 b3))%bool
  | VTuple xs, VTuple ys => seq_eq_at py_eq_at same 0 xs ys
  | VList xs, VList ys => seq_eq_at py_eq_at same 0 xs ys
  | _, _ =>
      match numeric a, numeric b with
      | Some x, Some y => num_eq x y
      | _, _ => false
      end
  end.

(** No NaN in a value. *)
Definition is_nan (f : spec_float) : bool :=
  match f with
  | S754_nan => true
  | _ => false
  end.

Fixpoint nan_free (v : value) : bool :=
  match v with
  | VFloat f => negb (is_nan f)
  | VComplex re im => (negb (is_nan re) && negb (is_nan im))%bool
  | VSlice a b c => (nan_free a && nan_free b && nan_free c)%bool
  | VTuple items => forallb nan_free items
  | VList items => forallb nan_free items
  | _ => true
  end.

(** ** Hashing of values ([hash])

    Strings, [None] and type objects hash to values the host picks per
    process; they are the fields of [host].  Numbers hash by their value
    modulo the prime [2^61 - 1]; a tuple mixes the hashes of its items; a
    slice and a list are unhashable. *)

Record host : Type := mkHost {
  hash_str : string -> Z;
  hash_none : Z;
  hash_slice_type : Z
}.

Definition hash_modulus : Z := 2 ^ 61 - 1.

Definition fix_hash (h : Z) : Z := if h =? -1 then -2 else h.

(** A 64-bit pattern read as a signed integer. *)
Definition to_signed (u : Z) : Z :=
  let w := u mod 2 ^ 64 in
  if w <? 2 ^ 63 then w else w - 2 ^ 64.

Definition hash_int (z : Z) : Z :=
  fix_hash (Z.sgn z * (Z.abs z mod hash_modulus)).

Definition hash_float (f : spec_float) : Z :=
  match f with
  | S754_zero _ => 0
  | S754_infinity s => if s then -314159 else 314159
  | S754_nan => 0
  | S754_finite s m e =>
      let h := (Zpos m mod hash_modulus) * 2 ^ (e mod 61) mod hash_modulus in
      fix_hash (if s then - h else h)
  end.

Definition hash_complex (re im : spec_float) : Z :=
  fix_hash (to_signed (hash_float re + 1000003 * hash_float im)).

Definition XXPRIME_1 : Z := 11400714785074694791.
Definition XXPRIME_2 : Z := 14029467366897019727.
Definition XXPRIME_5 : Z := 2870177450012600261.

Definition XXROTATE (x : Z) : Z :=
  Z.lor (Z.shiftl x 31 mod 2 ^ 64) (Z.shiftr x 33).

Definition tuple_hash (lanes : list Z) : Z :=
  let acc :=
    fold_left (fun acc lane =>
                 let acc := (acc + (lane mod 2 ^ 64) * XXPRIME_2) mod 2 ^ 64 in
                 (XXROTATE acc * XXPRIME_1) mod 2 ^ 64)
              lanes XXPRIME_5 in
  let acc :=
    (acc + Z.lxor (Z.of_nat (List.length lanes)) (Z.lxor XXPRIME_5 3527539))
    mod 2 ^ 64 in
  if acc =? 2 ^ 64 - 1 then 1546275796 else to_signed acc.

Fixpoint collect {A : Type} (l : list (result A)) : result (list A) :=
  match l with
  | [] => Ok []
  | r :: rest => x <- r ;; xs <- collect rest ;; Ok (x :: xs)
  end.

Fixpoint py_hash (h : host) (v : value) : result Z :=
  match v with
  | VInt z => Ok (hash_int z)
  | VBool b => Ok (hash_int (if b then 1 else 0))
  | VFloat f => Ok (hash_float f)
  | VComplex re im => Ok (hash_complex re im)
  | VStr s => Ok (hash_str h s)
  | VNone => Ok (hash_none h)
  | VSlice _ _ _ => Raise (TypeError "unhashable type: 'slice'")
  | VTuple items => lanes <- collect (map (py_hash h) items) ;; Ok (tuple_hash lanes)
  | VList _ => Raise (TypeError "unhashable type: 'list'")
  end.

(** ** class Path *)

Record Path : Type := mkPath { parts : list value }.

(** Anything [==] or the constructor can be handed: a Path or some other
    object. *)
Inductive object : Type :=
| OPath (p : Path)
| OValue (v : value).

Fixpoint _is_valid_part (part : value) : bool :=
  match part with
  | VInt _ | VFloat _ | VComplex _ _ | VSlice _ _ _ | VStr _ | VBool _ => true
  | VNone => true
  | VTuple ps => forallb _is_valid_part ps
  | VList _ => false
  end.

(** The constructor on keys that are values of the host, as the transformer
    calls it; [init_objects] below takes Paths among its arguments too. *)
Definition __init__ (ps : list value) : result Path :=
  if negb (_is_valid_part (VTuple ps))
  then Raise (ValueError (Some ("invalid part(s) " ++ py_str (VTuple ps))))
  else Ok (mkPath ps).

Definition __len__ (self : Path) : nat := List.length (parts self).

(** [self.parts == other.parts] compares two tuples. *)
Definition __eq__ (same : identity) (self : Path) (other : object) : bool :=
  match other with
  | OPath o => seq_eq_at py_eq_at same 0 (parts self) (parts o)
  | OValue _ => false
  end.

(** The hash of the tuple [(slice, start, stop, step)]. *)
Definition hash_slice_parts (h : host) (start stop step : value) : result Z :=
  lanes <- collect [Ok (hash_slice_type h); py_hash h start; py_hash h stop;
                    py_hash h step] ;;
  Ok (tuple_hash lanes).

(** The function [functools.cache] is given ([Path.__hash__.__wrapped__]). *)
Definition __hash__wrapped (h : host) (self : Path) : result Z :=
  let hashable_parts :=
    map (fun p =>
           match p with
           | VSlice start stop step => hash_slice_parts h start stop step
           | _ => py_hash h p
           end) (parts self) in
  lanes <- collect hashable_parts ;;
  Ok (tuple_hash lanes).

(** The hash of a number. *)
Definition hash_num (n : num) : Z :=
  match n with
  | NInt z => hash_int z
  | NFloat f => hash_float f
  | NComplex re im => hash_complex re im
  end.

(** What [__hash__wrapped] hashes in place of a key. *)
Definition hashable_part (h : host) (p : value) : result Z :=
  match p with
  | VSlice start stop step => hash_slice_parts h start stop step
  | _ => py_hash h p
  end.

Definition is_none (v : value) : bool :=
  match v with
  | VNone => true
  | _ => false
  end.

Definition format_part (part : value) : string :=
  match part with
  | VSlice start stop step =>
      let fm := [start; VStr ":"; stop] in
      let fm := if negb (is_none step) then (fm ++ [VStr ":"; step])%list else fm in
      let slice_str :=
        String.concat "" (map py_str (filter (fun f => negb (is_none f)) fm)) in
      "[" ++ slice_str ++ "]"
  | _ =>
      match part with
      | VStr s => if isidentifier s then "." ++ s else "[" ++ py_repr part ++ "]"
      | _ => "[" ++ py_repr part ++ "]"
      end
  end.

(** The function [functools.cache] is given ([Path.__repr__.__wrapped__]). *)
Definition __repr__wrapped (self : Path) : string :=
  let r := String.concat "" (map format_part (parts self)) in
  match r with
  | String "." r' => r'
  | _ => r
  end.

(** ** [functools.cache]

    The decorator puts a method behind a dictionary of the results it has
    computed.  A call looks its arguments up there first, and the key of the
    look-up is the tuple [(self,)], which the dictionary hashes: it calls
    [hash(self)], which is the cached [__hash__], before the method itself
    runs.  [key_hash] is the outcome of that call; the method is a function
    of the keys of [self], so a result found in the dictionary is the
    result of running it. *)
Definition cache {A : Type} (key_hash : result Z) (user_function : result A)
  : result A :=
  bind key_hash (fun _ => user_function).

(** [hash(self)] and [repr(self)], with [depth] calls to go before the
    interpreter's recursion limit is reached. *)
Fixpoint __hash__ (depth : nat) (h : host) (self : Path) : result Z :=
  match depth with
  | O => Raise RecursionError
  | S rest => cache (__hash__ rest h self) (__hash__wrapped h self)
  end.

Definition __repr__ (depth : nat) (h : host) (self : Path) : result string :=
  match depth with
  | O => Raise RecursionError
  | S rest => cache (__hash__ rest h self) (Ok (__repr__wrapped self))
  end.

(** The constructor for arguments that are values or Paths.  The message of
    the ValueError is an f-string of the tuple of arguments: it takes the
    [repr] of each of them, in order. *)
Definition is_valid_object (o : object) : bool :=
  match o with
  | OValue v => _is_valid_part v
  | OPath _ => false
  end.

Definition repr_object (depth : nat) (h : host) (o : object) : result string :=
  match o with
  | OValue v => Ok (py_repr v)
  | OPath p => __repr__ depth h p
  end.

Definition tuple_repr (items : list string) : string :=
  match items with
  | [x] => "(" ++ x ++ ",)"
  | _ => "(" ++ join ", " items ++ ")"
  end.

Fixpoint values_of (os : list object) : list value :=
  match os with
  | [] => []
  | OValue v :: r => v :: values_of r
  | OPath _ :: r => values_of r
  end.

Definition init_objects (depth : nat) (h : host) (args : list object)
  : result Path :=
  if negb (forallb is_valid_object args)
  then
    items <- collect (map (repr_object depth h) args) ;;
    Raise (ValueError (Some ("invalid part(s) " ++ tuple_repr items)))
  else Ok (mkPath (values_of args)).

(** ** Regular expressions of the grammar's terminals

    The terminals are written with the operators the grammar text uses:
    classes, concatenation, ordered alternation, greedy and lazy repetition and
    the negative look-behind [(?<!c)]. *)

Inductive regex : Type :=
| Eps
| Cls (f : ascii -> bool)
| Cat (a b : regex)
| Alt (a b : regex)
| Star (a : regex)
| LazyStar (a : regex)
| NotAfter (c : ascii).

Definition Chr (c : ascii) : regex := Cls (char_eqb c).
Definition Opt (a : regex) : regex := Alt a Eps.
Definition Plus (a : regex) : regex := Cat a (Star a).

Fixpoint Lit (s : string) : regex :=
  match s with
  | EmptyString => Eps
  | String c r => Cat (Chr c) (Lit r)
  end.

(** Flag [i] on a letter. *)
Definition ChrI (lower upper : ascii) : regex :=
  Cls (fun c => (char_eqb lower c || char_eqb upper c)%bool).

(** What a terminal matches: [matches r prev m prev'] when [r] matches the
    text [m] that follows the character [prev], ending after [prev']. *)
Inductive matches : regex -> option ascii -> string -> option ascii -> Prop :=
| MEps p : matches Eps p "" p
| MCls f p c : f c = true -> matches (Cls f) p (String c "") (Some c)
| MCat a b p m1 p1 m2 p2 :
    matches a p m1 p1 -> matches b p1 m2 p2 -> matches (Cat a b) p (m1 ++ m2) p2
| MAltL a b p m p' : matches a p m p' -> matches (Alt a b) p m p'
| MAltR a b p m p' : matches b p m p' -> matches (Alt a b) p m p'
| MStarNil a p : matches (Star a) p "" p
| MStarCons a p m1 p1 m2 p2 :
    matches a p m1 p1 -> matches (Star a) p1 m2 p2 ->
    matches (Star a) p (m1 ++ m2) p2
| MLazyNil a p : matches (LazyStar a) p "" p
| MLazyCons a p m1 p1 m2 p2 :
    matches a p m1 p1 -> matches (LazyStar a) p1 m2 p2 ->
    matches (LazyStar a) p (m1 ++ m2) p2
| MNotAfter c p : p <> Some c -> matches (NotAfter c) p "" p.

(** A terminal's language. *)
Definition lang (r : regex) (m : string) : Prop := exists p, matches r None m p.

(** The backtracking matcher: every way [r] matches a prefix of the input,
    as (matched text, last character, rest), in the order a backtracking
    engine tries them.  The first one is what [match] returns. *)
Definition mstate : Type := (string * option ascii * string)%type.

Definition shorter (t s : string) : bool :=
  Nat.ltb (String.length t) (String.length s).

Definition extend (m : string) (l : list mstate) : list mstate :=
  map (fun '(m', p, t) => (m ++ m', p, t)) l.

Fixpoint iterate (lazy : bool)
    (step : option ascii -> string -> list mstate)
    (fuel : nat) (prev : option ascii) (s : string) : list mstate :=
  match fuel with
  | O => [("", prev, s)]
  | S f =>
      let more :=
        flat_map (fun '(m, p, t) =>
                    if shorter t s then extend m (iterate lazy step f p t) else [])
                 (step prev s) in
      if lazy then ("", prev, s) :: more else (more ++ [("", prev, s)])%list
  end.

Fixpoint rmatch (r : regex) (prev : option ascii) (s : string) : list mstate :=
  match r with
  | Eps => [("", prev, s)]
  | Cls f =>
      match s with
      | String c t => if f c then [(String c "", Some c, t)] else []
      | EmptyString => []
      end
  | Cat a b =>
      flat_map (fun '(m, p, t) => extend m (rmatch b p t)) (rmatch a prev s)
  | Alt a b => (rmatch a prev s ++ rmatch b prev s)%list
  | Star a => iterate false (rmatch a) (S (String.length s)) prev s
  | LazyStar a => iterate true (rmatch a) (S (String.length s)) prev s
  | NotAfter c =>
      match prev with
      | Some p => if char_eqb p c then [] else [("", prev, s)]
      | None => [("", prev, s)]
      end
  end.

(** ** The terminals of [path_parser] *)

Definition digit : ascii -> bool := in_range 48 57.
Definition hex_class (c : ascii) : bool :=
  (digit c || in_range 97 102 c || in_range 65 70 c)%bool.
Definition oct_class : ascii -> bool := in_range 48 55.
Definition bin_class : ascii -> bool := in_range 48 49.
Definition any_char (c : ascii) : bool := negb (char_eqb c newline).
Definition sign_class (c : ascii) : bool :=
  (char_eqb c "+" || char_eqb c "-")%bool.

(** The categories Lu, Ll, Lt, Lm, Lo, Nl and the underscore. *)
Definition id_start_class (c : ascii) : bool :=
  (in_range 65 90 c || in_range 192 214 c || in_range 216 222 c
   || in_range 97 122 c || N.eqb (ord c) 181 || in_range 223 246 c
   || in_range 248 255 c
   || N.eqb (ord c) 170 || N.eqb (ord c) 186
   || N.eqb (ord c) 95)%bool.

(** The categories Mn, Mc, Nd, Pc and the middle dot. *)
Definition id_continue_class (c : ascii) : bool :=
  (in_range 48 57 c || N.eqb (ord c) 95 || N.eqb (ord c) 183)%bool.

Definition ID_START : regex := Plus (Cls id_start_class).
Definition ID_CONTINUE : regex := Alt ID_START (Plus (Cls id_continue_class)).

Definition DEC_NUMBER : regex := Cat (Opt (Chr "-")) (Plus (Cls digit)).
Definition HEX_NUMBER : regex :=
  Cat (Opt (Chr "-")) (Cat (Chr "0") (Cat (ChrI "x" "X") (Star (Cls hex_class)))).
Definition OCT_NUMBER : regex :=
  Cat (Opt (Chr "-")) (Cat (Chr "0") (Cat (ChrI "o" "O") (Star (Cls oct_class)))).
Definition BIN_NUMBER : regex :=
  Cat (Opt (Chr "-")) (Cat (Chr "0") (Cat (ChrI "b" "B") (Star (Cls bin_class)))).

Definition exponent : regex :=
  Cat (ChrI "e" "E") (Cat (Opt (Cls sign_class)) (Plus (Cls digit))).

Definition FLOAT_NUMBER : regex :=
  Cat (Opt (Chr "-"))
    (Alt (Cat (Alt (Cat (Plus (Cls digit)) (Cat (Chr ".") (Star (Cls digit))))
                 (Alt (Cat (Chr ".") (Plus (Cls digit)))
                    (Plus (Cls digit))))
            (Opt exponent))
         (Cat (Plus (Cls digit)) exponent)).

Definition IMAG_NUMBER : regex :=
  Cat (Alt DEC_NUMBER FLOAT_NUMBER) (ChrI "j" "J").

Definition COMPLEX_NUMBER : regex :=
  Alt IMAG_NUMBER
    (Cat (Chr "(")
       (Cat (Alt FLOAT_NUMBER DEC_NUMBER)
          (Cat (Cls sign_class) (Cat IMAG_NUMBER (Chr ")"))))).

(** [/q.*?(?<!\\)(\\\\)*?q/] for a quote character [q]. *)
Definition quoted (q : ascii) : regex :=
  Cat (Chr q)
    (Cat (LazyStar (Cls any_char))
       (Cat (NotAfter backslash)
          (Cat (LazyStar (Cat (Chr backslash) (Chr backslash))) (Chr q)))).

Definition STRING_DQ : regex := quoted dquote.
Definition STRING_SQ : regex := quoted squote.

(** ** The grammar: the texts each rule generates *)

Definition one_of (rs : list regex) (t : string) : Prop :=
  exists r, In r rs /\ lang r t.

Definition optional (L : string -> Prop) (t : string) : Prop :=
  t = "" \/ L t.

Definition number_lang : string -> Prop :=
  one_of [DEC_NUMBER; HEX_NUMBER; BIN_NUMBER; OCT_NUMBER;
          FLOAT_NUMBER; COMPLEX_NUMBER].

Definition integer_lang : string -> Prop :=
  one_of [DEC_NUMBER; HEX_NUMBER; BIN_NUMBER; OCT_NUMBER].

Inductive slice_key_lang : string -> Prop :=
| slice_two a b :
    optional integer_lang a -> optional integer_lang b ->
    slice_key_lang (a ++ ":" ++ b)
| slice_three a b c :
    optional integer_lang a -> optional integer_lang b ->
    optional integer_lang c ->
    slice_key_lang (a ++ ":" ++ b ++ ":" ++ c).

Definition string_lang (t : string) : Prop :=
  lang STRING_DQ t \/ lang STRING_SQ t.

Definition none_lang (t : string) : Prop := t = "None".

Definition boolean_lang (t : string) : Prop := t = "True" \/ t = "False".

Inductive id_continues : string -> Prop :=
| id_continues_nil : id_continues ""
| id_continues_cons c r :
    lang ID_CONTINUE c -> id_continues r -> id_continues (c ++ r).

Definition identifier_lang (t : string) : Prop :=
  exists a r, t = a ++ r /\ lang ID_START a /\ id_continues r.

Inductive key_lang : string -> Prop :=
| key_number t : number_lang t -> key_lang t
| key_slice t : slice_key_lang t -> key_lang t
| key_boolean t : boolean_lang t -> key_lang t
| key_none t : none_lang t -> key_lang t
| key_string t : string_lang t -> key_lang t
| key_tuple_empty : key_lang "()"
| key_tuple_single k : key_lang k -> key_lang ("(" ++ k ++ ",)")
| key_tuple_several k ks :
    key_lang k -> more_keys ks -> key_lang ("(" ++ k ++ ks ++ ")")
| key_tuple_several_comma k ks :
    key_lang k -> more_keys ks -> key_lang ("(" ++ k ++ ks ++ ",)")
with more_keys : string -> Prop :=
| more_keys_one k : key_lang k -> more_keys ("," ++ k)
| more_keys_cons k ks : key_lang k -> more_keys ks -> more_keys ("," ++ k ++ ks).

Inductive segments_lang : string -> Prop :=
| segments_nil : segments_lang ""
| segments_dot i r :
    identifier_lang i -> segments_lang r -> segments_lang ("." ++ i ++ r)
| segments_key k r :
    key_lang k -> segments_lang r -> segments_lang ("[" ++ k ++ "]" ++ r).

Inductive path_lang : string -> Prop :=
| path_empty : path_lang ""
| path_identifier i r :
    identifier_lang i -> segments_lang r -> path_lang (i ++ r)
| path_key k r :
    key_lang k -> segments_lang r -> path_lang ("[" ++ k ++ "]" ++ r).

(** ** Host functions the transformer calls: [int] and [ast.literal_eval] *)

Fixpoint strip_prefix (p s : string) : option string :=
  match p, s with
  | EmptyString, _ => Some s
  | String a p', String b s' => if char_eqb a b then strip_prefix p' s' else None
  | _, _ => None
  end.

Fixpoint span (f : ascii -> bool) (s : string) : string * string :=
  match s with
  | String c r =>
      if f c then let '(a, b) := span f r in (String c a, b) else ("", s)
  | EmptyString => ("", "")
  end.

Definition nonempty (s : string) : bool :=
  match s with
  | EmptyString => false
  | _ => true
  end.

(** The value of a run of decimal digits. *)
Definition dec_value (ds : string) : option N :=
  option_map N.of_uint (NilEmpty.uint_of_string ds).

Definition digit_value (c : ascii) : option N :=
  if digit c then Some (ord c - 48)%N
  else if in_range 97 102 c then Some (ord c - 87)%N
  else if in_range 65 70 c then Some (ord c - 55)%N
  else None.

Fixpoint radix_value (base acc : N) (s : string) : option N :=
  match s with
  | EmptyString => Some acc
  | String c r =>
      match digit_value c with
      | Some d => if N.ltb d base then radix_value base (base * acc + d) r else None
      | None => None
      end
  end.

(** The sign of a signed text and the text after it. *)
Definition split_sign (plus : bool) (text : string) : bool * string :=
  match text with
  | String c r =>
      if char_eqb c "-" then (true, r)
      else if (plus && char_eqb c "+")%bool then (false, r)
      else (false, text)
  | EmptyString => (false, text)
  end.

(** [int(text)] on a token's text: an optional sign and decimal digits. *)
Definition py_int (text : string) : result Z :=
  let bad := Raise (ValueError None) in
  let '(neg, body) := split_sign true text in
  if (nonempty body && string_forallb digit body)%bool then
    match dec_value body with
    | Some n => Ok (if neg then - Z.of_N n else Z.of_N n)
    | None => bad
    end
  else bad.

(** A float literal without sign: digits, fraction, exponent. *)
Definition float_text (u : string) : result spec_float :=
  let '(ip, r1) := span digit u in
  let '(fp, r2) :=
    match r1 with
    | String c r => if is_dot c then span digit r else ("", r1)
    | EmptyString => ("", r1)
    end in
  let exp : option Z :=
    match r2 with
    | EmptyString => Some 0
    | String e r =>
        if is_e e then
          let '(neg, ds) := split_sign true r in
          if (nonempty ds && string_forallb digit ds)%bool then
            option_map (fun n => if neg then - Z.of_N n else Z.of_N n) (dec_value ds)
          else None
        else None
    end in
  match exp, dec_value (ip ++ fp) with
  | Some e, Some m =>
      if nonempty (ip ++ fp)
      then Ok (float_of_decimal false (Z.of_N m) (e - Z.of_nat (String.length fp)))
      else Raise SyntaxError
  | _, _ => Raise SyntaxError
  end.

Definition radix_literal (base : N) (ds : string) : result value :=
  if nonempty ds then
    match radix_value base 0 ds with
    | Some n => Ok (VInt (Z.of_N n))
    | None => Raise SyntaxError
    end
  else Raise SyntaxError.

Fixpoint last_char (s : string) : option ascii :=
  match s with
  | EmptyString => None
  | String c EmptyString => Some c
  | String _ r => last_char r
  end.

Definition drop_last (s : string) : string :=
  String.substring 0 (String.length s - 1) s.

(** A decimal literal without sign: an imaginary number, an integer (with
    no zero in front unless it is all zeros) or a float. *)
Definition decimal_literal (u : string) : result value :=
  match last_char u with
  | Some c =>
      if is_j c then
        f <- float_text (drop_last u) ;; Ok (VComplex (S754_zero false) f)
      else if string_forallb digit u then
        if (starts_with (char_eqb "0") u && negb (string_forallb (char_eqb "0") u))%bool
        then Raise SyntaxError
        else
          match dec_value u with
          | Some n => Ok (VInt (Z.of_N n))
          | None => Raise SyntaxError
          end
      else f <- float_text u ;; Ok (VFloat f)
  | None => Raise SyntaxError
  end.

(** A numeric literal without sign, as the host's own grammar reads it. *)
Definition unsigned_literal (u : string) : result value :=
  match u with
  | String c (String x ds) =>
      if (char_eqb c "0" && is_x x)%bool then radix_literal 16 ds
      else if (char_eqb c "0" && is_o x)%bool then radix_literal 8 ds
      else if (char_eqb c "0" && is_b x)%bool then radix_literal 2 ds
      else decimal_literal u
  | _ => decimal_literal u
  end.

Definition negate (v : value) : value :=
  match v with
  | VInt z => VInt (- z)
  | VFloat f => VFloat (SFopp f)
  | VComplex re im => VComplex (SFopp re) (SFopp im)
  | _ => v
  end.

Definition signed_literal (t : string) : result value :=
  let '(neg, u) := split_sign false t in
  v <- unsigned_literal u ;; Ok (if neg then negate v else v).

Definition float_of_int (z : Z) : result spec_float :=
  match binary_normalize float_prec float_emax z 0 false with
  | S754_infinity _ => Raise OverflowError
  | f => Ok f
  end.

Definition fadd : spec_float -> spec_float -> spec_float := SFadd float_prec float_emax.
Definition fsub : spec_float -> spec_float -> spec_float := SFsub float_prec float_emax.

Definition unsigned_number : regex :=
  Alt (Cat (Alt (Cat (Plus (Cls digit)) (Cat (Chr ".") (Star (Cls digit))))
              (Alt (Cat (Chr ".") (Plus (Cls digit)))
                 (Plus (Cls digit))))
         (Opt exponent))
      (Cat (Plus (Cls digit)) exponent).

(** [left op right] inside parentheses: a signed real number, [+] or [-], and
    an imaginary literal without sign. *)
Definition complex_literal (body : string) : result value :=
  let '(neg, rest) := split_sign false body in
  match rmatch unsigned_number None rest with
  | (lt, _, String op rt) :: _ =>
      l <- unsigned_literal lt ;;
      if starts_with sign_class rt
      then Raise (ValueError None)
      else
          r <- unsigned_literal rt ;;
          lf <- match (if neg then negate l else l) with
                | VInt z => float_of_int z
                | VFloat f => Ok f
                | _ => Raise (ValueError None)
                end ;;
          match r with
          | VComplex rre rim =>
              if char_eqb op "+"
              then Ok (VComplex (fadd lf rre) (fadd (S754_zero false) rim))
              else Ok (VComplex (fsub lf rre) (fsub (S754_zero false) rim))
          | _ => Raise (ValueError None)
          end
  | _ => Raise SyntaxError
  end.

(** [ast.literal_eval] on the text of a number token. *)
Definition literal_eval (text : string) : result value :=
  match text with
  | String c r =>
      if char_eqb c "(" then
        match last_char r with
        | Some e => if char_eqb e ")" then complex_literal (drop_last r)
                    else Raise SyntaxError
        | None => Raise SyntaxError
        end
      else signed_literal text
  | EmptyString => Raise SyntaxError
  end.

(** ** Parse trees *)

Inductive rule : Type :=
| r_identifier
| r_slice_key
| r_number
| r_none
| r_boolean
| r_string
| r_tuple_key.

#[local] Unset Elimination Schemes.

Inductive tree : Type :=
| Token (text : string)
| Tree (data : rule) (children : list tree).

#[local] Set Elimination Schemes.

(** The tree of the start rule [path]: its children are the trees of the
    identifiers and keys, in order. *)
Inductive path_tree : Type :=
| PathTree (children : list tree).

(** ** The parser

    A parser returns every way the rule matches a prefix of the input, each
    with the rest of the input.  A terminal is matched as the dynamic lexer
    does it: one match of its regular expression at the position. *)

Definition parser (A : Type) : Type := string -> list (A * string).

Definition terminal (r : regex) : parser string :=
  fun s =>
    match rmatch r None s with
    | (m, _, t) :: _ => [(m, t)]
    | [] => []
    end.

Definition literal (l : string) : parser string :=
  fun s =>
    match strip_prefix l s with
    | Some t => [(l, t)]
    | None => []
    end.

Definition pmap {A B : Type} (f : A -> B) (p : parser A) : parser B :=
  fun s => map (fun '(a, t) => (f a, t)) (p s).

Definition seq {A B C : Type} (f : A -> B -> C) (p : parser A) (q : parser B)
  : parser C :=
  fun s => flat_map (fun '(a, t) => map (fun '(b, u) => (f a b, u)) (q t)) (p s).

Definition alt {A : Type} (p q : parser A) : parser A :=
  fun s => (p s ++ q s)%list.

Definition pure {A : Type} (a : A) : parser A := fun s => [(a, s)].

Definition fail {A : Type} : parser A := fun _ => [].

(** [[p]]: present or absent. *)
Definition maybe {A : Type} (p : parser (list A)) : parser (list A) :=
  alt p (pure []).

(** [p*], at most [fuel] times. *)
Fixpoint many {A : Type} (fuel : nat) (p : parser A) : parser (list A) :=
  match fuel with
  | O => pure []
  | S f => alt (seq cons p (many f p)) (pure [])
  end.

Definition token_eq_dec : forall a b : string * string, {a = b} + {a <> b}.
Proof. decide equality; apply string_dec. Defined.

(** The alternatives of one rule over terminals: a text matched by several of
    them is one match of the rule. *)
Definition terminals (rs : list regex) : parser string :=
  fun s => nodup token_eq_dec (flat_map (fun r => terminal r s) rs).

Definition token1 (p : parser string) : parser (list tree) :=
  pmap (fun m => [Token m]) p.

Definition skip (l : string) : parser (list tree) :=
  pmap (fun _ => []) (literal l).

Definition cat : parser (list tree) -> parser (list tree) -> parser (list tree) :=
  seq (@app tree).

Definition number : parser tree :=
  pmap (fun m => Tree r_number [Token m])
    (terminals [DEC_NUMBER; HEX_NUMBER; BIN_NUMBER; OCT_NUMBER;
                FLOAT_NUMBER; COMPLEX_NUMBER]).

Definition integer : parser (list tree) :=
  token1 (terminals [DEC_NUMBER; HEX_NUMBER; BIN_NUMBER; OCT_NUMBER]).

Definition colon : parser (list tree) := token1 (literal ":").

Definition slice_key : parser tree :=
  pmap (Tree r_slice_key)
    (alt (cat (maybe integer) (cat colon (maybe integer)))
         (cat (maybe integer)
            (cat colon (cat (maybe integer) (cat colon (maybe integer)))))).

Definition string_ : parser tree :=
  pmap (fun m => Tree r_string [Token m])
    (alt (terminal STRING_DQ) (terminal STRING_SQ)).

Definition none : parser tree :=
  pmap (fun m => Tree r_none [Token m]) (literal "None").

Definition boolean : parser tree :=
  pmap (fun m => Tree r_boolean [Token m]) (alt (literal "True") (literal "False")).

Definition identifier : parser tree :=
  fun s =>
    pmap (Tree r_identifier)
      (cat (token1 (terminal ID_START))
         (pmap (map Token) (many (String.length s) (terminal ID_CONTINUE)))) s.

Definition tuple_key (fuel : nat) (key : parser tree) : parser tree :=
  let key1 := pmap (fun k => [k]) key in
  pmap (Tree r_tuple_key)
    (alt (skip "()")
       (alt (cat (skip "(") (cat key1 (skip ",)")))
          (cat (skip "(")
             (cat key1
                (cat (cat (cat (skip ",") key1)
                        (pmap (@concat tree) (many fuel (cat (skip ",") key1))))
                   (cat (maybe (skip ",")) (skip ")"))))))).

Fixpoint key (fuel : nat) : parser tree :=
  alt number
    (alt slice_key
       (alt boolean
          (alt none
             (alt string_
                match fuel with
                | O => fail
                | S f => tuple_key f (key f)
                end)))).

(** A key between brackets. *)
Definition item (fuel : nat) : parser (list tree) :=
  cat (skip "[") (cat (pmap (fun t => [t]) (key fuel)) (skip "]")).

Definition segment_first (fuel : nat) : parser (list tree) :=
  alt (pmap (fun t => [t]) identifier) (item fuel).

Definition segment (fuel : nat) : parser (list tree) :=
  alt (cat (skip ".") (pmap (fun t => [t]) identifier)) (item fuel).

Definition path (fuel : nat) : parser path_tree :=
  pmap PathTree
    (maybe (cat (segment_first fuel)
              (pmap (@concat tree) (many fuel (segment fuel))))).

Definition is_empty (s : string) : bool := negb (nonempty s).

(** The derivations that consume the whole text. *)
Definition complete {A : Type} (l : list (A * string)) : list (A * string) :=
  filter (fun '(_, t) => is_empty t) l.

(** [path_parser.parse]: the first derivation that consumes the whole text. *)
Definition parse (text : string) : result path_tree :=
  match complete (path (String.length text) text) with
  | (t, _) :: _ => Ok t
  | [] => Raise ParseError
  end.

(** ** class PathTransformer

    Each callback gets the list of its node's transformed children; a token
    is left as the string it is.  An exception a callback raises reaches the
    caller inside a [VisitError]. *)

Module PathTransformer.

Definition identifier (args : list value) : result value :=
  match args with
  | a :: _ => Ok (VStr (py_str a))
  | [] => Raise IndexError
  end.

Definition set_item (sargs : list value) (i : nat) (v : value)
  : result (list value) :=
  if Nat.ltb i (List.length sargs)
  then Ok (firstn i sargs ++ v :: skipn (S i) sargs)%list
  else Raise IndexError.

Fixpoint slice_loop (args : list value) (i : nat) (sargs : list value)
  : result (list value) :=
  match args with
  | [] => Ok sargs
  | a :: rest =>
      if py_eq a (VStr ":") then slice_loop rest (S i) sargs
      else
        v <- match a with
             | VNone => Ok VNone
             | VStr t => n <- py_int t ;; Ok (VInt n)
             | _ => Raise (TypeError "int() argument")
             end ;;
        sargs' <- set_item sargs i v ;;
        slice_loop rest i sargs'
  end.

Definition slice_key (args : list value) : result value :=
  sargs <- slice_loop args 0 [VNone; VNone; VNone] ;;
  match sargs with
  | [a; b; c] => Ok (VSlice a b c)
  | _ => Raise (TypeError "slice expected at most 3 arguments")
  end.

Definition number (args : list value) : result value :=
  match args with
  | VStr t :: _ => literal_eval t
  | _ :: _ => Raise (ValueError None)
  | [] => Raise IndexError
  end.

Definition none (_ : list value) : result value := Ok VNone.

Definition boolean (args : list value) : result value :=
  match args with
  | VStr t :: _ =>
      if String.eqb t "True" then Ok (VBool true)
      else if String.eqb t "False" then Ok (VBool false)
      else Raise KeyError
  | _ :: _ => Raise KeyError
  | [] => Raise IndexError
  end.

(** [args[0][1:-1]] *)
Definition string (args : list value) : result value :=
  match args with
  | VStr t :: _ => Ok (VStr (String.substring 1 (String.length t - 2) t))
  | _ :: _ => Raise (TypeError "not subscriptable")
  | [] => Raise IndexError
  end.

Definition tuple_key (args : list value) : result value := Ok (VTuple args).

Definition path (args : list value) : result Path := __init__ args.

Definition callback (data : rule) : list value -> result value :=
  match data with
  | r_identifier => identifier
  | r_slice_key => slice_key
  | r_number => number
  | r_none => none
  | r_boolean => boolean
  | r_string => string
  | r_tuple_key => tuple_key
  end.

Definition visit {A : Type} (r : result A) : result A :=
  match r with
  | Ok a => Ok a
  | Raise e => Raise (VisitError e)
  end.

Fixpoint transform_tree (t : tree) : result value :=
  match t with
  | Token text => Ok (VStr text)
  | Tree data children =>
      args <- (fix each (cs : list tree) : result (list value) :=
                 match cs with
                 | [] => Ok []
                 | c :: r =>
                     x <- transform_tree c ;; xs <- each r ;; Ok (x :: xs)
                 end) children ;;
      visit (callback data args)
  end.

Fixpoint transform_children (cs : list tree) : result (list value) :=
  match cs with
  | [] => Ok []
  | c :: r => x <- transform_tree c ;; xs <- transform_children r ;; Ok (x :: xs)
  end.

Definition transform (t : path_tree) : result Path :=
  match t with
  | PathTree children => args <- transform_children children ;; visit (path args)
  end.

End PathTransformer.

Definition from_str (str_path : string) : result Path :=
  tree <- parse str_path ;;
  PathTransformer.transform tree.

(** ** Static facts about a regular expression *)

(** Whether [r] matches the empty text. *)
Fixpoint nullable (r : regex) : bool :=
  match r with
  | Eps | Star _ | LazyStar _ | NotAfter _ => true
  | Cls _ => false
  | Cat a b => (nullable a && nullable b)%bool
  | Alt a b => (nullable a || nullable b)%bool
  end.

(** Whether a text matched by [r] can begin with [c]. *)
Fixpoint first (r : regex) (c : ascii) : bool :=
  match r with
  | Eps | NotAfter _ => false
  | Cls f => f c
  | Cat a b => (first a c || (nullable a && first b c))%bool
  | Alt a b => (first a c || first b c)%bool
  | Star a | LazyStar a => first a c
  end.

(** Whether [c] can occur in a text matched by [r]. *)
Fixpoint alphabet (r : regex) (c : ascii) : bool :=
  match r with
  | Eps | NotAfter _ => false
  | Cls f => f c
  | Cat a b | Alt a b => (alphabet a c || alphabet b c)%bool
  | Star a | LazyStar a => alphabet a c
  end.

Definition all_chars : list ascii := map ascii_of_nat (List.seq 0 256).

(** Whether every text matched by [r] has a character of the class [P]. *)
Fixpoint needs (P : ascii -> bool) (r : regex) : bool :=
  match r with
  | Cls f => forallb (fun c => implb (f c) (P c)) all_chars
  | Cat a b => (needs P a || needs P b)%bool
  | Alt a b => (needs P a && needs P b)%bool
  | _ => false
  end.

(** The first match of a list of matches. *)
Definition first_is (l : list mstate) (m t : string) : Prop :=
  exists p' l', l = (m, p', t) :: l'.

(** The text of an integer: an optional minus sign and digits. *)
Definition is_int_text (t : string) : bool :=
  match t with
  | String "-" ds => (nonempty ds && string_forallb digit ds)%bool
  | _ => (nonempty t && string_forallb digit t)%bool
  end.

(** Whether no character is in both classes. *)
Definition disjoint_classes (f g : ascii -> bool) : bool :=
  forallb (fun c => negb (f c && g c)) all_chars.

(** What can follow a key or a slice bound in a canonical string. *)
Definition delimiter (c : ascii) : bool :=
  (char_eqb c "]" || char_eqb c "," || char_eqb c ":")%bool.

Definition int_char (c : ascii) : bool := (digit c || char_eqb c "-")%bool.

(** The characters a key of each kind can begin with. *)
Definition number_start (c : ascii) : bool :=
  existsb (fun r => first r c)
    [DEC_NUMBER; HEX_NUMBER; BIN_NUMBER; OCT_NUMBER; FLOAT_NUMBER; COMPLEX_NUMBER].

Definition integer_start (c : ascii) : bool :=
  existsb (fun r => first r c) [DEC_NUMBER; HEX_NUMBER; BIN_NUMBER; OCT_NUMBER].

Definition slice_start (c : ascii) : bool :=
  (integer_start c || char_eqb ":" c)%bool.

Definition boolean_start (c : ascii) : bool :=
  (char_eqb "T" c || char_eqb "F" c)%bool.

Definition none_start (c : ascii) : bool := char_eqb "N" c.

Definition string_start (c : ascii) : bool :=
  (char_eqb dquote c || char_eqb squote c)%bool.

Definition tuple_start (c : ascii) : bool := char_eqb "(" c.

(** What can follow a key inside brackets or inside a tuple. *)
Definition key_end (c : ascii) : bool :=
  (char_eqb c "]" || char_eqb c ",")%bool.

(** A character that stands for itself between quotes [q]. *)
Definition body_char (q c : ascii) : bool :=
  (any_char c && negb (char_eqb q c) && negb (char_eqb backslash c))%bool.

(** The end of a string literal: no backslash before, pairs of backslashes,
    the quote. *)
Definition closing (q : ascii) : regex :=
  Cat (NotAfter backslash)
    (Cat (LazyStar (Cat (Chr backslash) (Chr backslash))) (Chr q)).

(** A string [repr] writes between quotes as it is: printable characters,
    no backslash, and not both kinds of quote. *)
Definition quotable (s : string) : bool :=
  (string_forallb (fun c => isprintable c && negb (char_eqb c backslash)) s
   && negb (contains squote s && contains dquote s))%bool.

(** The canonical text of a slice with integer or absent bounds, and the
    tokens the slice rule reads from it. *)
Definition opt_int (v : value) : bool :=
  match v with
  | VNone | VInt _ => true
  | _ => false
  end.

Definition opt_text (v : value) : string :=
  match v with
  | VInt z => int_repr z
  | _ => ""
  end.

Definition opt_tokens (v : value) : list tree :=
  match v with
  | VInt z => [Token (int_repr z)]
  | _ => []
  end.

Definition slice_text (a b c : value) : string :=
  opt_text a ++ ":"
  ++ (if is_none c then opt_text b else opt_text b ++ ":" ++ opt_text c).

Definition slice_tokens (a b c : value) : list tree :=
  (opt_tokens a ++ [Token ":"] ++ opt_tokens b
   ++ (if is_none c then [] else Token ":" :: opt_tokens c))%list.

(** The keys a tuple key can hold so that its canonical text reads back:
    integers, booleans, [None], strings [repr] quotes as they are, and
    tuples of at most one such key. *)
Fixpoint canonical_elem (k : value) : bool :=
  match k with
  | VInt _ | VBool _ | VNone => true
  | VStr s => quotable s
  | VTuple [] => true
  | VTuple [x] => canonical_elem x
  | _ => false
  end.

(** The parse tree of such a key. *)
Fixpoint elem_tree (k : value) : tree :=
  match k with
  | VInt z => Tree r_number [Token (int_repr z)]
  | VBool b => Tree r_boolean [Token (if b then "True" else "False")]
  | VNone => Tree r_none [Token "None"]
  | VStr s => Tree r_string [Token (str_repr s)]
  | VTuple [x] => Tree r_tuple_key [elem_tree x]
  | VTuple _ => Tree r_tuple_key []
  | _ => Token ""
  end.

(** How deep tuples nest in a key. *)
Fixpoint key_depth (k : value) : nat :=
  match k with
  | VTuple [x] => S (key_depth x)
  | VTuple _ => 1
  | _ => 0
  end.

(** The characters the text of such a key can begin with. *)
Definition elem_start (c : ascii) : bool :=
  (int_char c || boolean_start c || none_start c || string_start c
   || tuple_start c)%bool.

(** The keys whose canonical text reads back: integers, booleans, [None],
    strings that are either a name made of letters and underscores or a
    text that [repr] quotes as it is, slices with integer or absent bounds,
    and tuples of at most one key, nested. *)
Definition canonical_key (k : value) : bool :=
  match k with
  | VInt _ | VBool _ | VNone => true
  | VStr s => if isidentifier s then string_forallb id_start_class s else quotable s
  | VSlice a b c => (opt_int a && opt_int b && opt_int c)%bool
  | VTuple _ => canonical_elem k
  | _ => false
  end.

(** The parse tree of a canonical key. *)
Definition tree_of (k : value) : tree :=
  match k with
  | VInt z => Tree r_number [Token (int_repr z)]
  | VBool b => Tree r_boolean [Token (if b then "True" else "False")]
  | VNone => Tree r_none [Token "None"]
  | VStr s =>
      if isidentifier s then Tree r_identifier [Token s]
      else Tree r_string [Token (str_repr s)]
  | VSlice a b c => Tree r_slice_key (slice_tokens a b c)
  | VTuple _ => elem_tree k
  | _ => Token ""
  end.

(** Whether a key is written as a dotted name. *)
Definition dotted_key (k : value) : bool :=
  match k with
  | VStr s => isidentifier s
  | _ => false
  end.

(** What follows a segment of a canonical string: nothing, or the next
    segment. *)
Definition is_path_tail (t : string) : bool :=
  match t with
  | EmptyString => true
  | String c _ => (char_eqb "." c || char_eqb "[" c)%bool
  end.

(** The text a key contributes at the head of a canonical string. *)
Definition first_text (k : value) : string :=
  match k with
  | VStr s => if isidentifier s then s else format_part k
  | _ => format_part k
  end.

(** Of the keys read after the bracket, those followed by the closing
    bracket make an item. *)
Definition closed (l : list (tree * string)) : list (list tree * string) :=
  flat_map (fun '(t, r) =>
              match r with
              | String c u => if char_eqb "]" c then [([t], u)] else []
              | EmptyString => []
              end) l.

(** ** Identifiers over all of Unicode

    The identifier terminals name Unicode general categories, and
    [str.isidentifier] goes by the derived properties XID_Start and
    XID_Continue.  Beyond Latin-1 these tables are the host's data: they are
    the parameters of this section, and a text is the list of its code
    points. *)

Inductive general_category : Type :=
| Lu | Ll | Lt | Lm | Lo | Nl | Mn | Mc | Nd | Pc | Cx.

Section Unicode.

Variable category : N -> general_category.
Variable XID_Start : N -> bool.
Variable XID_Continue : N -> bool.

(** [[\p{Lu}\p{Ll}\p{Lt}\p{Lm}\p{Lo}\p{Nl}_]] *)
Definition id_start_point (c : N) : bool :=
  match category c with
  | Lu | Ll | Lt | Lm | Lo | Nl => true
  | _ => N.eqb c 95%N
  end.

(** [[\p{Mn}\p{Mc}\p{Nd}\p{Pc}·]] *)
Definition id_continue_point (c : N) : bool :=
  match category c with
  | Mn | Mc | Nd | Pc => true
  | _ => N.eqb c 183%N
  end.

(** The longest run of a class at the head of a text, and the rest. *)
Fixpoint run (f : N -> bool) (s : list N) : list N * list N :=
  match s with
  | c :: r => if f c then let '(m, t) := run f r in (c :: m, t) else ([], s)
  | [] => ([], [])
  end.

Definition some_run (f : N -> bool) (s : list N) : option (list N * list N) :=
  match run f s with
  | ([], _) => None
  | r => Some r
  end.

Definition ID_START_points : list N -> option (list N * list N) :=
  some_run id_start_point.

Definition ID_CONTINUE_points (s : list N) : option (list N * list N) :=
  match ID_START_points s with
  | Some r => Some r
  | None => some_run id_continue_point s
  end.

Fixpoint continue_points (fuel : nat) (s : list N) : option (list (list N)) :=
  match s, fuel with
  | [], _ => Some []
  | _, O => None
  | _, S f =>
      match ID_CONTINUE_points s with
      | Some (m, r) => option_map (cons m) (continue_points f r)
      | None => None
      end
  end.

(** [identifier: ID_START ID_CONTINUE*] on a whole text: its tokens. *)
Definition identifier_points (s : list N) : option (list (list N)) :=
  match ID_START_points s with
  | Some (m, r) => option_map (cons m) (continue_points (List.length r) r)
  | None => None
  end.

(** [str.isidentifier] *)
Definition isidentifier_points (s : list N) : bool :=
  match s with
  | [] => false
  | c :: r => ((XID_Start c || N.eqb c 95%N) && forallb XID_Continue r)%bool
  end.

End Unicode.

(** The categories of the Latin-1 block and of U+FDFA (an Arabic ligature,
    a letter that is no identifier character). *)
Definition sample_category (c : N) : general_category :=
  let within lo hi := (N.leb lo c && N.leb c hi)%bool in
  if (within 65 90 || within 192 214 || within 216 222)%N%bool then Lu
  else if (within 97 122 || N.eqb c 181 || within 223 246 || within 248 255)%N%bool
  then Ll
  else if (N.eqb c 170 || N.eqb c 186 || N.eqb c 65018)%N%bool then Lo
  else if (within 48 57)%N then Nd
  else if (N.eqb c 95)%N then Pc
  else Cx.

Definition sample_xid_start (c : N) : bool :=
  (N.ltb c 256%N && xid_start (chr c))%bool.

Definition sample_xid_continue (c : N) : bool :=
  (N.ltb c 256%N && xid_continue (chr c))%bool.

(** ** What a parser generates

    [generates p L]: whatever [p] consumes from its input is a text of [L]. *)

Definition generates {A : Type} (p : parser A) (L : string -> Prop) : Prop :=
  forall s x t, In (x, t) (p s) -> exists m, s = m ++ t /\ L m.

Definition lang_cat (L1 L2 : string -> Prop) (m : string) : Prop :=
  exists a b, m = a ++ b /\ L1 a /\ L2 b.

Definition lang_alt (L1 L2 : string -> Prop) (m : string) : Prop := L1 m \/ L2 m.

Inductive lang_star (L : string -> Prop) : string -> Prop :=
| lang_star_nil : lang_star L ""
| lang_star_cons a r : L a -> lang_star L r -> lang_star L (a ++ r).

Definition bracketed (m : string) : Prop := exists k, m = "[" ++ k ++ "]" /\ key_lang k.
Definition dotted (m : string) : Prop := exists i, m = "." ++ i /\ identifier_lang i.

(** ** The admissible keys, in the specification's words *)

#[local] Unset Elimination Schemes.

Inductive admissible : value -> Prop :=
| adm_int z : admissible (VInt z)
| adm_float f : admissible (VFloat f)
| adm_complex re im : admissible (VComplex re im)
| adm_bool b : admissible (VBool b)
| adm_str s : admissible (VStr s)
| adm_none : admissible VNone
| adm_slice start stop step : admissible (VSlice start stop step)
| adm_tuple items : Forall admissible items -> admissible (VTuple items).

#[local] Set Elimination Schemes.

(** ** Induction on values, through the items of tuples and lists *)

Section ValueInd.

Variable P : value -> Prop.
Hypothesis Hint : forall z, P (VInt z).
Hypothesis Hbool : forall b, P (VBool b).
Hypothesis Hfloat : forall f, P (VFloat f).
Hypothesis Hcomplex : forall re im, P (VComplex re im).
Hypothesis Hstr : forall s, P (VStr s).
Hypothesis Hnone : P VNone.
Hypothesis Hslice : forall a b c, P a -> P b -> P c -> P (VSlice a b c).
Hypothesis Htuple : forall items, Forall P items -> P (VTuple items).
Hypothesis Hlist : forall items, Forall P items -> P (VList items).

Fixpoint value_ind (v : value) : P v :=
  let fix all (l : list value) : Forall P l :=
    match l with
    | [] => Forall_nil P
    | x :: r => Forall_cons x (value_ind x) (all r)
    end in
  match v with
  | VInt z => Hint z
  | VBool b => Hbool b
  | VFloat f => Hfloat f
  | VComplex re im => Hcomplex re im
  | VStr s => Hstr s
  | VNone => Hnone
  | VSlice a b c => Hslice a b c (value_ind a) (value_ind b) (value_ind c)
  | VTuple items => Htuple items (all items)
  | VList items => Hlist items (all items)
  end.

End ValueInd.

(** ** Which keys the host can hash *)

(** No slice and no list, at any depth. *)
Fixpoint hashable (v : value) : bool :=
  match v with
  | VSlice _ _ _ | VList _ => false
  | VTuple items => forallb hashable items
  | _ => true
  end.

(** A key of a Path that [__hash__wrapped] can hash: a slice of hashable bounds, or
    a hashable value. *)
Definition hashable_key (k : value) : bool :=
  match k with
  | VSlice start stop step => (hashable start && hashable stop && hashable step)%bool
  | _ => hashable k
  end.

Definition is_type_error (e : exn) : Prop := exists msg, e = TypeError msg.

(** A host for examples. *)
Definition sample_host : host :=
  mkHost (fun s => Z.of_nat (String.length s) + 1000003) 271828 314159.

(** The float [1.0]. *)
Definition float_one : spec_float := S754_finite false 4503599627370496 (-52).

(** ** [Path.__getitem__]: subscription of the key tuple

    [self.parts[key]] is the host's subscription of a tuple.  An integer key
    (a bool is one) counts from the end when it is negative.  A slice key
    selects the items its bounds and step reach, the bounds cut to the length
    of the tuple, and gives them as a tuple.  Any other key raises
    TypeError. *)

Definition PY_SSIZE_T_MAX : Z := 2 ^ 63 - 1.
Definition PY_SSIZE_T_MIN : Z := - PY_SSIZE_T_MAX - 1.

(** [__index__]: the integer a value stands for as an index. *)
Definition index_of (v : value) : option Z :=
  match v with
  | VInt z => Some z
  | VBool b => Some (if b then 1 else 0)
  | _ => None
  end.

Definition type_name (v : value) : string :=
  match v with
  | VInt _ => "int"
  | VBool _ => "bool"
  | VFloat _ => "float"
  | VComplex _ _ => "complex"
  | VStr _ => "str"
  | VNone => "NoneType"
  | VSlice _ _ _ => "slice"
  | VTuple _ => "tuple"
  | VList _ => "list"
  end.

(** The item at a position that is already counted from the start. *)
Definition tuple_item (items : list value) (i : Z) : result value :=
  if ((i <? 0) || (Z.of_nat (List.length items) <=? i))%bool then Raise IndexError
  else
    match nth_error items (Z.to_nat i) with
    | Some v => Ok v
    | None => Raise IndexError
    end.

(** A bound of a slice as a machine integer: an integer out of range is the
    nearest machine integer. *)
Definition slice_index (v : value) : result Z :=
  match index_of v with
  | Some z => Ok (Z.max PY_SSIZE_T_MIN (Z.min PY_SSIZE_T_MAX z))
  | None =>
      Raise (TypeError
        "slice indices must be integers or None or have an __index__ method")
  end.

(** The step, start and stop of a slice, read in this order. *)
Definition slice_unpack (start stop step : value) : result (Z * Z * Z) :=
  step' <- (if is_none step then Ok 1
            else
              s <- slice_index step ;;
              if s =? 0 then Raise (ValueError (Some "slice step cannot be zero"))
              else Ok (Z.max s (- PY_SSIZE_T_MAX))) ;;
  start' <- (if is_none start
             then Ok (if step' <? 0 then PY_SSIZE_T_MAX else 0)
             else slice_index start) ;;
  stop' <- (if is_none stop
            then Ok (if step' <? 0 then PY_SSIZE_T_MIN else PY_SSIZE_T_MAX)
            else slice_index stop) ;;
  Ok (start', stop', step').

(** A bound cut to a tuple of [length] items. *)
Definition adjust_bound (length step i : Z) : Z :=
  if i <? 0 then
    let i' := i + length in
    if i' <? 0 then (if step <? 0 then -1 else 0) else i'
  else if length <=? i then (if step <? 0 then length - 1 else length)
  else i.

(** How many items a slice with adjusted bounds selects. *)
Definition slice_length (start stop step : Z) : Z :=
  if step <? 0 then
    if stop <? start then (start - stop - 1) / (- step) + 1 else 0
  else
    if start <? stop then (stop - start - 1) / step + 1 else 0.

(** The items at [cur], [cur + step], ...: [n] of them.  The host reads them
    without a check; here a read outside the tuple would be an IndexError. *)
Fixpoint slice_items (items : list value) (cur step : Z) (n : nat)
  : result (list value) :=
  match n with
  | O => Ok []
  | S n' =>
      x <- tuple_item items cur ;;
      xs <- slice_items items (cur + step) step n' ;;
      Ok (x :: xs)
  end.

Definition tuple_subscript (items : list value) (key : value) : result value :=
  let length := Z.of_nat (List.length items) in
  match index_of key with
  | Some i =>
      if ((i <? PY_SSIZE_T_MIN) || (PY_SSIZE_T_MAX <? i))%bool then Raise IndexError
      else tuple_item items (if i <? 0 then i + length else i)
  | None =>
      match key with
      | VSlice start stop step =>
          bounds <- slice_unpack start stop step ;;
          let '(start', stop', step') := bounds in
          let start' := adjust_bound length step' start' in
          let stop' := adjust_bound length step' stop' in
          let n := slice_length start' stop' step' in
          xs <- slice_items items start' step' (Z.to_nat n) ;;
          Ok (VTuple xs)
      | _ =>
          Raise (TypeError ("tuple indices must be integers or slices, not "
                            ++ type_name key))
      end
  end.

Definition __getitem__ (self : Path) (key : value) : result value :=
  tuple_subscript (parts self) key.

(** An integer or [None]: what the bound of a slice can be. *)
Definition opt_index (v : value) : bool :=
  match v with
  | VNone | VInt _ | VBool _ => true
  | _ => false
  end.

(** ** The characters of the grammar outside string literals *)

Definition is_quote (c : ascii) : bool :=
  (char_eqb c squote || char_eqb c dquote)%bool.

(** The characters the terminals other than the string literals can match,
    and those of the literals of the rules. *)
Definition grammar_char (c : ascii) : bool :=
  (existsb (fun r => alphabet r c)
     [ID_START; ID_CONTINUE; DEC_NUMBER; HEX_NUMBER; BIN_NUMBER; OCT_NUMBER;
      FLOAT_NUMBER; COMPLEX_NUMBER]
   || contains c "[]().,:NoneTrueFalse")%bool.

(** [str.isspace] on the characters below 256. *)
Definition is_space (c : ascii) : bool :=
  (in_range 9 13 c || in_range 28 32 c || N.eqb (ord c) 133
   || N.eqb (ord c) 160)%bool.

(** Integers, booleans, [None], and tuples of these, nested. *)
Fixpoint plain (v : value) : bool :=
  match v with
  | VInt _ | VBool _ | VNone => true
  | VTuple items => forallb plain items
  | _ => false
  end.

(** ** The keys the transformer builds *)

(** A number. *)
Definition is_number (v : value) : bool :=
  match v with
  | VInt _ | VFloat _ | VComplex _ _ => true
  | _ => false
  end.

(** A number, a boolean, [None], a string, a slice of integers or [None],
    or a tuple of these, nested. *)
Fixpoint parsed_key (v : value) : bool :=
  match v with
  | VInt _ | VBool _ | VFloat _ | VComplex _ _ | VStr _ | VNone => true
  | VSlice a b c => (opt_int a && opt_int b && opt_int c)%bool
  | VTuple items => forallb parsed_key items
  | VList _ => false
  end.

(** ** Induction on parse trees, through the children of a node *)

Section TreeInd.

Variable P : tree -> Prop.
Hypothesis HToken : forall text, P (Token text).
Hypothesis HTree : forall data children, Forall P children -> P (Tree data children).

Fixpoint tree_ind (t : tree) : P t :=
  match t with
  | Token text => HToken text
  | Tree data children =>
      HTree data children
        ((fix each (cs : list tree) : Forall P cs :=
            match cs with
            | [] => Forall_nil P
            | c :: r => Forall_cons c (tree_ind c) (each r)
            end) children)
  end.

End TreeInd.

(** ** The trees the parser builds *)

(** What every result of a parser satisfies. *)
Definition yields {A : Type} (p : parser A) (Q : A -> Prop) : Prop :=
  forall s x t, In (x, t) (p s) -> Q x.

Definition is_token (t : tree) : bool :=
  match t with
  | Token _ => true
  | Tree _ _ => false
  end.

Definition is_colon (t : tree) : bool :=
  match t with
  | Token text => String.eqb text ":"
  | Tree _ _ => false
  end.

Definition colons (ts : list tree) : nat := List.length (filter is_colon ts).

(** The shape of the tree of a key or of a name: one token under [number],
    [none] and [string]; the token [True] or [False] under [boolean]; one or
    more tokens under [identifier]; tokens, at most two of them colons, under
    [slice_key]; trees of keys under [tuple_key]. *)
Fixpoint well_formed (t : tree) : bool :=
  match t with
  | Token _ => false
  | Tree data children =>
      match data with
      | r_number | r_none | r_string =>
          match children with
          | [Token _] => true
          | _ => false
          end
      | r_boolean =>
          match children with
          | [Token text] => (String.eqb text "True" || String.eqb text "False")%bool
          | _ => false
          end
      | r_identifier =>
          match children with
          | Token _ :: rest => forallb is_token rest
          | _ => false
          end
      | r_slice_key => (forallb is_token children && Nat.leb (colons children) 2)%bool
      | r_tuple_key => forallb well_formed children
      end
  end.

Definition wf (t : tree) : Prop := well_formed t = true.

Definition all_wf (ts : list tree) : Prop := forallb well_formed ts = true.

(** Lists of tokens with a number of colons. *)
Definition tokens_with (n : nat) (ts : list tree) : Prop :=
  forallb is_token ts = true /\ colons ts = n.

(** The exceptions [int] and [ast.literal_eval] raise on the text of a
    token. *)
Definition is_conversion_error (e : exn) : bool :=
  match e with
  | SyntaxError | OverflowError | ValueError _ => true
  | _ => false
  end.

(** A result that is a value, or the VisitError of such an exception. *)
Definition raises_conversion {A} (r : result A) : Prop :=
  match r with
  | Ok _ => True
  | Raise e => exists o, e = VisitError o /\ is_conversion_error o = true
  end.

(** ** Tuples of integers as the grammar writes them *)

(** What can follow an integer inside a tuple or at the end of a key. *)
Definition follower (c : ascii) : bool :=
  (char_eqb c "]" || char_eqb c "," || char_eqb c ")")%bool.

(** The further items of a tuple, each after its comma. *)
Definition more_text (zs : list Z) : string :=
  String.concat "" (map (fun z => "," ++ int_repr z) zs).

Definition number_tree (z : Z) : tree := Tree r_number [Token (int_repr z)].

(** * Properties *)

(** ** The validator *)

Lemma is_valid_part_admissible (v : value) :
  _is_valid_part v = true <-> admissible v.
Proof.
  induction v using value_ind; simpl; split; intros H0;
    try constructor; try reflexivity; try discriminate.
  - rewrite forallb_forall in H0. rewrite Forall_forall in *.
    intros x Hx. apply H; auto.
  - inversion H0 as [| | | | | | |? Hall]; subst.
    rewrite forallb_forall. rewrite Forall_forall in *.
    intros x Hx. apply H; auto.
  - inversion H0.
Qed.

Lemma is_valid_parts_admissible (keys : list value) :
  _is_valid_part (VTuple keys) = true <-> Forall admissible keys.
Proof.
  rewrite is_valid_part_admissible. split; intros H.
  - inversion H; assumption.
  - constructor; assumption.
Qed.

(** ** The cached methods *)

Lemma hash_recursion (depth : nat) (h : host) (p : Path) :
  __hash__ depth h p = Raise RecursionError.
Proof.
  induction depth as [|d IH]; [reflexivity|].
  cbn [__hash__]. rewrite IH. reflexivity.
Qed.

Lemma repr_recursion (depth : nat) (h : host) (p : Path) :
  __repr__ depth h p = Raise RecursionError.
Proof.
  destruct depth as [|d]; [reflexivity|].
  cbn [__repr__]. rewrite hash_recursion. reflexivity.
Qed.

(** ** The constructor *)

Lemma collect_repr_values (depth : nat) (h : host) (keys : list value) :
  collect (map (repr_object depth h) (map OValue keys)) = Ok (map py_repr keys).
Proof.
  induction keys as [|k keys IH]; [reflexivity|].
  cbn [map collect repr_object bind]. rewrite IH. reflexivity.
Qed.

Lemma values_of_values (keys : list value) : values_of (map OValue keys) = keys.
Proof. induction keys as [|k keys IH]; [reflexivity|]. cbn. now rewrite IH. Qed.

Lemma valid_objects_values (keys : list value) :
  forallb is_valid_object (map OValue keys) = forallb _is_valid_part keys.
Proof. induction keys as [|k keys IH]; [reflexivity|]. cbn. now rewrite IH. Qed.

Lemma tuple_repr_values (keys : list value) :
  tuple_repr (map py_repr keys) = py_repr (VTuple keys).
Proof. destruct keys as [|a [|b r]]; reflexivity. Qed.

Lemma init_objects_values (depth : nat) (h : host) (keys : list value) :
  init_objects depth h (map OValue keys) = __init__ keys.
Proof.
  unfold init_objects, __init__. rewrite valid_objects_values.
  cbn [_is_valid_part]. destruct (forallb _is_valid_part keys); cbn [negb].
  - now rewrite values_of_values.
  - rewrite collect_repr_values. cbn [bind]. rewrite tuple_repr_values.
    reflexivity.
Qed.

Lemma init_objects_path (depth : nat) (h : host)
    (before : list object) (p : Path) (after : list object) :
  init_objects depth h (before ++ OPath p :: after)%list = Raise RecursionError.
Proof.
  unfold init_objects.
  assert (Hv : forallb is_valid_object (before ++ OPath p :: after) = false).
  { rewrite forallb_app. cbn. apply andb_false_r. }
  rewrite Hv. cbn [negb].
  assert (Hc : collect (map (repr_object depth h) (before ++ OPath p :: after))
               = Raise RecursionError).
  { clear Hv. induction before as [|o before IH].
    - cbn [app map collect repr_object]. rewrite repr_recursion. reflexivity.
    - cbn [app map collect]. rewrite IH.
      destruct o as [q|v]; cbn [repr_object].
      + rewrite repr_recursion. reflexivity.
      + reflexivity. }
  rewrite Hc. reflexivity.
Qed.

(** C2. On keys that are values of the host, construction succeeds,
    wrapping the keys in the given order, exactly when every key is
    admissible (recursively through tuples), and otherwise raises a
    [ValueError] whose message shows the keys it was given, as for the list
    [[1, 2]].  A key that is itself a Path is turned down by the validator
    as well, and then no ValueError is raised: writing the message takes
    the [repr] of the Path, which raises RecursionError, wherever the Path
    stands among the arguments. *)
Theorem init_of_path_key_raises_recursion_error (depth : nat) (h : host) :
  (forall keys, init_objects depth h (map OValue keys) = __init__ keys) /\
  (forall keys, Forall admissible keys <-> __init__ keys = Ok (mkPath keys)) /\
  (forall keys,
     __init__ keys = Ok (mkPath keys) \/
     __init__ keys
     = Raise (ValueError (Some ("invalid part(s) " ++ py_repr (VTuple keys))))) /\
  __init__ [VTuple []] = Ok (mkPath [VTuple []]) /\
  __init__ [VList [VInt 1; VInt 2]]
  = Raise (ValueError (Some "invalid part(s) ([1, 2],)")) /\
  (forall before p after,
     init_objects depth h (before ++ OPath p :: after)%list
     = Raise RecursionError) /\
  init_objects depth h [OPath (mkPath [])] = Raise RecursionError.
Proof.
  split; [intros keys; apply init_objects_values|].
  split; [|split].
  - intros keys. pose proof (is_valid_parts_admissible keys) as Hv.
    unfold __init__.
    destruct (_is_valid_part (VTuple keys)) eqn:E; cbn [negb].
    + split; [reflexivity | intros _; apply Hv; reflexivity].
    + split; [intros H; apply Hv in H; discriminate | discriminate].
  - intros keys. unfold __init__.
    destruct (_is_valid_part (VTuple keys)); cbn [negb];
      [left | right]; reflexivity.
  - split; [reflexivity|]. split; [reflexivity|]. split.
    + intros before p after. apply init_objects_path.
    + apply (init_objects_path depth h [] (mkPath []) []).
Qed.

(** ** Equality *)

Lemma seq_eq_Forall2 {A : Type} (eq : A -> A -> bool) (xs ys : list A) :
  seq_eq eq xs ys = true <-> Forall2 (fun a b => eq a b = true) xs ys.
Proof.
  revert ys. induction xs as [|x xs IH]; intros [|y ys]; simpl; split; intros H;
    try discriminate; try constructor; try solve [inversion H].
  - apply andb_true_iff in H. tauto.
  - apply andb_true_iff in H. apply IH. tauto.
  - inversion H; subst. apply andb_true_iff. split; auto. apply IH; auto.
Qed.

(** Between two sides that share no object the comparison is the
    comparison by value. *)
Lemma seq_eq_at_unshared {A : Type} (eq : identity -> A -> A -> bool)
    (eq0 : A -> A -> bool) (xs : list A) :
  Forall (fun x => forall s y, (forall pos, s pos = false) -> eq s x y = eq0 x y) xs ->
  forall same i ys, (forall pos, same pos = false) ->
  seq_eq_at eq same i xs ys = seq_eq eq0 xs ys.
Proof.
  induction 1 as [|x xs Hx _ IH]; intros same i [|y ys] Hs; try reflexivity.
  cbn [seq_eq_at seq_eq]. rewrite Hs. cbn [orb].
  rewrite Hx by (intros pos; apply Hs). rewrite IH by assumption. reflexivity.
Qed.

Lemma py_eq_at_unshared (a : value) :
  forall same b, (forall pos, same pos = false) -> py_eq_at same a b = py_eq a b.
Proof.
  induction a as [z|t|f|re im|s| |a1 a2 a3 H1 H2 H3|items IH|items IH] using value_ind;
    intros same other Hs;
    destruct other as [z'|t'|f'|re' im'|s'| |b1 b2 b3|items'|items'];
    cbn [py_eq_at py_eq numeric]; try reflexivity;
    try (apply seq_eq_at_unshared; assumption).
  rewrite !Hs. cbn [orb].
  rewrite H1, H2, H3 by (intros pos; apply Hs). reflexivity.
Qed.

Lemma eq_unshared (p q : Path) :
  __eq__ distinct p (OPath q) = seq_eq py_eq (parts p) (parts q).
Proof.
  cbn [__eq__]. apply seq_eq_at_unshared; [|reflexivity].
  apply Forall_forall. intros a _ s y Hs. apply py_eq_at_unshared. assumption.
Qed.

(** Objects that are equal by value are equal whatever they share. *)
Lemma seq_eq_at_mono {A : Type} (eq : identity -> A -> A -> bool)
    (eq0 : A -> A -> bool) (xs : list A) :
  Forall (fun x => forall s y, eq0 x y = true -> eq s x y = true) xs ->
  forall same i ys, seq_eq eq0 xs ys = true -> seq_eq_at eq same i xs ys = true.
Proof.
  induction 1 as [|x xs Hx _ IH]; intros same i [|y ys] H; try discriminate;
    [reflexivity|].
  cbn [seq_eq] in H. apply andb_true_iff in H. destruct H as [H1 H2].
  cbn [seq_eq_at]. rewrite (Hx _ _ H1), (IH _ _ _ H2).
  rewrite orb_true_r. reflexivity.
Qed.

Lemma py_eq_at_mono (a : value) :
  forall same b, py_eq a b = true -> py_eq_at same a b = true.
Proof.
  induction a as [z|t|f|re im|s| |a1 a2 a3 H1 H2 H3|items IH|items IH] using value_ind;
    intros same other H;
    destruct other as [z'|t'|f'|re' im'|s'| |b1 b2 b3|items'|items'];
    cbn [py_eq_at py_eq numeric] in *; try assumption; try discriminate;
    try (apply (seq_eq_at_mono py_eq_at py_eq); assumption).
  apply andb_true_iff in H. destruct H as [H H'].
  apply andb_true_iff in H. destruct H as [H H''].
  rewrite (H1 _ _ H), (H2 _ _ H''), (H3 _ _ H'). rewrite !orb_true_r. reflexivity.
Qed.

Lemma eq_mono (same : identity) (p : Path) (o : object) :
  __eq__ distinct p o = true -> __eq__ same p o = true.
Proof.
  destruct o as [q|v]; [|discriminate]. rewrite eq_unshared. cbn [__eq__].
  apply seq_eq_at_mono. apply Forall_forall. intros a _ s y.
  apply py_eq_at_mono.
Qed.

(** The comparison position by position. *)
Lemma seq_eq_at_nth {A : Type} (eq : identity -> A -> A -> bool)
    (same : identity) (xs : list A) :
  forall (i : nat) (ys : list A),
  seq_eq_at eq same i xs ys = true
  <-> List.length xs = List.length ys /\
      forall (k : nat) (a b : A),
        nth_error xs k = Some a -> nth_error ys k = Some b ->
        same [(i + k)%nat] = true \/ eq (below same (i + k)) a b = true.
Proof.
  induction xs as [|x xs IH]; intros i [|y ys]; cbn [seq_eq_at List.length].
  - split; [|reflexivity]. intros _. split; [reflexivity|].
    intros [|k] a b H; discriminate.
  - split; [discriminate|]. intros [H _]. discriminate.
  - split; [discriminate|]. intros [H _]. discriminate.
  - rewrite andb_true_iff, orb_true_iff, IH. split.
    + intros [Hh [Hl Ht]]. split; [now rewrite Hl|].
      intros [|k] a b Ha Hb; cbn [nth_error] in Ha, Hb.
      * injection Ha as <-. injection Hb as <-. rewrite Nat.add_0_r. exact Hh.
      * rewrite Nat.add_succ_r. apply (Ht k a b Ha Hb).
    + intros [Hl Ht]. split; [|split].
      * specialize (Ht 0%nat x y eq_refl eq_refl). rewrite Nat.add_0_r in Ht.
        exact Ht.
      * now injection Hl.
      * intros k a b Ha Hb. specialize (Ht (S k) a b Ha Hb).
        rewrite Nat.add_succ_r in Ht. exact Ht.
Qed.

(** A value without a NaN is equal to itself by value. *)
Lemma SFeqb_refl (f : spec_float) : is_nan f = false -> SFeqb f f = true.
Proof.
  unfold SFeqb, SFcompare. destruct f as [s|s| |s m e]; intros H;
    try discriminate; try (destruct s; reflexivity).
  destruct s; rewrite Z.compare_refl, ?Pos.compare_cont_refl; reflexivity.
Qed.

Lemma seq_eq_refl {A : Type} (eq : A -> A -> bool) (P : A -> bool) (xs : list A) :
  Forall (fun x => P x = true -> eq x x = true) xs ->
  forallb P xs = true -> seq_eq eq xs xs = true.
Proof.
  induction 1 as [|x xs Hx _ IH]; intros H; [reflexivity|].
  cbn [forallb] in H. apply andb_true_iff in H. destruct H as [H1 H2].
  cbn [seq_eq]. rewrite (Hx H1), (IH H2). reflexivity.
Qed.

Lemma py_eq_refl (a : value) : nan_free a = true -> py_eq a a = true.
Proof.
  induction a as [z|t|f|re im|s| |a1 a2 a3 H1 H2 H3|items IH|items IH] using value_ind;
    cbn [nan_free py_eq numeric num_eq]; intros H.
  - apply Z.eqb_refl.
  - apply Z.eqb_refl.
  - apply SFeqb_refl. now apply negb_true_iff.
  - apply andb_true_iff in H. destruct H as [Hr Hi].
    rewrite !SFeqb_refl by now apply negb_true_iff. reflexivity.
  - apply String.eqb_refl.
  - reflexivity.
  - apply andb_true_iff in H. destruct H as [H H'].
    apply andb_true_iff in H. destruct H as [H H''].
    rewrite (H1 H), (H2 H''), (H3 H'). reflexivity.
  - apply (seq_eq_refl py_eq nan_free); assumption.
  - apply (seq_eq_refl py_eq nan_free); assumption.
Qed.

(** The comparison does not depend on the side an object is on. *)
Lemma seq_eq_at_sym {A : Type} (eq : identity -> A -> A -> bool) (xs : list A) :
  Forall (fun x => forall s y, eq s x y = eq s y x) xs ->
  forall same i ys, seq_eq_at eq same i xs ys = seq_eq_at eq same i ys xs.
Proof.
  induction 1 as [|x xs Hx _ IH]; intros same i [|y ys]; try reflexivity.
  cbn [seq_eq_at]. rewrite Hx, IH. reflexivity.
Qed.

Lemma seq_eq_at_length {A : Type} (eq : identity -> A -> A -> bool) (xs : list A) :
  forall same i ys,
  seq_eq_at eq same i xs ys = true -> List.length xs = List.length ys.
Proof.
  intros same i ys H. apply seq_eq_at_nth in H. tauto.
Qed.

(** C3, refuted as stated: a NaN is not equal to itself by value, and the
    Path of a NaN key is equal to itself, and to every Path that holds the
    same NaN object; it is not equal to the Path of another NaN. *)
Lemma nan_key_equal_without_equal_keys :
  let nan := VFloat S754_nan in
  __init__ [nan] = Ok (mkPath [nan]) /\
  py_eq nan nan = false /\
  __eq__ itself (mkPath [nan]) (OPath (mkPath [nan])) = true /\
  __eq__ distinct (mkPath [nan]) (OPath (mkPath [nan])) = false.
Proof. cbv zeta. repeat split. Qed.

(** C3, as amended. Comparing a Path with anything that is not a Path gives
    false (the comparison is a total function: it never raises).  Comparing
    two Paths gives true exactly when their key sequences have the same
    length and, position by position, the two keys are one object or are
    equal by the host's [==]; between Paths that share no object this is
    equality by value of the keys, position by position, and Paths that are
    equal by value are equal whatever they share.  A Path is equal to
    itself, and a Path without a NaN is equal to every copy of itself.  The
    texts [[0x10]] and [[16]] parse to equal Paths. *)
Theorem eq_is_keywise_or_same_object (same : identity) (p : Path) :
  (forall v, __eq__ same p (OValue v) = false) /\
  (forall q,
      __eq__ same p (OPath q) = true
      <-> __len__ p = __len__ q /\
          forall i a b,
            nth_error (parts p) i = Some a -> nth_error (parts q) i = Some b ->
            same [i] = true \/ py_eq_at (below same i) a b = true) /\
  (forall q,
      __eq__ distinct p (OPath q) = true
      <-> Forall2 (fun a b => py_eq a b = true) (parts p) (parts q)) /\
  (forall q, __eq__ distinct p (OPath q) = true -> __eq__ same p (OPath q) = true) /\
  __eq__ itself p (OPath p) = true /\
  (forallb nan_free (parts p) = true -> __eq__ distinct p (OPath p) = true) /\
  (exists a b,
      from_str "[0x10]" = Ok a /\ from_str "[16]" = Ok b /\
      __eq__ same a (OPath b) = true).
Proof.
  split; [reflexivity|]. split; [|split; [|split; [|split; [|split]]]].
  - intros q. cbn [__eq__]. unfold __len__.
    apply (seq_eq_at_nth py_eq_at same (parts p) 0 (parts q)).
  - intros q. rewrite eq_unshared. apply seq_eq_Forall2.
  - intros q. apply eq_mono.
  - cbn [__eq__]. generalize 0%nat. induction (parts p) as [|k ks IH]; intros i;
      [reflexivity|]. cbn [seq_eq_at]. rewrite IH. reflexivity.
  - intros H. rewrite eq_unshared. apply (seq_eq_refl py_eq nan_free); [|exact H].
    apply Forall_forall. intros a _. apply py_eq_refl.
  - exists (mkPath [VInt 16]), (mkPath [VInt 16]).
    split; [vm_compute; reflexivity|]. split; [vm_compute; reflexivity|].
    apply eq_mono. reflexivity.
Qed.

Lemma eq_is_keywise_or_same_object_witness :
  forallb nan_free (parts (mkPath [VInt 1; VStr "a"])) = true /\
  __eq__ distinct (mkPath [VInt 1; VStr "a"]) (OPath (mkPath [VInt 1; VStr "a"]))
  = true.
Proof.
  split; [reflexivity|].
  apply (eq_is_keywise_or_same_object distinct (mkPath [VInt 1; VStr "a"])).
  reflexivity.
Defined.

(** ** The canonical string on concrete Paths *)

(** C7. The Path of the keys [0], ["x"] and [slice(1, 5, 2)] can be
    constructed, and [repr] of it raises RecursionError instead of
    returning [[0].x[1:5:2]]: that string is what the function behind the
    cache returns, and parsing it gives a Path equal to the Path of the
    three keys. *)
Theorem repr_of_int_name_slice_raises :
  let keys := [VInt 0; VStr "x"; VSlice (VInt 1) (VInt 5) (VInt 2)] in
  __init__ keys = Ok (mkPath keys) /\
  (forall depth h, __repr__ depth h (mkPath keys) = Raise RecursionError) /\
  __repr__wrapped (mkPath keys) = "[0].x[1:5:2]" /\
  (exists q, from_str "[0].x[1:5:2]" = Ok q
             /\ forall same, __eq__ same q (OPath (mkPath keys)) = true).
Proof.
  cbv zeta. split; [reflexivity|].
  split; [intros depth h; apply repr_recursion|]. split; [reflexivity|].
  exists (mkPath [VInt 0; VStr "x"; VSlice (VInt 1) (VInt 5) (VInt 2)]).
  split; [vm_compute; reflexivity|]. intros same. apply eq_mono. reflexivity.
Qed.

(** C9. The Path of the key [True] and the Path of the key [1] are equal,
    and so are those of [False] and [0]; [hash] and [repr] of each of the
    four raise RecursionError, so that no hashes and no canonical strings
    are there to compare.  The functions behind the cache give the two
    Paths of a pair the same hash and different strings. *)
Theorem bool_keys_alias_int_keys_without_hash (depth : nat) (h : host) :
  (forall same, __eq__ same (mkPath [VBool true]) (OPath (mkPath [VInt 1])) = true) /\
  (forall same, __eq__ same (mkPath [VBool false]) (OPath (mkPath [VInt 0])) = true) /\
  (forall k, __hash__ depth h (mkPath [k]) = Raise RecursionError) /\
  (forall k, __repr__ depth h (mkPath [k]) = Raise RecursionError) /\
  (exists n, __hash__wrapped h (mkPath [VBool true]) = Ok n
             /\ __hash__wrapped h (mkPath [VInt 1]) = Ok n) /\
  (exists n, __hash__wrapped h (mkPath [VBool false]) = Ok n
             /\ __hash__wrapped h (mkPath [VInt 0]) = Ok n) /\
  __repr__wrapped (mkPath [VBool true]) = "[True]" /\
  __repr__wrapped (mkPath [VInt 1]) = "[1]" /\
  __repr__wrapped (mkPath [VBool false]) = "[False]" /\
  __repr__wrapped (mkPath [VInt 0]) = "[0]".
Proof.
  split; [intros same; apply eq_mono; reflexivity|].
  split; [intros same; apply eq_mono; reflexivity|].
  split; [intros k; apply hash_recursion|].
  split; [intros k; apply repr_recursion|].
  repeat split; try reflexivity.
  - exists (tuple_hash [hash_int 1]). split; reflexivity.
  - exists (tuple_hash [hash_int 0]). split; reflexivity.
Qed.

(** C10. The empty Path can be constructed and has length 0; [repr] of it
    raises RecursionError instead of returning the empty string, which is
    what the function behind the cache returns, so that parsing its
    canonical string raises RecursionError before anything is parsed. *)
Theorem empty_path_has_no_repr (depth : nat) (h : host) :
  __init__ [] = Ok (mkPath []) /\
  init_objects depth h [] = Ok (mkPath []) /\
  __len__ (mkPath []) = 0%nat /\
  __repr__ depth h (mkPath []) = Raise RecursionError /\
  (text <- __repr__ depth h (mkPath []) ;; from_str text) = Raise RecursionError /\
  __repr__wrapped (mkPath []) = "".
Proof.
  repeat split; try apply repr_recursion.
  rewrite repr_recursion. reflexivity.
Qed.

(** ** String keys *)

(** C6. The string callback strips the quotes and leaves the escapes as they
    are written: the text [['a\\b']], which is what [format_part] and the
    function behind the cached [__repr__] write for the three-character key
    [a\b], parses to the four-character key [a\\b], not to the key with the
    escape resolved. *)
Theorem string_callback_keeps_escapes :
  __repr__wrapped (mkPath [VStr "a\b"]) = "['a\\b']" /\
  format_part (VStr "a\b") = "['a\\b']" /\
  from_str "['a\\b']" = Ok (mkPath [VStr "a\\b"]) /\
  resolve_escapes "a\\b" = "a\b" /\
  py_eq (VStr "a\\b") (VStr "a\b") = false.
Proof. repeat split; vm_compute; reflexivity. Qed.

(** ** Hashing *)

(** *** Equal values hash alike *)

Lemma pow2_61_mod (q : Z) : 0 <= q -> (2 ^ 61) ^ q mod hash_modulus = 1.
Proof.
  intros Hq. rewrite Zpow_facts.Zpower_mod by (vm_compute; reflexivity).
  change (2 ^ 61 mod hash_modulus) with 1. rewrite Z.pow_1_l by assumption.
  reflexivity.
Qed.

Lemma mul_pow2_61_mod (a q : Z) :
  0 <= q -> (a * 2 ^ (61 * q)) mod hash_modulus = a mod hash_modulus.
Proof.
  intros Hq. rewrite Z.pow_mul_r by lia.
  rewrite Z.mul_mod by (vm_compute; discriminate).
  rewrite pow2_61_mod by assumption. rewrite Z.mul_1_r.
  apply Z.mod_mod. vm_compute. discriminate.
Qed.

(** The residue the float hash computes is that of the value, when the value
    is the integer [a]: [a = m * 2^e] or [a * 2^(-e) = m]. *)
Lemma float_residue_up (m e : Z) :
  0 <= e ->
  (m mod hash_modulus) * 2 ^ (e mod 61) mod hash_modulus
  = (m * 2 ^ e) mod hash_modulus.
Proof.
  intros He.
  pose proof (Z.mod_pos_bound e 61 ltac:(lia)) as Hr.
  pose proof (Z.div_mod e 61 ltac:(lia)) as Hd.
  assert (Hq : 0 <= e / 61) by (apply Z.div_pos; lia).
  rewrite Hd at 2. rewrite Z.pow_add_r by lia.
  rewrite (Z.mul_comm (2 ^ (61 * (e / 61)))), Z.mul_assoc.
  rewrite mul_pow2_61_mod by assumption.
  rewrite (Z.mul_mod m) by (vm_compute; discriminate).
  rewrite (Z.mul_mod (m mod hash_modulus)) by (vm_compute; discriminate).
  rewrite Z.mod_mod by (vm_compute; discriminate). reflexivity.
Qed.

Lemma float_residue_down (a m e : Z) :
  e < 0 -> a * 2 ^ (- e) = m ->
  (m mod hash_modulus) * 2 ^ (e mod 61) mod hash_modulus = a mod hash_modulus.
Proof.
  intros He Hm.
  pose proof (Z.mod_pos_bound e 61 ltac:(lia)) as Hr.
  pose proof (Z.div_mod e 61 ltac:(lia)) as Hd.
  assert (Hq : e / 61 < 0) by (apply Z.div_lt_upper_bound; lia).
  rewrite <- Z.mul_mod_idemp_l by (vm_compute; discriminate).
  rewrite Z.mod_mod by (vm_compute; discriminate).
  rewrite Z.mul_mod_idemp_l by (vm_compute; discriminate).
  rewrite <- Hm, <- Z.mul_assoc, <- Z.pow_add_r by lia.
  replace (- e + e mod 61) with (61 * (- (e / 61))) by lia.
  apply mul_pow2_61_mod. lia.
Qed.

Lemma hash_int_float (z : Z) (f : spec_float) :
  int_eq_float z f = true -> hash_int z = hash_float f.
Proof.
  destruct f as [s| s | |s m e]; cbn [int_eq_float]; try discriminate.
  - intros H. apply Z.eqb_eq in H. subst. reflexivity.
  - unfold hash_int, hash_float. destruct (0 <=? e) eqn:He.
    + apply Z.leb_le in He. intros H. apply Z.eqb_eq in H.
      rewrite (float_residue_up (Zpos m) e He).
      assert (Hp : 0 < Zpos m * 2 ^ e) by (apply Z.mul_pos_pos; [lia | apply Z.pow_pos_nonneg; lia]).
      destruct s; subst z.
      * replace (Z.neg m * 2 ^ e) with (- (Zpos m * 2 ^ e)) by lia.
        rewrite Z.sgn_neg, Z.abs_opp, Z.abs_eq by lia. f_equal; lia.
      * rewrite Z.sgn_pos, Z.abs_eq by lia. f_equal; lia.
    + apply Z.leb_gt in He. intros H. apply Z.eqb_eq in H.
      assert (H2 : 0 < 2 ^ (- e)) by (apply Z.pow_pos_nonneg; lia).
      destruct s.
      * assert (Hz : z < 0) by nia.
        rewrite (float_residue_down (- z) (Zpos m) e He) by lia.
        rewrite Z.sgn_neg, Z.abs_neq by lia. f_equal; lia.
      * assert (Hz : 0 < z) by nia.
        rewrite (float_residue_down z (Zpos m) e He) by lia.
        rewrite Z.sgn_pos, Z.abs_eq by lia. f_equal; lia.
Qed.

Lemma compare_cont_eq (a b : positive) : Pos.compare_cont Eq a b = Eq -> a = b.
Proof. apply Pos.compare_eq. Qed.

Lemma SFeqb_hash (f g : spec_float) :
  SFeqb f g = true -> hash_float f = hash_float g.
Proof.
  unfold SFeqb, SFcompare.
  destruct f as [s1|s1| |s1 m1 e1], g as [s2|s2| |s2 m2 e2];
    try discriminate; try reflexivity;
    try (destruct s1; discriminate); try (destruct s2; discriminate).
  - destruct s1, s2; try discriminate; reflexivity.
  - destruct s1, s2; try discriminate;
      destruct (Z.compare_spec e1 e2); try discriminate; subst;
      destruct (Pos.compare_cont Eq m1 m2) eqn:E; try discriminate;
      apply compare_cont_eq in E; subst; reflexivity.
Qed.

Lemma fix_hash_idem (x : Z) : fix_hash (fix_hash x) = fix_hash x.
Proof. unfold fix_hash. destruct (x =? -1) eqn:E; [reflexivity|]. rewrite E. reflexivity. Qed.

Lemma fix_hash_bound (x : Z) : Z.abs x < 2 ^ 62 -> Z.abs (fix_hash x) < 2 ^ 63.
Proof. unfold fix_hash. destruct (x =? -1); lia. Qed.

Lemma hash_float_fixed (f : spec_float) :
  fix_hash (hash_float f) = hash_float f /\ Z.abs (hash_float f) < 2 ^ 63.
Proof.
  destruct f as [s|s| |s m e]; cbn [hash_float].
  - split; [reflexivity|lia].
  - destruct s; split; try reflexivity; lia.
  - split; [reflexivity|lia].
  - split; [apply fix_hash_idem|]. apply fix_hash_bound.
    pose proof (Z.mod_pos_bound (Zpos m mod hash_modulus * 2 ^ (e mod 61))
                  hash_modulus ltac:(vm_compute; reflexivity)) as Hb.
    unfold hash_modulus in *. destruct s; lia.
Qed.

Lemma to_signed_small (x : Z) : Z.abs x < 2 ^ 63 -> to_signed x = x.
Proof.
  intros H. unfold to_signed.
  destruct (Z_lt_le_dec x 0) as [Hn|Hp].
  - replace (x mod 2 ^ 64) with (x + 2 ^ 64).
    + destruct (x + 2 ^ 64 <? 2 ^ 63) eqn:E; [apply Z.ltb_lt in E; lia | lia].
    + apply (Z.mod_unique _ _ (-1)); lia.
  - rewrite Z.mod_small by lia.
    destruct (x <? 2 ^ 63) eqn:E; [reflexivity | apply Z.ltb_ge in E; lia].
Qed.

Lemma hash_complex_real (re im : spec_float) :
  float_is_zero im = true -> hash_complex re im = hash_float re.
Proof.
  intros H. destruct im; try discriminate. unfold hash_complex. cbn [hash_float].
  rewrite Z.mul_0_r, Z.add_0_r.
  destruct (hash_float_fixed re) as [Hf Hb].
  rewrite to_signed_small by assumption. exact Hf.
Qed.

Lemma hash_num_eq (x y : num) : num_eq x y = true -> hash_num x = hash_num y.
Proof.
  destruct x as [a|f|r i], y as [b|g|r' i']; cbn [num_eq hash_num]; intros H.
  - apply Z.eqb_eq in H. subst. reflexivity.
  - apply hash_int_float. assumption.
  - apply andb_true_iff in H. destruct H as [Hi Hr].
    rewrite hash_complex_real by assumption. apply hash_int_float. assumption.
  - symmetry. apply hash_int_float. assumption.
  - apply SFeqb_hash. assumption.
  - apply andb_true_iff in H. destruct H as [Hi Hr].
    rewrite hash_complex_real by assumption. symmetry. apply SFeqb_hash. assumption.
  - apply andb_true_iff in H. destruct H as [Hi Hr].
    rewrite hash_complex_real by assumption. symmetry. apply hash_int_float. assumption.
  - apply andb_true_iff in H. destruct H as [Hi Hr].
    rewrite hash_complex_real by assumption. apply SFeqb_hash. assumption.
  - apply andb_true_iff in H. destruct H as [Hr Hi].
    unfold hash_complex. rewrite (SFeqb_hash _ _ Hr), (SFeqb_hash _ _ Hi). reflexivity.
Qed.

Lemma py_hash_numeric h v n : numeric v = Some n -> py_hash h v = Ok (hash_num n).
Proof. destruct v; intros H; inversion H; subst; reflexivity. Qed.

Lemma py_eq_numeric a b x :
  numeric a = Some x ->
  py_eq a b = match numeric b with Some y => num_eq x y | None => false end.
Proof.
  intros H. destruct a; try discriminate; inversion H; subst; destruct b; reflexivity.
Qed.

Lemma seq_eq_map {A B} (eq : A -> A -> bool) (f : A -> B) (xs : list A) :
  Forall (fun a => forall b, eq a b = true -> f a = f b) xs ->
  forall ys, seq_eq eq xs ys = true -> map f xs = map f ys.
Proof.
  induction 1 as [|x xs Hx Hxs IH]; intros [|y ys] H; simpl in H;
    try discriminate; [reflexivity|].
  apply andb_true_iff in H. destruct H as [H1 H2].
  cbn [map]. rewrite (Hx y H1), (IH ys H2). reflexivity.
Qed.

(** Values that compare equal have the same hash, or are unhashable in the
    same way. *)
Lemma py_hash_eq (h : host) (a : value) :
  forall b, py_eq a b = true -> py_hash h a = py_hash h b.
Proof.
  assert (Hnum : forall a b x, numeric a = Some x -> py_eq a b = true ->
                               py_hash h a = py_hash h b).
  { intros a' b x Hx H. rewrite (py_eq_numeric a' b x Hx) in H.
    destruct (numeric b) as [y|] eqn:Hy; [|discriminate].
    rewrite (py_hash_numeric h a' x Hx), (py_hash_numeric h b y Hy).
    rewrite (hash_num_eq x y H). reflexivity. }
  induction a using value_ind; intros other Heq.
  - eapply Hnum; [reflexivity | exact Heq].
  - eapply Hnum; [reflexivity | exact Heq].
  - eapply Hnum; [reflexivity | exact Heq].
  - eapply Hnum; [reflexivity | exact Heq].
  - destruct other; try discriminate. cbn [py_eq] in Heq.
    apply String.eqb_eq in Heq. subst. reflexivity.
  - destruct other; try discriminate. reflexivity.
  - destruct other; try discriminate. reflexivity.
  - destruct other as [| | | | | | |ys|]; try discriminate. cbn [py_eq] in Heq.
    cbn [py_hash]. rewrite (seq_eq_map py_eq (py_hash h) items H ys Heq). reflexivity.
  - destruct other; try discriminate. reflexivity.
Qed.

Lemma hashable_part_eq (h : host) (a b : value) :
  py_eq a b = true -> hashable_part h a = hashable_part h b.
Proof.
  intros H. destruct a as [| | | | | |a1 a2 a3| |].
  7: { destruct b as [| | | | | |b1 b2 b3| |]; try discriminate. cbn [py_eq] in H.
       apply andb_true_iff in H. destruct H as [H H3].
       apply andb_true_iff in H. destruct H as [H1 H2].
       cbn [hashable_part]. unfold hash_slice_parts.
       rewrite (py_hash_eq h a1 b1 H1), (py_hash_eq h a2 b2 H2),
         (py_hash_eq h a3 b3 H3). reflexivity. }
  all: destruct b; try discriminate; apply (py_hash_eq h _ _ H).
Qed.

Lemma hash_unfold (h : host) (p : Path) :
  __hash__wrapped h p = (lanes <- collect (map (hashable_part h) (parts p)) ;;
                  Ok (tuple_hash lanes)).
Proof. reflexivity. Qed.

(** The function behind the cached [__hash__] gives Paths that are equal by
    value the same hash, or the same TypeError. *)
Lemma hash_respects_eq (h : host) (p q : Path) :
  __eq__ distinct p (OPath q) = true -> __hash__wrapped h p = __hash__wrapped h q.
Proof.
  intros H. rewrite !hash_unfold. rewrite eq_unshared in H.
  rewrite (seq_eq_map py_eq (hashable_part h) (parts p)) with (ys := parts q);
    [reflexivity | | assumption].
  apply Forall_forall. intros a _ b Hab. apply hashable_part_eq. assumption.
Qed.


(** C4. [hash] of a Path raises RecursionError, for every Path, every
    recursion limit and every host: the look-up in the cache of [__hash__]
    hashes the Path, which is a call of the cached [__hash__] again.  So
    for no Path is there an integer to compare or to repeat.  The function
    behind the cache, which [hash] never reaches, replaces a slice that is
    itself a key by the tuple [(slice, start, stop, step)] and hands a slice
    inside a tuple key to the host's [hash] as it is, which raises
    TypeError. *)
Theorem hash_raises_recursion_error (depth : nat) (h : host) :
  let inner := VSlice (VInt 1) (VInt 2) VNone in
  (forall p, __hash__ depth h p = Raise RecursionError) /\
  (forall p z, __hash__ depth h p <> Ok z) /\
  __init__ [VInt 1] = Ok (mkPath [VInt 1]) /\
  __hash__ depth h (mkPath [VInt 1]) = Raise RecursionError /\
  __hash__wrapped h (mkPath [VInt 1]) = Ok (tuple_hash [hash_int 1]) /\
  __hash__wrapped h (mkPath [inner])
  = Ok (tuple_hash [tuple_hash [hash_slice_type h; hash_int 1; hash_int 2;
                                hash_none h]]) /\
  __init__ [VTuple [inner]] = Ok (mkPath [VTuple [inner]]) /\
  __hash__wrapped h (mkPath [VTuple [inner]])
  = Raise (TypeError "unhashable type: 'slice'").
Proof.
  cbv zeta. split; [intros p; apply hash_recursion|].
  split; [intros p z; rewrite hash_recursion; discriminate|].
  split; [reflexivity|]. split; [apply hash_recursion|]. repeat split.
Qed.

(** ** Round trip *)

(** Where the text that the function behind the cached [__repr__] writes
    does not read back: a name with a digit comes back cut after its first
    token, a tuple of two keys is printed with a space the grammar has no
    place for, and a slice with a bound that is not an integer has no
    spelling. *)
Lemma roundtrip_fails_elsewhere :
  from_str (__repr__wrapped (mkPath [VStr "a1"])) = Ok (mkPath [VStr "a"]) /\
  __repr__wrapped (mkPath [VTuple [VInt 1; VInt 2]]) = "[(1, 2)]" /\
  from_str "[(1, 2)]" = Raise ParseError /\
  from_str "[(1,2)]" = Ok (mkPath [VTuple [VInt 1; VInt 2]]) /\
  __repr__wrapped (mkPath [VSlice (VStr "a") VNone VNone]) = "[a:]" /\
  from_str "[a:]" = Raise ParseError.
Proof. repeat split; vm_compute; reflexivity. Qed.

(** X23. A float key that is not finite can be constructed, and the text
    [format_part] writes for it does not parse: the grammar has no spelling
    for [inf], [-inf] and [nan]. *)
Theorem non_finite_float_does_not_read_back :
  __init__ [VFloat (S754_infinity false)]
  = Ok (mkPath [VFloat (S754_infinity false)]) /\
  format_part (VFloat (S754_infinity false)) = "[inf]" /\
  from_str "[inf]" = Raise ParseError /\
  format_part (VFloat (S754_infinity true)) = "[-inf]" /\
  from_str "[-inf]" = Raise ParseError /\
  format_part (VFloat S754_nan) = "[nan]" /\
  from_str "[nan]" = Raise ParseError.
Proof. repeat split; vm_compute; reflexivity. Qed.

(** ** The parser accepts only what the grammar generates *)

Lemma append_assoc (a b c : string) : (a ++ b) ++ c = a ++ (b ++ c).
Proof. induction a; simpl; congruence. Qed.

Lemma append_nil_r (a : string) : a ++ "" = a.
Proof. induction a; simpl; congruence. Qed.

Lemma length_append (a b : string) :
  String.length (a ++ b) = (String.length a + String.length b)%nat.
Proof. induction a; simpl; congruence. Qed.

Lemma in_extend m0 m p t l :
  In (m, p, t) (extend m0 l) <-> exists m', m = m0 ++ m' /\ In (m', p, t) l.
Proof.
  unfold extend. rewrite in_map_iff. split.
  - intros [[[m' p'] t'] [E H]]. inversion E; subst. eauto.
  - intros [m' [-> H]]. exists (m', p, t). auto.
Qed.

Lemma iterate_sound (lazy : bool) (a : regex) step :
  (forall p s m p' t, In (m, p', t) (step p s) -> s = m ++ t /\ matches a p m p') ->
  forall fuel p s m p' t,
    In (m, p', t) (iterate lazy step fuel p s) ->
    s = m ++ t /\ matches (if lazy then LazyStar a else Star a) p m p'.
Proof.
  intros Hstep fuel. induction fuel as [|f IH]; intros p s m p' t H.
  - simpl in H. destruct H as [H|[]]. inversion H; subst. split; [reflexivity|].
    destruct lazy; constructor.
  - simpl in H.
    assert (Hmore : In (m, p', t)
              (flat_map (fun '(m, p, t) =>
                 if shorter t s then extend m (iterate lazy step f p t) else [])
                 (step p s)) ->
            s = m ++ t /\ matches (if lazy then LazyStar a else Star a) p m p').
    { intros Hin. apply in_flat_map in Hin. destruct Hin as [[[m1 p1] t1] [H1 H2]].
      destruct (shorter t1 s); [|contradiction].
      apply in_extend in H2. destruct H2 as [m2 [-> H2]].
      apply Hstep in H1. destruct H1 as [-> H1].
      apply IH in H2. destruct H2 as [-> H2].
      split; [symmetry; apply append_assoc|].
      destruct lazy; econstructor; eassumption. }
    assert (Hnil : (m, p', t) = ("", p, s) ->
            s = m ++ t /\ matches (if lazy then LazyStar a else Star a) p m p').
    { intros E. inversion E; subst. split; [reflexivity|]. destruct lazy; constructor. }
    destruct lazy.
    + destruct H as [H|H]; [apply Hnil; congruence | apply Hmore; assumption].
    + apply in_app_or in H. destruct H as [H|[H|[]]];
        [apply Hmore; assumption | apply Hnil; congruence].
Qed.

Lemma rmatch_sound (r : regex) :
  forall p s m p' t, In (m, p', t) (rmatch r p s) -> s = m ++ t /\ matches r p m p'.
Proof.
  induction r; intros p s m p' t H;
    [simpl in H|simpl in H|simpl in H|simpl in H| | |simpl in H].
  - destruct H as [H|[]]. inversion H; subst. split; [reflexivity|constructor].
  - destruct s as [|c s']; [contradiction|].
    destruct (f c) eqn:E; [|contradiction].
    destruct H as [H|[]]. inversion H; subst. split; [reflexivity|constructor; assumption].
  - apply in_flat_map in H. destruct H as [[[m1 p1] t1] [H1 H2]].
    apply in_extend in H2. destruct H2 as [m2 [-> H2]].
    apply IHr1 in H1. destruct H1 as [-> H1].
    apply IHr2 in H2. destruct H2 as [-> H2].
    split; [symmetry; apply append_assoc | econstructor; eassumption].
  - apply in_app_or in H. destruct H as [H|H].
    + apply IHr1 in H. destruct H; split; [assumption | apply MAltL; assumption].
    + apply IHr2 in H. destruct H; split; [assumption | apply MAltR; assumption].
  - exact (iterate_sound false r (rmatch r) IHr _ _ _ _ _ _ H).
  - exact (iterate_sound true r (rmatch r) IHr _ _ _ _ _ _ H).
  - destruct p as [q|].
    + destruct (char_eqb q c) eqn:E; [contradiction|].
      destruct H as [H|[]]. inversion H; subst. split; [reflexivity|].
      constructor. intros E'. inversion E'; subst.
      unfold char_eqb in E. rewrite Ascii.eqb_refl in E. discriminate.
    + destruct H as [H|[]]. inversion H; subst. split; [reflexivity|].
      constructor. discriminate.
Qed.

Lemma generates_weaken {A} (p : parser A) (L L' : string -> Prop) :
  (forall m, L m -> L' m) -> generates p L -> generates p L'.
Proof.
  intros HL Hp s x t H. destruct (Hp s x t H) as [m [E Hm]]. eauto.
Qed.

Lemma generates_terminal (r : regex) : generates (terminal r) (lang r).
Proof.
  intros s x t H. unfold terminal in H.
  destruct (rmatch r None s) as [|[[m p] t'] l] eqn:E; [contradiction|].
  destruct H as [H|[]]. inversion H; subst.
  assert (Hin : In (x, p, t) (rmatch r None s)) by (rewrite E; left; reflexivity).
  apply rmatch_sound in Hin. destruct Hin as [-> Hm].
  exists x. split; [reflexivity | exists p; assumption].
Qed.

Lemma strip_prefix_spec (l s t : string) : strip_prefix l s = Some t -> s = l ++ t.
Proof.
  revert s. induction l as [|a l IH]; intros s H; simpl in H.
  - inversion H; reflexivity.
  - destruct s as [|b s]; [discriminate|].
    destruct (char_eqb a b) eqn:E; [|discriminate].
    apply Ascii.eqb_eq in E. subst. simpl. f_equal. apply IH. assumption.
Qed.

Lemma generates_literal (l : string) : generates (literal l) (eq l).
Proof.
  intros s x t H. unfold literal in H.
  destruct (strip_prefix l s) as [t'|] eqn:E; [|contradiction].
  destruct H as [H|[]]. inversion H; subst.
  exists x. split; [apply strip_prefix_spec; assumption | reflexivity].
Qed.

Lemma generates_pmap {A B} (f : A -> B) (p : parser A) L :
  generates p L -> generates (pmap f p) L.
Proof.
  intros Hp s x t H. unfold pmap in H. apply in_map_iff in H.
  destruct H as [[a t'] [E H]]. inversion E; subst. eapply Hp; eassumption.
Qed.

Lemma generates_seq {A B C} (f : A -> B -> C) p q L1 L2 :
  generates p L1 -> generates q L2 -> generates (seq f p q) (lang_cat L1 L2).
Proof.
  intros Hp Hq s x t H. unfold seq in H. apply in_flat_map in H.
  destruct H as [[a t1] [H1 H2]]. apply in_map_iff in H2.
  destruct H2 as [[b t2] [E H2]]. inversion E; subst.
  destruct (Hp _ _ _ H1) as [m1 [-> Hm1]].
  destruct (Hq _ _ _ H2) as [m2 [-> Hm2]].
  exists (m1 ++ m2). split; [symmetry; apply append_assoc|].
  exists m1, m2. auto.
Qed.

Lemma generates_alt {A} (p q : parser A) L1 L2 :
  generates p L1 -> generates q L2 -> generates (alt p q) (lang_alt L1 L2).
Proof.
  intros Hp Hq s x t H. unfold alt in H. apply in_app_or in H. destruct H as [H|H].
  - destruct (Hp _ _ _ H) as [m [E Hm]]. exists m. split; [assumption|left; assumption].
  - destruct (Hq _ _ _ H) as [m [E Hm]]. exists m. split; [assumption|right; assumption].
Qed.

Lemma generates_pure {A} (a : A) : generates (pure a) (eq "").
Proof.
  intros s x t H. destruct H as [H|[]]. inversion H; subst.
  exists "". split; reflexivity.
Qed.

Lemma generates_fail {A} L : generates (@fail A) L.
Proof. intros s x t []. Qed.

Lemma generates_maybe {A} (p : parser (list A)) L :
  generates p L -> generates (maybe p) (optional L).
Proof.
  intros Hp. unfold maybe.
  apply (generates_weaken _ (lang_alt L (eq ""))).
  - intros m [H|H]; [right; assumption | left; symmetry; assumption].
  - apply generates_alt; [assumption | apply generates_pure].
Qed.

Lemma generates_many {A} (p : parser A) L (fuel : nat) :
  generates p L -> generates (many fuel p) (lang_star L).
Proof.
  intros Hp. induction fuel as [|f IH]; simpl.
  - apply (generates_weaken _ (eq "")); [|apply generates_pure].
    intros m <-. constructor.
  - apply (generates_weaken _ (lang_alt (lang_cat L (lang_star L)) (eq ""))).
    + intros m [[a [b [-> [Ha Hb]]]]|<-]; constructor; assumption.
    + apply generates_alt; [apply generates_seq; assumption | apply generates_pure].
Qed.

Lemma generates_terminals (rs : list regex) : generates (terminals rs) (one_of rs).
Proof.
  intros s x t H. unfold terminals in H. apply nodup_In in H.
  apply in_flat_map in H. destruct H as [r [Hr H]].
  destruct (generates_terminal r _ _ _ H) as [m [E Hm]].
  exists m. split; [assumption | exists r; auto].
Qed.

Lemma generates_cat p q L1 L2 :
  generates p L1 -> generates q L2 -> generates (cat p q) (lang_cat L1 L2).
Proof. apply generates_seq. Qed.

Lemma generates_skip l : generates (skip l) (eq l).
Proof. apply generates_pmap, generates_literal. Qed.

Lemma generates_number : generates number number_lang.
Proof. apply generates_pmap, generates_terminals. Qed.

Lemma generates_integer : generates integer integer_lang.
Proof. apply generates_pmap, generates_terminals. Qed.

Lemma generates_colon : generates colon (eq ":").
Proof. apply generates_pmap, generates_literal. Qed.

Lemma generates_slice_key : generates slice_key slice_key_lang.
Proof.
  unfold slice_key. apply generates_pmap.
  pose proof (generates_maybe _ _ generates_integer) as Hi.
  pose proof generates_colon as Hc.
  eapply generates_weaken; [|apply generates_alt].
  2: exact (generates_cat _ _ _ _ Hi (generates_cat _ _ _ _ Hc Hi)).
  2: exact (generates_cat _ _ _ _ Hi
              (generates_cat _ _ _ _ Hc
                 (generates_cat _ _ _ _ Hi (generates_cat _ _ _ _ Hc Hi)))).
  intros m [H|H].
  - destruct H as [a [x [-> [Ha [c [b [-> [<- Hb]]]]]]]].
    apply slice_two; assumption.
  - destruct H as [a [x [-> [Ha [c [y [-> [<- [b [z [-> [Hb [c' [d [-> [<- Hd]]]]]]]]]]]]]]]].
    apply slice_three; assumption.
Qed.

Lemma generates_string : generates string_ string_lang.
Proof.
  unfold string_. apply generates_pmap.
  eapply generates_weaken; [|apply generates_alt; apply generates_terminal].
  intros m H. exact H.
Qed.

Lemma generates_none : generates none none_lang.
Proof.
  unfold none. apply generates_pmap.
  eapply generates_weaken; [|apply generates_literal].
  intros m <-. reflexivity.
Qed.

Lemma generates_boolean : generates boolean boolean_lang.
Proof.
  unfold boolean. apply generates_pmap.
  eapply generates_weaken; [|apply generates_alt; apply generates_literal].
  intros m [<-|<-]; [left|right]; reflexivity.
Qed.

Lemma star_id_continues (m : string) :
  lang_star (lang ID_CONTINUE) m -> id_continues m.
Proof. induction 1; constructor; assumption. Qed.

Lemma generates_identifier : generates identifier identifier_lang.
Proof.
  intros s x t H. unfold identifier in H.
  revert H. generalize (String.length s) at 1. intros n H.
  eapply (generates_pmap (Tree r_identifier)) in H.
  - exact H.
  - eapply generates_weaken; [|apply generates_cat].
    2: apply generates_pmap, generates_terminal.
    2: apply generates_pmap, generates_many, generates_terminal.
    intros m [a [r [-> [Ha Hr]]]]. exists a, r.
    split; [reflexivity|]. split; [assumption | apply star_id_continues; assumption].
Qed.

Lemma more_keys_star (K : string -> Prop) (r : string) :
  (forall k, K k -> key_lang k) ->
  lang_star (lang_cat (eq ",") K) r ->
  forall k, key_lang k -> more_keys ("," ++ k ++ r).
Proof.
  intros HK H. induction H as [|a r Ha Hr IH]; intros k Hk.
  - rewrite append_nil_r. apply more_keys_one. assumption.
  - destruct Ha as [c [k' [-> [<- Hk']]]].
    apply more_keys_cons; [assumption|].
    change (("," ++ k') ++ r) with ("," ++ k' ++ r). apply IH. apply HK. assumption.
Qed.

Lemma generates_tuple_key (fuel : nat) (key : parser tree) :
  generates key key_lang -> generates (tuple_key fuel key) key_lang.
Proof.
  intros Hk. unfold tuple_key. apply generates_pmap.
  pose proof (generates_pmap (fun k => [k]) _ _ Hk) as Hk1.
  pose proof (generates_cat _ _ _ _ (generates_skip ",") Hk1) as Hck.
  eapply generates_weaken; [|apply generates_alt; [apply generates_skip|apply generates_alt]].
  2: exact (generates_cat _ _ _ _ (generates_skip "(")
              (generates_cat _ _ _ _ Hk1 (generates_skip ",)"))).
  2: exact (generates_cat _ _ _ _ (generates_skip "(")
              (generates_cat _ _ _ _ Hk1
                 (generates_cat _ _ _ _
                    (generates_cat _ _ _ _ Hck
                       (generates_pmap (@concat tree) _ _
                          (generates_many _ _ fuel Hck)))
                    (generates_cat _ _ _ _
                       (generates_maybe _ _ (generates_skip ","))
                       (generates_skip ")"))))).
  intros m [<-|[H|H]].
  - apply key_tuple_empty.
  - destruct H as [a [x [-> [<- [k [c [-> [Hkk <-]]]]]]]].
    apply key_tuple_single. assumption.
  - destruct H as [a [x [-> [<- [k [y [-> [Hkk H]]]]]]]].
    destruct H as [ks [z [-> [Hks [c [d [-> [Hc <-]]]]]]]].
    destruct Hks as [f [r [-> [[c1 [k1 [-> [<- Hk1']]]] Hr]]]].
    assert (Hmore : more_keys ("," ++ k1 ++ r)).
    { apply (more_keys_star key_lang); auto. }
    change (("," ++ k1) ++ r) with ("," ++ k1 ++ r).
    destruct Hc as [->|<-].
    + apply key_tuple_several; assumption.
    + apply key_tuple_several_comma; assumption.
Qed.

Lemma generates_key (fuel : nat) : generates (key fuel) key_lang.
Proof.
  induction fuel as [|f IH].
  - simpl.
    eapply generates_weaken;
      [|apply generates_alt; [apply generates_number|
        apply generates_alt; [apply generates_slice_key|
        apply generates_alt; [apply generates_boolean|
        apply generates_alt; [apply generates_none|
        apply generates_alt; [apply generates_string|
        apply (generates_fail key_lang)]]]]]].
    intros m [H|[H|[H|[H|[H|H]]]]];
      [apply key_number|apply key_slice|apply key_boolean|apply key_none
      |apply key_string|]; assumption.
  - simpl.
    eapply generates_weaken;
      [|apply generates_alt; [apply generates_number|
        apply generates_alt; [apply generates_slice_key|
        apply generates_alt; [apply generates_boolean|
        apply generates_alt; [apply generates_none|
        apply generates_alt; [apply generates_string|
        apply generates_tuple_key; exact IH]]]]]].
    intros m [H|[H|[H|[H|[H|H]]]]];
      [apply key_number|apply key_slice|apply key_boolean|apply key_none
      |apply key_string|]; assumption.
Qed.

Lemma generates_item (fuel : nat) : generates (item fuel) bracketed.
Proof.
  unfold item. eapply generates_weaken.
  2: exact (generates_cat _ _ _ _ (generates_skip "[")
              (generates_cat _ _ _ _
                 (generates_pmap (fun t => [t]) _ _ (generates_key fuel))
                 (generates_skip "]"))).
  intros m [a [x [-> [<- [k [c [-> [Hk <-]]]]]]]]. exists k. auto.
Qed.

Lemma generates_segment (fuel : nat) :
  generates (segment fuel) (lang_alt dotted bracketed).
Proof.
  unfold segment. apply generates_alt; [|apply generates_item].
  eapply generates_weaken.
  2: exact (generates_cat _ _ _ _ (generates_skip ".")
              (generates_pmap (fun t => [t]) _ _ generates_identifier)).
  intros m [a [i [-> [<- Hi]]]]. exists i. auto.
Qed.

Lemma generates_segment_first (fuel : nat) :
  generates (segment_first fuel) (lang_alt identifier_lang bracketed).
Proof.
  unfold segment_first. apply generates_alt; [|apply generates_item].
  apply generates_pmap, generates_identifier.
Qed.

Lemma star_segments (m : string) :
  lang_star (lang_alt dotted bracketed) m -> segments_lang m.
Proof.
  induction 1 as [|a r Ha Hr IH]; [constructor|].
  destruct Ha as [[i [-> Hi]]|[k [-> Hk]]].
  - change (("." ++ i) ++ r) with ("." ++ i ++ r). apply segments_dot; assumption.
  - change (("[" ++ k ++ "]") ++ r) with ("[" ++ (k ++ "]") ++ r).
    rewrite append_assoc. apply segments_key; assumption.
Qed.

Lemma generates_path (fuel : nat) : generates (path fuel) path_lang.
Proof.
  unfold path. apply generates_pmap.
  eapply generates_weaken.
  2: exact (generates_maybe _ _
              (generates_cat _ _ _ _ (generates_segment_first fuel)
                 (generates_pmap (@concat tree) _ _
                    (generates_many _ _ fuel (generates_segment fuel))))).
  intros m [->|[a [r [-> [Ha Hr]]]]]; [constructor|].
  apply star_segments in Hr.
  destruct Ha as [Hi|[k [-> Hk]]].
  - apply path_identifier; assumption.
  - change (("[" ++ k ++ "]") ++ r) with ("[" ++ (k ++ "]") ++ r).
    rewrite append_assoc. apply path_key; assumption.
Qed.

Lemma parse_sound (text : string) (t : path_tree) :
  parse text = Ok t -> path_lang text.
Proof.
  unfold parse. intros H.
  destruct (complete (path (String.length text) text))
    as [|[t0 r] l] eqn:E; [discriminate|].
  assert (Hin : In (t0, r) (complete (path (String.length text) text)))
    by (rewrite E; left; reflexivity).
  apply filter_In in Hin. destruct Hin as [Hin Hr].
  destruct (generates_path _ _ _ _ Hin) as [m [Em Hm]].
  destruct r; [|discriminate]. rewrite append_nil_r in Em. subst. assumption.
Qed.

(** C5. A text that [from_str] does not turn down with a parse error is
    generated by the grammar; [a..b] and [a[1:2:3:4]] are turned down with a
    parse error. *)
Theorem from_str_rejects_outside_grammar :
  (forall text, from_str text <> Raise ParseError -> path_lang text) /\
  from_str "a..b" = Raise ParseError /\
  from_str "a[1:2:3:4]" = Raise ParseError.
Proof.
  split; [|split; vm_compute; reflexivity].
  intros text H. unfold from_str in H.
  destruct (parse text) as [t|e] eqn:E.
  - eapply parse_sound; eassumption.
  - exfalso. apply H. unfold parse in E.
    destruct (complete _) as [|[? ?] ?]; [|discriminate].
    inversion E. reflexivity.
Qed.

Lemma from_str_rejects_outside_grammar_witness : path_lang "a.b[0]".
Proof.
  apply (proj1 from_str_rejects_outside_grammar "a.b[0]").
  vm_compute. discriminate.
Defined.

(** ** Matching the canonical text of a key *)

Lemma append_eq_nil (a b : string) : a ++ b = "" -> a = "" /\ b = "".
Proof. destruct a; simpl; intros H; [auto | discriminate]. Qed.

Lemma matches_first r p m p' :
  matches r p m p' ->
  (m = "" /\ nullable r = true /\ p' = p)
  \/ (exists c m', m = String c m' /\ first r c = true).
Proof.
  induction 1; simpl.
  - left; auto.
  - right; eauto.
  - destruct IHmatches1 as [[-> [Na ->]]|[c [m' [-> Fa]]]].
    + destruct IHmatches2 as [[-> [Nb ->]]|[c [m' [-> Fb]]]].
      * left. rewrite Na, Nb. auto.
      * right. exists c, m'. rewrite Na, Fb. split; [reflexivity|].
        apply orb_true_r.
    + right. exists c, (m' ++ m2). rewrite Fa. auto.
  - destruct IHmatches as [[-> [N ->]]|[c [m' [-> F]]]].
    + left. rewrite N. auto.
    + right. exists c, m'. rewrite F. auto.
  - destruct IHmatches as [[-> [N ->]]|[c [m' [-> F]]]].
    + left. rewrite N. split; [reflexivity|]. split; [apply orb_true_r|reflexivity].
    + right. exists c, m'. rewrite F. split; [reflexivity|apply orb_true_r].
  - left; auto.
  - destruct IHmatches1 as [[-> [Na ->]]|[c [m' [-> Fa]]]].
    + exact IHmatches2.
    + right. exists c, (m' ++ m2). auto.
  - left; auto.
  - destruct IHmatches1 as [[-> [Na ->]]|[c [m' [-> Fa]]]].
    + exact IHmatches2.
    + right. exists c, (m' ++ m2). auto.
  - left; auto.
Qed.

(** A terminal that cannot begin with [c] and cannot be empty does not match
    at [c]. *)
Lemma rmatch_first r p c s :
  nullable r = false -> first r c = false -> rmatch r p (String c s) = [].
Proof.
  intros N F. destruct (rmatch r p (String c s)) as [|[[m p'] t] l] eqn:E; [reflexivity|].
  exfalso.
  assert (Hin : In (m, p', t) (rmatch r p (String c s))) by (rewrite E; left; reflexivity).
  apply rmatch_sound in Hin. destruct Hin as [Es Hm].
  apply matches_first in Hm. destruct Hm as [[_ [N' _]]|[c' [m' [-> F']]]].
  - congruence.
  - simpl in Es. inversion Es; subst. congruence.
Qed.

Lemma rmatch_empty r p : nullable r = false -> rmatch r p "" = [].
Proof.
  intros N. destruct (rmatch r p "") as [|[[m p'] t] l] eqn:E; [reflexivity|].
  exfalso.
  assert (Hin : In (m, p', t) (rmatch r p "")) by (rewrite E; left; reflexivity).
  apply rmatch_sound in Hin. destruct Hin as [Es Hm].
  symmetry in Es. apply append_eq_nil in Es. destruct Es as [-> ->].
  apply matches_first in Hm. destruct Hm as [[_ [N' _]]|[c' [m' [Em _]]]];
    [congruence|discriminate].
Qed.

Lemma string_forallb_app f a b :
  string_forallb f (a ++ b) = (string_forallb f a && string_forallb f b)%bool.
Proof. induction a; simpl; [reflexivity|]. rewrite IHa. apply andb_assoc. Qed.

Lemma string_existsb_app f a b :
  string_existsb f (a ++ b) = (string_existsb f a || string_existsb f b)%bool.
Proof. induction a; simpl; [reflexivity|]. rewrite IHa. apply orb_assoc. Qed.

Lemma string_forallb_impl (f g : ascii -> bool) s :
  (forall c, f c = true -> g c = true) ->
  string_forallb f s = true -> string_forallb g s = true.
Proof.
  intros Hfg. induction s; simpl; [reflexivity|].
  intros H. apply andb_true_iff in H. destruct H as [H1 H2].
  rewrite (Hfg _ H1), (IHs H2). reflexivity.
Qed.

Lemma matches_alphabet r p m p' :
  matches r p m p' -> string_forallb (alphabet r) m = true.
Proof.
  induction 1; simpl; try reflexivity.
  - rewrite H. reflexivity.
  - rewrite string_forallb_app. apply andb_true_iff. split.
    + eapply string_forallb_impl; [|exact IHmatches1].
      intros c Hc. simpl. rewrite Hc. reflexivity.
    + eapply string_forallb_impl; [|exact IHmatches2].
      intros c Hc. simpl. rewrite Hc. apply orb_true_r.
  - eapply string_forallb_impl; [|exact IHmatches].
    intros c Hc. simpl. rewrite Hc. reflexivity.
  - eapply string_forallb_impl; [|exact IHmatches].
    intros c Hc. simpl. rewrite Hc. apply orb_true_r.
  - rewrite string_forallb_app. apply andb_true_iff. split; assumption.
  - rewrite string_forallb_app. apply andb_true_iff. split; assumption.
Qed.

Lemma in_all_chars (c : ascii) : In c all_chars.
Proof.
  unfold all_chars. apply in_map_iff. exists (nat_of_ascii c).
  split; [apply ascii_nat_embedding|].
  apply in_seq. pose proof (nat_ascii_bounded c). lia.
Qed.

Lemma matches_needs P r p m p' :
  needs P r = true -> matches r p m p' -> string_existsb P m = true.
Proof.
  intros N H. induction H; cbn [needs] in N; try discriminate.
  - rewrite forallb_forall in N. specialize (N c (in_all_chars c)).
    rewrite H in N. cbn [implb] in N. cbn [string_existsb]. rewrite N. reflexivity.
  - rewrite string_existsb_app. apply orb_true_iff in N. destruct N as [N|N].
    + rewrite (IHmatches1 N). reflexivity.
    + rewrite (IHmatches2 N). apply orb_true_r.
  - apply andb_true_iff in N. apply IHmatches. tauto.
  - apply andb_true_iff in N. apply IHmatches. tauto.
Qed.

(** A match inside [text ++ tail] that cannot contain the first character of
    [tail] ends inside [text]. *)
Lemma match_within (A : ascii -> bool) (text tail m t : string) :
  starts_with A tail = false ->
  string_forallb A m = true ->
  m ++ t = text ++ tail ->
  exists u, text = m ++ u /\ t = u ++ tail.
Proof.
  intros Hb. revert m. induction text as [|a text IH]; intros m Hm E.
  - destruct m as [|c m].
    + exists "". simpl in *. auto.
    + simpl in E. destruct tail as [|c' tail]; [discriminate|].
      simpl in E. inversion E; subst. simpl in Hb, Hm.
      rewrite Hb in Hm. discriminate.
  - destruct m as [|c m].
    + exists (String a text). simpl in *. auto.
    + simpl in E. inversion E; subst. simpl in Hm.
      apply andb_true_iff in Hm. destruct Hm as [_ Hm].
      destruct (IH m Hm H1) as [u [-> ->]]. exists u. auto.
Qed.

(** A terminal that needs a character of [P] does not match where no such
    character comes before one it cannot contain. *)
Lemma rmatch_needs P r p text tail :
  needs P r = true ->
  starts_with (alphabet r) tail = false ->
  string_existsb P text = false ->
  rmatch r p (text ++ tail) = [].
Proof.
  intros N Hb Hp.
  destruct (rmatch r p (text ++ tail)) as [|[[m p'] t] l] eqn:E; [reflexivity|].
  exfalso.
  assert (Hin : In (m, p', t) (rmatch r p (text ++ tail))) by (rewrite E; left; reflexivity).
  apply rmatch_sound in Hin. destruct Hin as [Es Hm].
  pose proof (matches_alphabet _ _ _ _ Hm) as Ha.
  pose proof (matches_needs _ _ _ _ _ N Hm) as Hn.
  destruct (match_within _ _ _ _ _ Hb Ha (eq_sym Es)) as [u [-> _]].
  rewrite string_existsb_app, Hn in Hp. discriminate.
Qed.

Lemma first_is_app l1 l2 m t : first_is l1 m t -> first_is (l1 ++ l2) m t.
Proof. intros [p' [l' ->]]. exists p', (l' ++ l2)%list. reflexivity. Qed.

Lemma first_is_alt_l a b p s m t :
  first_is (rmatch a p s) m t -> first_is (rmatch (Alt a b) p s) m t.
Proof. apply first_is_app. Qed.

Lemma first_is_alt_r a b p s m t :
  rmatch a p s = [] -> first_is (rmatch b p s) m t ->
  first_is (rmatch (Alt a b) p s) m t.
Proof. intros E H. simpl. rewrite E. exact H. Qed.

Lemma first_is_cat a b p s m1 t1 m2 t2 :
  first_is (rmatch a p s) m1 t1 ->
  (forall p1, first_is (rmatch b p1 t1) m2 t2) ->
  first_is (rmatch (Cat a b) p s) (m1 ++ m2) t2.
Proof.
  intros [p1 [l1 E1]] H2. destruct (H2 p1) as [p2 [l2 E2]].
  simpl. rewrite E1. simpl. rewrite E2. simpl.
  eexists _, _. reflexivity.
Qed.

Lemma first_is_eps p s : first_is (rmatch Eps p s) "" s.
Proof. exists p, []. reflexivity. Qed.

Lemma first_is_opt_skip a p s :
  rmatch a p s = [] -> first_is (rmatch (Opt a) p s) "" s.
Proof. intros E. apply first_is_alt_r; [assumption|apply first_is_eps]. Qed.

Lemma first_is_chr c p s : first_is (rmatch (Chr c) p (String c s)) (String c "") s.
Proof.
  simpl. unfold char_eqb. rewrite Ascii.eqb_refl. eexists _, _. reflexivity.
Qed.

Lemma first_is_cls f c p s :
  f c = true -> first_is (rmatch (Cls f) p (String c s)) (String c "") s.
Proof. intros H. simpl. rewrite H. eexists _, _. reflexivity. Qed.

Lemma rmatch_starts_not r p s :
  nullable r = false -> starts_with (first r) s = false -> rmatch r p s = [].
Proof.
  intros N F. destruct s as [|c s]; [apply rmatch_empty; assumption|].
  apply rmatch_first; assumption.
Qed.

Lemma terminal_first r s m t : first_is (rmatch r None s) m t -> terminal r s = [(m, t)].
Proof. intros [p' [l' E]]. unfold terminal. rewrite E. reflexivity. Qed.

Lemma terminal_none r s : rmatch r None s = [] -> terminal r s = [].
Proof. intros E. unfold terminal. rewrite E. reflexivity. Qed.

(** A greedy run takes all the characters of its class. *)
Lemma iterate_greedy f tail :
  starts_with f tail = false ->
  forall ds fuel p,
    (String.length ds < fuel)%nat -> string_forallb f ds = true ->
    first_is (iterate false (rmatch (Cls f)) fuel p (ds ++ tail)) ds tail.
Proof.
  intros Hb. induction ds as [|a ds IH]; intros fuel p Hf Hds.
  - destruct fuel as [|n]; [simpl in Hf; lia|]. simpl.
    assert (E : rmatch (Cls f) p tail = []).
    { destruct tail as [|c tail]; [reflexivity|]. simpl in *. rewrite Hb. reflexivity. }
    simpl in E. rewrite E. simpl. eexists _, _. reflexivity.
  - destruct fuel as [|n]; [simpl in Hf; lia|].
    simpl in Hds. apply andb_true_iff in Hds. destruct Hds as [Ha Hds].
    assert (Hn : (String.length ds < n)%nat) by (simpl in Hf; lia).
    destruct (IH n (Some a) Hn Hds) as [p' [l' E]].
    cbn [iterate append rmatch]. rewrite Ha. cbn [flat_map].
    unfold shorter. cbn [String.length].
    rewrite (proj2 (Nat.ltb_lt _ _) (Nat.lt_succ_diag_r _)).
    cbn [rmatch] in E. rewrite E. simpl. eexists _, _. reflexivity.
Qed.

Lemma star_greedy f ds tail p :
  starts_with f tail = false -> string_forallb f ds = true ->
  first_is (rmatch (Star (Cls f)) p (ds ++ tail)) ds tail.
Proof.
  intros Hb Hds. cbn [rmatch]. apply iterate_greedy; try assumption.
  rewrite length_append. lia.
Qed.

Lemma plus_greedy f ds tail p :
  starts_with f tail = false -> string_forallb f ds = true -> nonempty ds = true ->
  first_is (rmatch (Plus (Cls f)) p (ds ++ tail)) ds tail.
Proof.
  intros Hb Hds Hne. destruct ds as [|a ds]; [discriminate|].
  simpl in Hds. apply andb_true_iff in Hds. destruct Hds as [Ha Hds].
  apply (first_is_cat (Cls f) (Star (Cls f)) p (String a (ds ++ tail))
           (String a "") (ds ++ tail) ds tail).
  - simpl. rewrite Ha. eexists _, _. reflexivity.
  - intros p1. apply star_greedy; assumption.
Qed.

Lemma disjoint_classes_spec f g c :
  disjoint_classes f g = true -> f c = true -> g c = false.
Proof.
  intros D Hf. unfold disjoint_classes in D. rewrite forallb_forall in D.
  specialize (D c (in_all_chars c)). rewrite Hf in D.
  destruct (g c); [discriminate|reflexivity].
Qed.

Lemma starts_with_disjoint f g s :
  disjoint_classes f g = true -> starts_with f s = true -> starts_with g s = false.
Proof.
  intros D. destruct s as [|c s]; simpl; [discriminate|].
  apply disjoint_classes_spec; assumption.
Qed.

Lemma existsb_disjoint f g s :
  disjoint_classes f g = true -> string_forallb f s = true ->
  string_existsb g s = false.
Proof.
  intros D. induction s as [|c s IH]; simpl; [reflexivity|].
  intros H. apply andb_true_iff in H. destruct H as [Hc Hs].
  rewrite (disjoint_classes_spec f g c D Hc), (IH Hs). reflexivity.
Qed.

Lemma int_text_chars t : is_int_text t = true -> string_forallb int_char t = true.
Proof.
  assert (Hd : forall s, string_forallb digit s = true ->
                         string_forallb int_char s = true).
  { intros s. apply string_forallb_impl. intros c Hc. unfold int_char.
    rewrite Hc. reflexivity. }
  unfold is_int_text. intros H. destruct t as [|c ds]; [discriminate|].
  destruct (Ascii.eqb_spec c "-") as [->|Hc].
  - apply andb_true_iff in H. destruct H as [_ H]. simpl. apply Hd. assumption.
  - assert (H' : (nonempty (String c ds) && string_forallb digit (String c ds))%bool
                 = true).
    { destruct c as [[] [] [] [] [] [] [] []]; try exact H. exfalso. apply Hc. reflexivity. }
    apply andb_true_iff in H'. destruct H' as [_ H']. apply Hd. assumption.
Qed.

Lemma first_is_dec t tail p :
  is_int_text t = true -> starts_with digit tail = false ->
  first_is (rmatch DEC_NUMBER p (t ++ tail)) t tail.
Proof.
  intros Ht Hb. unfold is_int_text in Ht. destruct t as [|c ds]; [discriminate|].
  destruct (Ascii.eqb_spec c "-") as [->|Hc].
  - apply andb_true_iff in Ht. destruct Ht as [Hne Hds].
    apply (first_is_cat (Opt (Chr "-")) (Plus (Cls digit)) p _
             (String "-" "") (ds ++ tail) ds tail).
    + apply first_is_alt_l. apply first_is_chr.
    + intros p1. apply plus_greedy; assumption.
  - assert (H' : (nonempty (String c ds) && string_forallb digit (String c ds))%bool
                 = true).
    { destruct c as [[] [] [] [] [] [] [] []]; try exact Ht. exfalso. apply Hc. reflexivity. }
    apply andb_true_iff in H'. destruct H' as [Hne Hds].
    apply (first_is_cat (Opt (Chr "-")) (Plus (Cls digit)) p _
             "" (String c ds ++ tail) (String c ds) tail).
    + apply first_is_opt_skip. apply rmatch_first; [reflexivity|].
      unfold Chr. cbn [first]. unfold char_eqb. apply Ascii.eqb_neq. congruence.
    + intros p1. apply plus_greedy; assumption.
Qed.

Lemma rmatch_needs_int P r p t tail :
  needs P r = true ->
  disjoint_classes delimiter (alphabet r) = true ->
  disjoint_classes int_char P = true ->
  is_int_text t = true -> starts_with delimiter tail = true ->
  rmatch r p (t ++ tail) = [].
Proof.
  intros N D1 D2 Ht Hb. apply (rmatch_needs P); try assumption.
  - eapply starts_with_disjoint; eassumption.
  - eapply existsb_disjoint; [eassumption|]. apply int_text_chars. assumption.
Qed.

Lemma hex_not_int t tail p :
  is_int_text t = true -> starts_with delimiter tail = true ->
  rmatch HEX_NUMBER p (t ++ tail) = [].
Proof. apply (rmatch_needs_int is_x); vm_compute; reflexivity. Qed.

Lemma oct_not_int t tail p :
  is_int_text t = true -> starts_with delimiter tail = true ->
  rmatch OCT_NUMBER p (t ++ tail) = [].
Proof. apply (rmatch_needs_int is_o); vm_compute; reflexivity. Qed.

Lemma bin_not_int t tail p :
  is_int_text t = true -> starts_with delimiter tail = true ->
  rmatch BIN_NUMBER p (t ++ tail) = [].
Proof. apply (rmatch_needs_int is_b); vm_compute; reflexivity. Qed.

Lemma complex_not_int t tail p :
  is_int_text t = true -> starts_with delimiter tail = true ->
  rmatch COMPLEX_NUMBER p (t ++ tail) = [].
Proof. apply (rmatch_needs_int is_j); vm_compute; reflexivity. Qed.

Lemma first_is_float_body ds tail p :
  string_forallb digit ds = true -> nonempty ds = true ->
  starts_with delimiter tail = true ->
  first_is (rmatch unsigned_number p (ds ++ tail)) ds tail.
Proof.
  intros Hds Hne Hb.
  assert (Hbd : starts_with digit tail = false).
  { apply (starts_with_disjoint delimiter); [vm_compute; reflexivity | assumption]. }
  apply first_is_alt_l.
  rewrite <- (append_nil_r ds) at 2.
  eapply first_is_cat.
  - apply first_is_alt_r.
    + apply (rmatch_needs is_dot); [vm_compute; reflexivity | |].
      * apply (starts_with_disjoint delimiter); [vm_compute; reflexivity | assumption].
      * apply (existsb_disjoint digit); [vm_compute; reflexivity | assumption].
    + apply first_is_alt_r.
      * apply (rmatch_needs is_dot); [vm_compute; reflexivity | |].
        -- apply (starts_with_disjoint delimiter); [vm_compute; reflexivity | assumption].
        -- apply (existsb_disjoint digit); [vm_compute; reflexivity | assumption].
      * apply plus_greedy; assumption.
  - intros p1. apply first_is_opt_skip. apply rmatch_starts_not; [reflexivity|].
    apply (starts_with_disjoint delimiter); [vm_compute; reflexivity | assumption].
Qed.

Lemma float_number_unfold :
  FLOAT_NUMBER = Cat (Opt (Chr "-")) unsigned_number.
Proof. reflexivity. Qed.

Lemma first_is_float t tail p :
  is_int_text t = true -> starts_with delimiter tail = true ->
  first_is (rmatch FLOAT_NUMBER p (t ++ tail)) t tail.
Proof.
  intros Ht Hb. rewrite float_number_unfold.
  unfold is_int_text in Ht. destruct t as [|c ds]; [discriminate|].
  destruct (Ascii.eqb_spec c "-") as [->|Hc].
  - apply andb_true_iff in Ht. destruct Ht as [Hne Hds].
    apply (first_is_cat (Opt (Chr "-")) unsigned_number p _
             (String "-" "") (ds ++ tail) ds tail).
    + apply first_is_alt_l. apply first_is_chr.
    + intros p1. apply first_is_float_body; assumption.
  - assert (H' : (nonempty (String c ds) && string_forallb digit (String c ds))%bool
                 = true).
    { destruct c as [[] [] [] [] [] [] [] []]; try exact Ht. exfalso. apply Hc. reflexivity. }
    apply andb_true_iff in H'. destruct H' as [Hne Hds].
    apply (first_is_cat (Opt (Chr "-")) unsigned_number p _
             "" (String c ds ++ tail) (String c ds) tail).
    + apply first_is_opt_skip. apply rmatch_first; [reflexivity|].
      unfold Chr. cbn [first]. unfold char_eqb. apply Ascii.eqb_neq. congruence.
    + intros p1. apply first_is_float_body; assumption.
Qed.

Lemma nodup_same (x : string * string) : nodup token_eq_dec [x; x] = [x].
Proof.
  simpl. destruct (token_eq_dec x x) as [_|N]; [reflexivity|].
  exfalso. apply N. reflexivity.
Qed.

Lemma delimiter_not_digit tail :
  starts_with delimiter tail = true -> starts_with digit tail = false.
Proof. apply starts_with_disjoint. vm_compute. reflexivity. Qed.

(** An integer's text followed by a delimiter: the number rule and the
    integer rule match just that text. *)
Lemma number_int t tail :
  is_int_text t = true -> starts_with delimiter tail = true ->
  number (t ++ tail) = [(Tree r_number [Token t], tail)].
Proof.
  intros Ht Hb. unfold number, pmap, terminals. cbn [flat_map].
  rewrite (terminal_first _ _ _ _ (first_is_dec t tail None Ht (delimiter_not_digit _ Hb))).
  rewrite (terminal_none _ _ (hex_not_int t tail None Ht Hb)).
  rewrite (terminal_none _ _ (bin_not_int t tail None Ht Hb)).
  rewrite (terminal_none _ _ (oct_not_int t tail None Ht Hb)).
  rewrite (terminal_first _ _ _ _ (first_is_float t tail None Ht Hb)).
  rewrite (terminal_none _ _ (complex_not_int t tail None Ht Hb)).
  cbn [app]. rewrite nodup_same. reflexivity.
Qed.

Lemma integer_int t tail :
  is_int_text t = true -> starts_with delimiter tail = true ->
  integer (t ++ tail) = [([Token t], tail)].
Proof.
  intros Ht Hb. unfold integer, token1, pmap, terminals. cbn [flat_map].
  rewrite (terminal_first _ _ _ _ (first_is_dec t tail None Ht (delimiter_not_digit _ Hb))).
  rewrite (terminal_none _ _ (hex_not_int t tail None Ht Hb)).
  rewrite (terminal_none _ _ (bin_not_int t tail None Ht Hb)).
  rewrite (terminal_none _ _ (oct_not_int t tail None Ht Hb)).
  reflexivity.
Qed.

Lemma literal_rejects (a : ascii) (l s : string) :
  starts_with (char_eqb a) s = false -> literal (String a l) s = [].
Proof.
  intros H. unfold literal. destruct s as [|c s]; [reflexivity|].
  simpl in H. cbn [strip_prefix]. rewrite H. reflexivity.
Qed.

Lemma terminal_rejects r s :
  nullable r = false -> starts_with (first r) s = false -> terminal r s = [].
Proof. intros N F. apply terminal_none. apply rmatch_starts_not; assumption. Qed.

Lemma starts_with_orb f g s :
  starts_with (fun c => (f c || g c)%bool) s = false ->
  starts_with f s = false /\ starts_with g s = false.
Proof. destruct s; simpl; [auto|]. apply orb_false_iff. Qed.

Lemma terminals_rejects rs s :
  forallb (fun r => negb (nullable r)) rs = true ->
  starts_with (fun c => existsb (fun r => first r c) rs) s = false ->
  terminals rs s = [].
Proof.
  intros N F. unfold terminals.
  assert (E : flat_map (fun r => terminal r s) rs = []).
  { induction rs as [|r rs IH]; [reflexivity|].
    cbn [forallb] in N. apply andb_true_iff in N. destruct N as [Nr N].
    cbn [existsb] in F. apply starts_with_orb in F. destruct F as [Fr F].
    cbn [flat_map]. rewrite terminal_rejects; [|destruct (nullable r); [discriminate|reflexivity]|assumption].
    apply IH; assumption. }
  rewrite E. reflexivity.
Qed.

Lemma number_rejects s : starts_with number_start s = false -> number s = [].
Proof.
  intros H. unfold number, pmap. rewrite terminals_rejects; [reflexivity|reflexivity|exact H].
Qed.

Lemma integer_rejects s : starts_with integer_start s = false -> integer s = [].
Proof.
  intros H. unfold integer, token1, pmap.
  rewrite terminals_rejects; [reflexivity|reflexivity|exact H].
Qed.

Lemma colon_rejects s : starts_with (char_eqb ":") s = false -> colon s = [].
Proof. intros H. unfold colon, token1, pmap. rewrite literal_rejects; auto. Qed.

Lemma skip_rejects (a : ascii) l s :
  starts_with (char_eqb a) s = false -> skip (String a l) s = [].
Proof. intros H. unfold skip, pmap. rewrite literal_rejects; auto. Qed.

Lemma cat_nil_l p q s : p s = [] -> cat p q s = [].
Proof. intros E. unfold cat, seq. rewrite E. reflexivity. Qed.

Lemma alt_nil {A} (p q : parser A) s : p s = [] -> q s = [] -> alt p q s = [].
Proof. intros E1 E2. unfold alt. rewrite E1, E2. reflexivity. Qed.

Lemma pmap_nil {A B} (f : A -> B) (p : parser A) s : p s = [] -> pmap f p s = [].
Proof. intros E. unfold pmap. rewrite E. reflexivity. Qed.

Lemma maybe_absent {A} (p : parser (list A)) s : p s = [] -> maybe p s = [([], s)].
Proof. intros E. unfold maybe, alt, pure. rewrite E. reflexivity. Qed.

Lemma cat_single p q s a t : p s = [(a, t)] -> cat p q s = map (fun '(b, u) => (a ++ b, u)%list) (q t).
Proof. intros E. unfold cat, seq. rewrite E. cbn [flat_map]. apply List.app_nil_r. Qed.

Lemma slice_key_rejects s : starts_with slice_start s = false -> slice_key s = [].
Proof.
  intros H. unfold slice_start in H. apply starts_with_orb in H. destruct H as [Hi Hc].
  unfold slice_key. apply pmap_nil.
  rewrite (maybe_absent integer s (integer_rejects s Hi)) || idtac.
  apply alt_nil.
  - rewrite (cat_single _ _ _ _ _ (maybe_absent integer s (integer_rejects s Hi))).
    rewrite cat_nil_l; [reflexivity | apply colon_rejects; assumption].
  - rewrite (cat_single _ _ _ _ _ (maybe_absent integer s (integer_rejects s Hi))).
    rewrite cat_nil_l; [reflexivity | apply colon_rejects; assumption].
Qed.

Lemma boolean_rejects s : starts_with boolean_start s = false -> boolean s = [].
Proof.
  intros H. apply starts_with_orb in H. destruct H as [H1 H2].
  unfold boolean. apply pmap_nil. apply alt_nil; apply literal_rejects; assumption.
Qed.

Lemma none_rejects s : starts_with none_start s = false -> none s = [].
Proof. intros H. unfold none. apply pmap_nil. apply literal_rejects; assumption. Qed.

Lemma quoted_first q s :
  starts_with (char_eqb q) s = false -> starts_with (first (quoted q)) s = false.
Proof.
  destruct s as [|c s]; [reflexivity|]. unfold quoted, Chr. cbn [starts_with first nullable].
  intros ->. reflexivity.
Qed.

Lemma string_rejects s : starts_with string_start s = false -> string_ s = [].
Proof.
  intros H. apply starts_with_orb in H. destruct H as [H1 H2].
  unfold string_. apply pmap_nil.
  apply alt_nil; apply terminal_rejects; try reflexivity; apply quoted_first; assumption.
Qed.

Lemma tuple_key_rejects fuel key s :
  starts_with tuple_start s = false -> tuple_key fuel key s = [].
Proof.
  intros H. unfold tuple_key. apply pmap_nil.
  apply alt_nil; [apply skip_rejects; assumption|].
  apply alt_nil; apply cat_nil_l; apply skip_rejects; assumption.
Qed.

Lemma key_unfold fuel s :
  key fuel s =
  (number s ++ slice_key s ++ boolean s ++ none s ++ string_ s
   ++ match fuel with O => [] | S f => tuple_key f (key f) s end)%list.
Proof. destruct fuel; reflexivity. Qed.

Lemma starts_with_app f t tail :
  nonempty t = true -> starts_with f (t ++ tail) = starts_with f t.
Proof. destruct t; [discriminate|reflexivity]. Qed.

Lemma int_text_nonempty t : is_int_text t = true -> nonempty t = true.
Proof. destruct t; [discriminate|reflexivity]. Qed.

Lemma starts_with_int f t tail :
  is_int_text t = true -> disjoint_classes int_char f = true ->
  starts_with f (t ++ tail) = false.
Proof.
  intros Ht D. rewrite starts_with_app by (apply int_text_nonempty; assumption).
  pose proof (int_text_chars t Ht) as Hc.
  destruct t as [|c t]; [reflexivity|]. simpl in *.
  apply andb_true_iff in Hc. destruct Hc as [Hc _].
  apply (disjoint_classes_spec int_char); assumption.
Qed.

Lemma key_end_delimiter tail :
  starts_with key_end tail = true -> starts_with delimiter tail = true.
Proof.
  destruct tail as [|c tail]; [discriminate|]. unfold key_end, delimiter. simpl.
  intros H. rewrite H. reflexivity.
Qed.

Lemma key_end_not f tail :
  disjoint_classes key_end f = true -> starts_with key_end tail = true ->
  starts_with f tail = false.
Proof. apply starts_with_disjoint. Qed.

Lemma maybe_integer_int t tail :
  is_int_text t = true -> starts_with delimiter tail = true ->
  maybe integer (t ++ tail) = [([Token t], tail); ([], t ++ tail)].
Proof.
  intros Ht Hb. unfold maybe, alt, pure. rewrite integer_int by assumption. reflexivity.
Qed.

Lemma cat_nil_r p q s :
  (forall a t, In (a, t) (p s) -> q t = []) -> cat p q s = [].
Proof.
  intros H. unfold cat, seq.
  induction (p s) as [|[a t] l IH]; [reflexivity|].
  cbn [flat_map]. rewrite (H a t) by (left; reflexivity). cbn [map app].
  apply IH. intros a' t' Hin. apply (H a' t'). right. assumption.
Qed.

(** An integer's text before the end of a key is no slice. *)
Lemma slice_key_int t tail :
  is_int_text t = true -> starts_with key_end tail = true ->
  slice_key (t ++ tail) = [].
Proof.
  intros Ht Hb.
  assert (Hc1 : colon tail = []).
  { apply colon_rejects. apply key_end_not; [reflexivity|assumption]. }
  assert (Hc2 : colon (t ++ tail) = []).
  { apply colon_rejects. apply starts_with_int; [assumption|reflexivity]. }
  assert (Hm := maybe_integer_int t tail Ht (key_end_delimiter _ Hb)).
  unfold slice_key. apply pmap_nil. apply alt_nil; apply cat_nil_r;
    intros a u Hin; rewrite Hm in Hin;
    destruct Hin as [E|[E|[]]]; inversion E; subst; apply cat_nil_l; assumption.
Qed.

Lemma key_of_int fuel t tail :
  is_int_text t = true -> starts_with key_end tail = true ->
  key fuel (t ++ tail) = [(Tree r_number [Token t], tail)].
Proof.
  intros Ht Hb. rewrite key_unfold.
  rewrite (number_int t tail Ht (key_end_delimiter _ Hb)).
  rewrite (slice_key_int t tail Ht Hb).
  rewrite boolean_rejects by (apply starts_with_int; [assumption|reflexivity]).
  rewrite none_rejects by (apply starts_with_int; [assumption|reflexivity]).
  rewrite string_rejects by (apply starts_with_int; [assumption|reflexivity]).
  destruct fuel as [|f]; [reflexivity|].
  rewrite tuple_key_rejects by (apply starts_with_int; [assumption|reflexivity]).
  reflexivity.
Qed.

Lemma key_of_bool fuel (b : bool) tail :
  key fuel ((if b then "True" else "False") ++ tail)
  = [(Tree r_boolean [Token (if b then "True" else "False")], tail)].
Proof.
  rewrite key_unfold.
  rewrite number_rejects by (destruct b; reflexivity).
  rewrite slice_key_rejects by (destruct b; reflexivity).
  rewrite none_rejects by (destruct b; reflexivity).
  rewrite string_rejects by (destruct b; reflexivity).
  assert (E : match fuel with
              | O => []
              | S f => tuple_key f (key f) ((if b then "True" else "False") ++ tail)
              end = []).
  { destruct fuel; [reflexivity|]. apply tuple_key_rejects. destruct b; reflexivity. }
  rewrite E. destruct b; reflexivity.
Qed.

Lemma key_of_none fuel tail :
  key fuel ("None" ++ tail) = [(Tree r_none [Token "None"], tail)].
Proof.
  rewrite key_unfold.
  rewrite number_rejects by reflexivity.
  rewrite slice_key_rejects by reflexivity.
  rewrite boolean_rejects by reflexivity.
  rewrite string_rejects by reflexivity.
  assert (E : match fuel with
              | O => []
              | S f => tuple_key f (key f) ("None" ++ tail)
              end = []).
  { destruct fuel; [reflexivity|]. apply tuple_key_rejects. reflexivity. }
  rewrite E. reflexivity.
Qed.

Lemma first_is_extend m0 l m t : first_is l m t -> first_is (extend m0 l) (m0 ++ m) t.
Proof. intros [p' [l' ->]]. simpl. eexists _, _. reflexivity. Qed.

Lemma extend_extend a m l : extend (a ++ m) l = extend a (extend m l).
Proof.
  unfold extend. rewrite map_map. apply map_ext.
  intros [[m' p] t]. rewrite append_assoc. reflexivity.
Qed.

Lemma extend_app a l1 l2 : extend a (l1 ++ l2) = (extend a l1 ++ extend a l2)%list.
Proof. apply map_app. Qed.

Lemma flat_map_extend (h : option ascii -> string -> list mstate) a l :
  flat_map (fun '(m, p, t) => extend m (h p t)) (extend a l)
  = extend a (flat_map (fun '(m, p, t) => extend m (h p t)) l).
Proof.
  induction l as [|[[m p] t] l IH]; [reflexivity|].
  change (extend a ((m, p, t) :: l)) with ((a ++ m, p, t) :: extend a l).
  cbn [flat_map]. rewrite IH, extend_app, extend_extend. reflexivity.
Qed.

Lemma first_is_lazy_nil a p s : first_is (rmatch (LazyStar a) p s) "" s.
Proof. cbn [rmatch iterate]. eexists _, _. reflexivity. Qed.

Lemma first_is_not_after c p s :
  p <> Some c -> first_is (rmatch (NotAfter c) p s) "" s.
Proof.
  intros H. cbn [rmatch]. destruct p as [x|]; [|eexists _, _; reflexivity].
  destruct (char_eqb x c) eqn:E; [|eexists _, _; reflexivity].
  exfalso. apply H. apply Ascii.eqb_eq in E. congruence.
Qed.

Lemma first_is_closing q p tail :
  p <> Some backslash ->
  first_is (rmatch (closing q) p (String q tail)) (String q "") tail.
Proof.
  intros H. unfold closing.
  apply (first_is_cat _ _ _ _ "" (String q tail) (String q "") tail).
  - apply first_is_not_after. assumption.
  - intros p1.
    apply (first_is_cat _ _ _ _ "" (String q tail) (String q "") tail).
    + apply first_is_lazy_nil.
    + intros p2. apply first_is_chr.
Qed.

Lemma closing_rejects q p a s :
  body_char q a = true -> rmatch (closing q) p (String a s) = [].
Proof.
  intros H. apply rmatch_first; [reflexivity|].
  unfold body_char in H. apply andb_true_iff in H. destruct H as [H Hb].
  apply andb_true_iff in H. destruct H as [_ Hq].
  unfold closing, Chr. cbn [first nullable].
  destruct (char_eqb backslash a); [discriminate|].
  destruct (char_eqb q a); [discriminate|]. reflexivity.
Qed.

Lemma body_char_any q a : body_char q a = true -> any_char a = true.
Proof.
  unfold body_char. intros H. apply andb_true_iff in H. destruct H as [H _].
  apply andb_true_iff in H. tauto.
Qed.

Lemma body_char_not_backslash q a : body_char q a = true -> Some a <> Some backslash.
Proof.
  unfold body_char. intros H E. inversion E; subst.
  unfold char_eqb in H. rewrite Ascii.eqb_refl in H.
  rewrite andb_false_r in H. discriminate.
Qed.

(** The lazy body of a string literal stops at the first quote when the body
    has neither that quote nor a backslash. *)
Lemma lazy_body q tail s :
  forall fuel p,
    (String.length s < fuel)%nat -> p <> Some backslash ->
    string_forallb (body_char q) s = true ->
    first_is
      (flat_map (fun '(m, p, t) => extend m (rmatch (closing q) p t))
         (iterate true (rmatch (Cls any_char)) fuel p (s ++ String q tail)))
      (s ++ String q "") tail.
Proof.
  induction s as [|a s IH]; intros fuel p Hf Hp Hs.
  - destruct fuel as [|n]; [simpl in Hf; lia|].
    cbn [iterate append flat_map]. apply first_is_app.
    apply (first_is_extend "" _ (String q "") tail). apply first_is_closing. assumption.
  - destruct fuel as [|n]; [simpl in Hf; lia|].
    simpl in Hs. apply andb_true_iff in Hs. destruct Hs as [Ha Hs].
    assert (Hn : (String.length s < n)%nat) by (simpl in Hf; lia).
    specialize (IH n (Some a) Hn (body_char_not_backslash q a Ha) Hs).
    cbn [iterate append rmatch]. rewrite (body_char_any q a Ha).
    cbn [flat_map]. rewrite (closing_rejects q p a _ Ha). cbn [extend map app].
    unfold shorter. cbn [String.length].
    rewrite (proj2 (Nat.ltb_lt _ _) (Nat.lt_succ_diag_r _)).
    rewrite List.app_nil_r. rewrite flat_map_extend.
    apply (first_is_extend (String a "") _ (s ++ String q "") tail).
    exact IH.
Qed.

Lemma quoted_unfold q :
  quoted q = Cat (Chr q) (Cat (LazyStar (Cls any_char)) (closing q)).
Proof. reflexivity. Qed.

Lemma first_is_cat_chr q b p s m t :
  first_is (rmatch b (Some q) s) m t ->
  first_is (rmatch (Cat (Chr q) b) p (String q s)) (String q m) t.
Proof.
  intros [p' [l' E]]. unfold Chr. cbn [rmatch]. unfold char_eqb.
  rewrite Ascii.eqb_refl. cbn [flat_map]. rewrite E. simpl.
  eexists _, _. reflexivity.
Qed.

Lemma first_is_quoted q s tail p :
  q <> backslash -> string_forallb (body_char q) s = true ->
  first_is (rmatch (quoted q) p (String q (s ++ String q tail)))
    (String q (s ++ String q "")) tail.
Proof.
  intros Hq Hs. rewrite quoted_unfold. apply first_is_cat_chr.
  cbn [rmatch]. apply lazy_body; [rewrite length_append; lia | congruence | assumption].
Qed.

Lemma repr_quote_cases s : repr_quote s = dquote \/ repr_quote s = squote.
Proof. unfold repr_quote. destruct (_ && _)%bool; auto. Qed.

Lemma contains_repr_quote s :
  (contains squote s && contains dquote s)%bool = false ->
  contains (repr_quote s) s = false.
Proof.
  unfold repr_quote. destruct (contains squote s) eqn:E1;
    destruct (contains dquote s) eqn:E2; simpl; intros H;
    try discriminate; assumption.
Qed.

Lemma printable_plain c :
  isprintable c = true ->
  any_char c = true /\ N.eqb (ord c) 9 = false /\ N.eqb (ord c) 10 = false
  /\ N.eqb (ord c) 13 = false.
Proof.
  destruct c as [[] [] [] [] [] [] [] []]; vm_compute; intros H;
    try discriminate; auto.
Qed.

Lemma char_eqb_sym a b : char_eqb a b = char_eqb b a.
Proof. unfold char_eqb. apply Ascii.eqb_sym. Qed.

Lemma quotable_body s q :
  string_forallb (fun c => isprintable c && negb (char_eqb c backslash)) s = true ->
  contains q s = false ->
  string_forallb (body_char q) s = true /\ repr_chars q s = s.
Proof.
  induction s as [|c s IH]; [auto|].
  cbn [string_forallb contains repr_chars]. intros H Hq.
  apply andb_true_iff in H. destruct H as [Hc Hs].
  apply andb_true_iff in Hc. destruct Hc as [Hp Hb].
  apply orb_false_iff in Hq. destruct Hq as [Hcq Hq].
  destruct (IH Hs Hq) as [IH1 IH2].
  destruct (printable_plain c Hp) as [Ha [H9 [H10 H13]]].
  apply negb_true_iff in Hb.
  split.
  - rewrite IH1. unfold body_char.
    rewrite Ha, (char_eqb_sym q c), Hcq, (char_eqb_sym backslash c), Hb. reflexivity.
  - unfold repr_char. rewrite Hcq, Hb, H9, H10, H13, Hp. cbn [orb].
    rewrite IH2. reflexivity.
Qed.

Lemma str_repr_quotable s :
  quotable s = true ->
  str_repr s = String (repr_quote s) (s ++ String (repr_quote s) "")
  /\ string_forallb (body_char (repr_quote s)) s = true.
Proof.
  unfold quotable. intros H. apply andb_true_iff in H. destruct H as [H1 H2].
  apply negb_true_iff in H2.
  destruct (quotable_body s (repr_quote s) H1 (contains_repr_quote s H2)) as [Hb Hr].
  unfold str_repr. cbv zeta. rewrite Hr. auto.
Qed.

Lemma string_quoted q s tail :
  (q = dquote \/ q = squote) -> string_forallb (body_char q) s = true ->
  string_ (String q (s ++ String q tail))
  = [(Tree r_string [Token (String q (s ++ String q ""))], tail)].
Proof.
  intros Hq Hs. unfold string_, pmap, alt, STRING_DQ, STRING_SQ.
  destruct Hq as [-> | ->].
  - rewrite (terminal_first _ _ _ _
               (first_is_quoted dquote s tail None ltac:(discriminate) Hs)).
    rewrite (terminal_rejects (quoted squote)); [reflexivity|reflexivity|reflexivity].
  - rewrite (terminal_rejects (quoted dquote)); [|reflexivity|reflexivity].
    rewrite (terminal_first _ _ _ _
               (first_is_quoted squote s tail None ltac:(discriminate) Hs)).
    reflexivity.
Qed.

Lemma key_of_string fuel q s tail :
  (q = dquote \/ q = squote) -> string_forallb (body_char q) s = true ->
  key fuel (String q (s ++ String q tail))
  = [(Tree r_string [Token (String q (s ++ String q ""))], tail)].
Proof.
  intros Hq Hs. rewrite key_unfold.
  rewrite (string_quoted q s tail Hq Hs).
  rewrite number_rejects by (destruct Hq as [-> | ->]; reflexivity).
  rewrite slice_key_rejects by (destruct Hq as [-> | ->]; reflexivity).
  rewrite boolean_rejects by (destruct Hq as [-> | ->]; reflexivity).
  rewrite none_rejects by (destruct Hq as [-> | ->]; reflexivity).
  destruct fuel as [|f]; [reflexivity|].
  rewrite tuple_key_rejects by (destruct Hq as [-> | ->]; reflexivity).
  reflexivity.
Qed.

Lemma substring_prefix s t : String.substring 0 (String.length s) (s ++ t) = s.
Proof. induction s as [|c s IH]; simpl; [destruct t; reflexivity|]. rewrite IH. reflexivity. Qed.

Lemma strip_quotes q s :
  String.substring 1 (String.length (String q (s ++ String q "")) - 2)
    (String q (s ++ String q "")) = s.
Proof.
  cbn [String.length]. rewrite length_append. cbn [String.length].
  replace (S (String.length s + 1) - 2)%nat with (String.length s) by lia.
  cbn [String.substring]. apply substring_prefix.
Qed.

(** *** The text of an integer *)

Lemma uint_digits d : string_forallb digit (NilEmpty.string_of_uint d) = true.
Proof. induction d; simpl; auto. Qed.

Lemma dec_value_uint d :
  dec_value (NilZero.string_of_uint d) = Some (N.of_uint d).
Proof.
  unfold dec_value. destruct d; try reflexivity;
    unfold NilZero.string_of_uint; rewrite NilEmpty.usu; reflexivity.
Qed.

Lemma dec_value_nat_repr n : dec_value (nat_repr n) = Some n.
Proof.
  unfold nat_repr. rewrite dec_value_uint. rewrite DecimalN.Unsigned.of_to. reflexivity.
Qed.

Lemma nat_repr_digits n :
  string_forallb digit (nat_repr n) = true /\ nonempty (nat_repr n) = true.
Proof.
  unfold nat_repr, NilZero.string_of_uint.
  destruct (N.to_uint n) eqn:E; try (split; [apply (uint_digits (_ u)) | reflexivity]).
  split; reflexivity.
Qed.

(** No zero in front, unless the text is [0]. *)
Lemma nat_repr_leading n :
  nat_repr n = "0" \/ starts_with (char_eqb "0") (nat_repr n) = false.
Proof.
  unfold nat_repr.
  assert (Hn : N.to_uint n = Decimal.unorm (N.to_uint n)).
  { rewrite <- (DecimalN.Unsigned.of_to n) at 1. apply DecimalN.Unsigned.to_of. }
  unfold Decimal.unorm in Hn.
  pose proof (DecimalFacts.nzhead_nonzero (N.to_uint n)) as Hz.
  destruct (Decimal.nzhead (N.to_uint n)) eqn:E.
  - left. rewrite Hn. reflexivity.
  - exfalso. apply (Hz u). reflexivity.
  - right. rewrite Hn. reflexivity.
  - right. rewrite Hn. reflexivity.
  - right. rewrite Hn. reflexivity.
  - right. rewrite Hn. reflexivity.
  - right. rewrite Hn. reflexivity.
  - right. rewrite Hn. reflexivity.
  - right. rewrite Hn. reflexivity.
  - right. rewrite Hn. reflexivity.
  - right. rewrite Hn. reflexivity.
Qed.

Lemma digits_not_minus s :
  string_forallb digit s = true -> starts_with (char_eqb "-") s = false.
Proof.
  destruct s as [|c s]; [reflexivity|]. cbn [starts_with string_forallb]. intros H.
  apply andb_true_iff in H. destruct H as [H _].
  apply (disjoint_classes_spec digit (char_eqb "-"));
    [vm_compute; reflexivity | assumption].
Qed.

Lemma is_int_text_digits s :
  string_forallb digit s = true -> nonempty s = true -> is_int_text s = true.
Proof.
  intros Hd Hn. pose proof (digits_not_minus s Hd) as Hm.
  destruct s as [|c s]; [discriminate|]. unfold is_int_text.
  cbn [starts_with] in Hm. unfold char_eqb in Hm. apply Ascii.eqb_neq in Hm.
  assert (E : (nonempty (String c s) && string_forallb digit (String c s))%bool = true)
    by (rewrite Hd; reflexivity).
  destruct c as [[] [] [] [] [] [] [] []]; try exact E. exfalso. apply Hm. reflexivity.
Qed.

Lemma int_repr_is_int_text z : is_int_text (int_repr z) = true.
Proof.
  destruct z as [|p|p]; [reflexivity| |].
  - destruct (nat_repr_digits (Npos p)). apply is_int_text_digits; assumption.
  - destruct (nat_repr_digits (Npos p)) as [Hd Hn]. unfold int_repr.
    change ("-" ++ nat_repr (N.pos p)) with (String "-" (nat_repr (N.pos p))).
    unfold is_int_text. rewrite Hd, Hn. reflexivity.
Qed.

Lemma split_sign_digits plus s :
  string_forallb digit s = true -> split_sign plus s = (false, s).
Proof.
  intros H. destruct s as [|c s]; [reflexivity|]. unfold split_sign.
  simpl in H. apply andb_true_iff in H. destruct H as [H _].
  rewrite (disjoint_classes_spec digit (fun c => char_eqb c "-") c) by
    (try assumption; vm_compute; reflexivity).
  rewrite (disjoint_classes_spec digit (fun c => char_eqb c "+") c) by
    (try assumption; vm_compute; reflexivity).
  rewrite andb_false_r. reflexivity.
Qed.

Lemma py_int_repr z : py_int (int_repr z) = Ok z.
Proof.
  destruct z as [|p|p]; [reflexivity| |].
  - destruct (nat_repr_digits (Npos p)) as [Hd Hn]. unfold py_int, int_repr.
    rewrite (split_sign_digits true _ Hd). rewrite Hd, Hn.
    rewrite dec_value_nat_repr. reflexivity.
  - destruct (nat_repr_digits (Npos p)) as [Hd Hn]. unfold py_int, int_repr.
    change (split_sign true ("-" ++ nat_repr (N.pos p)))
      with (true, nat_repr (N.pos p)).
    cbv iota beta. rewrite Hd, Hn. rewrite dec_value_nat_repr. reflexivity.
Qed.

Lemma last_char_forallb f s c :
  string_forallb f s = true -> last_char s = Some c -> f c = true.
Proof.
  induction s as [|a s IH]; [discriminate|].
  simpl. intros H. apply andb_true_iff in H. destruct H as [Ha Hs].
  destruct s as [|b s]; [intros E; inversion E; subst; assumption|].
  apply IH. assumption.
Qed.

Lemma last_char_nonempty s : nonempty s = true -> exists c, last_char s = Some c.
Proof.
  induction s as [|a s IH]; [discriminate|]. intros _.
  destruct s as [|b s]; [exists a; reflexivity|].
  destruct IH as [c Hc]; [reflexivity|]. exists c. exact Hc.
Qed.

Lemma decimal_literal_nat n :
  decimal_literal (nat_repr n) = Ok (VInt (Z.of_N n)).
Proof.
  destruct (nat_repr_digits n) as [Hd Hn].
  destruct (last_char_nonempty _ Hn) as [c Hc].
  unfold decimal_literal. rewrite Hc.
  rewrite (disjoint_classes_spec digit is_j c) by
    (try (eapply last_char_forallb; eassumption); vm_compute; reflexivity).
  rewrite Hd. rewrite dec_value_nat_repr.
  destruct (nat_repr_leading n) as [E|E].
  - rewrite E. reflexivity.
  - rewrite E. reflexivity.
Qed.

Lemma unsigned_literal_nat n :
  unsigned_literal (nat_repr n) = Ok (VInt (Z.of_N n)).
Proof.
  destruct (nat_repr_digits n) as [Hd Hn].
  pose proof (decimal_literal_nat n) as Hl.
  unfold unsigned_literal.
  destruct (nat_repr n) as [|c [|x ds]]; try exact Hl.
  simpl in Hd. apply andb_true_iff in Hd. destruct Hd as [_ Hd].
  apply andb_true_iff in Hd. destruct Hd as [Hx _].
  rewrite (disjoint_classes_spec digit is_x x) by
    (try assumption; vm_compute; reflexivity).
  rewrite (disjoint_classes_spec digit is_o x) by
    (try assumption; vm_compute; reflexivity).
  rewrite (disjoint_classes_spec digit is_b x) by
    (try assumption; vm_compute; reflexivity).
  rewrite !andb_false_r. exact Hl.
Qed.

Lemma signed_literal_int z : signed_literal (int_repr z) = Ok (VInt z).
Proof.
  destruct z as [|p|p]; [reflexivity| |].
  - destruct (nat_repr_digits (Npos p)) as [Hd Hn]. unfold signed_literal, int_repr.
    rewrite (split_sign_digits false _ Hd). rewrite unsigned_literal_nat. reflexivity.
  - unfold signed_literal, int_repr.
    change (split_sign false ("-" ++ nat_repr (N.pos p)))
      with (true, nat_repr (N.pos p)).
    cbv iota beta. rewrite unsigned_literal_nat. reflexivity.
Qed.

Lemma literal_eval_int z : literal_eval (int_repr z) = Ok (VInt z).
Proof.
  pose proof (signed_literal_int z) as Hs.
  pose proof (int_text_chars _ (int_repr_is_int_text z)) as Hc.
  unfold literal_eval. destruct (int_repr z) as [|c r]; [discriminate|].
  simpl in Hc. apply andb_true_iff in Hc. destruct Hc as [Hc _].
  rewrite (disjoint_classes_spec int_char (fun c => char_eqb c "(") c) by
    (try assumption; vm_compute; reflexivity).
  exact Hs.
Qed.

Lemma int_text_not_colon t : is_int_text t = true -> String.eqb t ":" = false.
Proof.
  intros Ht. pose proof (int_text_chars t Ht) as Hc.
  apply String.eqb_neq. intros ->. discriminate.
Qed.

(** *** A key between brackets *)

Lemma map_prepend_nil (l : list (list tree * string)) :
  map (fun '(b, u) => (([] ++ b)%list, u)) l = l.
Proof. rewrite <- (map_id l) at 2. apply map_ext. intros [b u]. reflexivity. Qed.

Lemma cat_skip (c : ascii) q s :
  cat (skip (String c "")) q (String c s) = q s.
Proof.
  unfold cat, seq, skip, pmap, literal. cbn [strip_prefix].
  unfold char_eqb. rewrite Ascii.eqb_refl. cbn [map flat_map].
  rewrite List.app_nil_r. apply map_prepend_nil.
Qed.

Lemma item_closed fuel s : item fuel (String "[" s) = closed (key fuel s).
Proof.
  unfold item. rewrite cat_skip. unfold cat, seq, pmap, closed.
  rewrite flat_map_concat_map, map_map, <- flat_map_concat_map.
  apply flat_map_ext. intros [t r]. unfold skip, pmap, literal.
  destruct r as [|c u]; [reflexivity|]. cbn [strip_prefix].
  destruct (char_eqb "]" c); reflexivity.
Qed.

Lemma item_of_key fuel body t T :
  key fuel (body ++ String "]" T) = [(t, String "]" T)] ->
  item fuel (String "[" (body ++ String "]" T)) = [([t], T)].
Proof. intros E. rewrite item_closed, E. reflexivity. Qed.

Lemma cat_maybe_int q t tail :
  is_int_text t = true -> starts_with delimiter tail = true ->
  cat (maybe integer) q (t ++ tail)
  = (map (fun '(b, u) => (Token t :: b, u)) (q tail) ++ q (t ++ tail)%string)%list.
Proof.
  intros Ht Hb. unfold cat, seq. rewrite maybe_integer_int by assumption.
  cbn [flat_map]. rewrite List.app_nil_r, map_prepend_nil. reflexivity.
Qed.

Lemma cat_maybe_none q s :
  starts_with integer_start s = false -> cat (maybe integer) q s = q s.
Proof.
  intros H. unfold cat, seq. rewrite (maybe_absent integer s (integer_rejects s H)).
  cbn [flat_map]. rewrite List.app_nil_r. apply map_prepend_nil.
Qed.

Lemma cat_colon q s :
  cat colon q (String ":" s) = map (fun '(b, u) => (Token ":" :: b, u)) (q s).
Proof. unfold cat, seq. cbn [colon token1 pmap literal strip_prefix map flat_map].
  simpl. rewrite List.app_nil_r. reflexivity. Qed.

Lemma cat_colon_rejects q s :
  starts_with (char_eqb ":") s = false -> cat colon q s = [].
Proof. intros H. apply cat_nil_l. apply colon_rejects. assumption. Qed.

Lemma closed_app l1 l2 : closed (l1 ++ l2) = (closed l1 ++ closed l2)%list.
Proof. apply flat_map_app. Qed.

Lemma closed_int t r tail :
  is_int_text r = true -> closed [(t, r ++ tail)] = [].
Proof.
  intros Hr. pose proof (starts_with_int (char_eqb "]") r tail Hr eq_refl) as H.
  unfold closed. cbn [flat_map]. destruct (r ++ tail) as [|c u]; [reflexivity|].
  cbn [starts_with] in H. rewrite H. reflexivity.
Qed.

Lemma closed_cons_int t r tail l :
  is_int_text r = true -> closed ((t, r ++ tail) :: l) = closed l.
Proof.
  intros Hr. change ((t, r ++ tail) :: l) with ([(t, (r ++ tail)%string)] ++ l)%list.
  rewrite closed_app, closed_int by assumption. reflexivity.
Qed.

Lemma closed_cons_char t c u l :
  closed ((t, String c u) :: l)
  = ((if char_eqb "]" c then [([t], u)] else []) ++ closed l)%list.
Proof. reflexivity. Qed.

Ltac int_side :=
  first [ assumption | reflexivity
        | apply starts_with_int; [assumption | reflexivity] ].

Ltac eval_slice :=
  repeat first
    [ rewrite cat_maybe_int by int_side
    | rewrite cat_maybe_none by int_side
    | rewrite cat_colon
    | rewrite cat_colon_rejects by int_side
    | rewrite maybe_integer_int by int_side
    | rewrite (maybe_absent integer) by (apply integer_rejects; int_side)
    | progress cbn [map app] ].

Ltac eval_closed :=
  repeat first
    [ rewrite closed_cons_int by assumption
    | rewrite closed_cons_char
    | progress cbn [app] ].

Lemma key_rest_rejects fuel s :
  starts_with boolean_start s = false -> starts_with none_start s = false ->
  starts_with string_start s = false -> starts_with tuple_start s = false ->
  key fuel s = (number s ++ slice_key s)%list.
Proof.
  intros Hb Hn Hs Ht. rewrite key_unfold.
  rewrite boolean_rejects, none_rejects, string_rejects by assumption.
  destruct fuel; [|rewrite tuple_key_rejects by assumption];
    cbn [app]; rewrite List.app_nil_r; reflexivity.
Qed.

Ltac name_int_texts :=
  repeat match goal with
         | |- context [int_repr ?z] =>
             let t := fresh "t" in
             let Ht := fresh "Ht" in
             pose proof (int_repr_is_int_text z) as Ht;
             generalize dependent (int_repr z); intros t Ht
         end.

Lemma format_slice a b c :
  opt_int a = true -> opt_int b = true -> opt_int c = true ->
  format_part (VSlice a b c) = String "[" (slice_text a b c ++ "]").
Proof.
  unfold format_part, slice_text.
  destruct a, b, c; try discriminate; reflexivity.
Qed.

Lemma item_slice fuel a b c T :
  opt_int a = true -> opt_int b = true -> opt_int c = true ->
  item fuel (format_part (VSlice a b c) ++ T)
  = [([Tree r_slice_key (slice_tokens a b c)], T)].
Proof.
  intros Ha Hb Hc. rewrite format_slice by assumption.
  unfold slice_text, slice_tokens.
  destruct a, b, c; try discriminate;
    cbn [opt_text opt_tokens is_none append app];
    repeat (rewrite append_assoc; cbn [append]);
    name_int_texts;
    rewrite item_closed;
    rewrite key_rest_rejects by int_side;
    first [rewrite number_int by int_side | rewrite number_rejects by reflexivity];
    unfold slice_key, pmap, alt; eval_slice; eval_closed; reflexivity.
Qed.

Lemma transform_slice a b c :
  opt_int a = true -> opt_int b = true -> opt_int c = true ->
  PathTransformer.transform_tree (Tree r_slice_key (slice_tokens a b c))
  = Ok (VSlice a b c).
Proof.
  intros Ha Hb Hc. unfold slice_tokens.
  destruct a, b, c; try discriminate;
    cbn [opt_tokens is_none app];
    repeat match goal with
           | |- context [int_repr ?z] =>
               let t := fresh "t" in
               pose proof (int_text_not_colon _ (int_repr_is_int_text z));
               pose proof (py_int_repr z);
               generalize dependent (int_repr z); intros t; intros
           end;
    cbn [PathTransformer.transform_tree PathTransformer.callback bind];
    unfold PathTransformer.slice_key;
    repeat first
      [ match goal with
        | H : String.eqb _ _ = false |- _ => rewrite H
        | H : py_int _ = Ok _ |- _ => rewrite H
        end
      | progress simpl ];
    reflexivity.
Qed.

(** *** Names *)

Lemma many_none {A} (p : parser A) n s : p s = [] -> many n p s = [([], s)].
Proof.
  intros E. destruct n; [reflexivity|]. cbn [many]. unfold alt, seq.
  rewrite E. reflexivity.
Qed.

Lemma path_tail_not f t :
  f "."%char = false -> f "["%char = false -> is_path_tail t = true ->
  starts_with f t = false.
Proof.
  intros Hd Hb. destruct t as [|c t]; [reflexivity|]. cbn [is_path_tail starts_with].
  intros H. apply orb_true_iff in H. unfold char_eqb in H.
  destruct H as [H|H]; apply Ascii.eqb_eq in H; subst; assumption.
Qed.

Lemma identifier_name s T :
  string_forallb id_start_class s = true -> nonempty s = true ->
  is_path_tail T = true ->
  identifier (s ++ T) = [(Tree r_identifier [Token s], T)].
Proof.
  intros Hs Hn HT. unfold identifier, cat, seq, token1, pmap. cbv beta.
  assert (H1 : terminal ID_START (s ++ T) = [(s, T)]).
  { apply terminal_first. apply plus_greedy; try assumption.
    apply path_tail_not; [reflexivity|reflexivity|assumption]. }
  assert (H2 : terminal ID_CONTINUE T = []).
  { apply terminal_rejects; [reflexivity|].
    apply path_tail_not; [reflexivity|reflexivity|assumption]. }
  rewrite H1. cbn [map flat_map]. rewrite (many_none _ _ _ H2). reflexivity.
Qed.

Lemma identifier_rejects s :
  starts_with id_start_class s = false -> identifier s = [].
Proof.
  intros H. unfold identifier, cat, seq, token1, pmap. cbv beta.
  rewrite (terminal_rejects ID_START); [reflexivity|reflexivity|].
  destruct s as [|c s]; [reflexivity|]. cbn [starts_with] in *.
  unfold ID_START, Plus. cbn [first nullable]. rewrite H. reflexivity.
Qed.

(** *** Keys between brackets *)

Lemma item_int fuel z T :
  item fuel (format_part (VInt z) ++ T) = [([tree_of (VInt z)], T)].
Proof.
  cbn [format_part tree_of py_repr]. cbn [append]. rewrite append_assoc. cbn [append].
  apply item_of_key. apply key_of_int; [apply int_repr_is_int_text | reflexivity].
Qed.

Lemma item_bool fuel b T :
  item fuel (format_part (VBool b) ++ T) = [([tree_of (VBool b)], T)].
Proof.
  cbn [format_part tree_of py_repr]. cbn [append]. rewrite append_assoc. cbn [append].
  apply item_of_key. apply key_of_bool.
Qed.

Lemma item_none fuel T :
  item fuel (format_part VNone ++ T) = [([tree_of VNone], T)].
Proof. apply (item_of_key fuel "None"). apply key_of_none. Qed.

Lemma item_str fuel s T :
  isidentifier s = false -> quotable s = true ->
  item fuel (format_part (VStr s) ++ T) = [([tree_of (VStr s)], T)].
Proof.
  intros Hi Hq. cbn [format_part tree_of py_repr]. rewrite Hi.
  destruct (str_repr_quotable s Hq) as [Hr Hb]. rewrite Hr.
  cbn [append]. rewrite !append_assoc. cbn [append].
  rewrite item_closed.
  rewrite (key_of_string fuel _ s (String "]" T) (repr_quote_cases s) Hb).
  reflexivity.
Qed.

(** *** Tuple keys *)

Lemma rmatch_cat_chr q b p s :
  rmatch (Cat (Chr q) b) p (String q s) = extend (String q "") (rmatch b (Some q) s).
Proof.
  unfold Chr. cbn [rmatch]. unfold char_eqb. rewrite Ascii.eqb_refl.
  cbn [flat_map]. apply List.app_nil_r.
Qed.

Lemma rmatch_alt a b p s :
  rmatch (Alt a b) p s = (rmatch a p s ++ rmatch b p s)%list.
Proof. reflexivity. Qed.

Lemma complex_number_unfold :
  COMPLEX_NUMBER
  = Alt IMAG_NUMBER
      (Cat (Chr "(")
         (Cat (Alt FLOAT_NUMBER DEC_NUMBER)
            (Cat (Cls sign_class) (Cat IMAG_NUMBER (Chr ")"))))).
Proof. reflexivity. Qed.

(** After an opening parenthesis, a complex number goes on with a real
    number. *)
Lemma complex_paren_rejects X p :
  starts_with (first (Alt FLOAT_NUMBER DEC_NUMBER)) X = false ->
  rmatch COMPLEX_NUMBER p (String "(" X) = [].
Proof.
  intros H. rewrite complex_number_unfold. rewrite rmatch_alt.
  rewrite (rmatch_first IMAG_NUMBER) by reflexivity.
  rewrite rmatch_cat_chr. rewrite rmatch_starts_not; [reflexivity|reflexivity|].
  destruct X as [|c X]; [reflexivity|]. cbn [starts_with] in *.
  change (first (Cat (Alt FLOAT_NUMBER DEC_NUMBER)
                   (Cat (Cls sign_class) (Cat IMAG_NUMBER (Chr ")")))) c)
    with (first (Alt FLOAT_NUMBER DEC_NUMBER) c || false)%bool.
  rewrite H. reflexivity.
Qed.

Lemma complex_paren_int t tail p :
  is_int_text t = true -> starts_with delimiter tail = true ->
  rmatch COMPLEX_NUMBER p (String "(" (t ++ tail)) = [].
Proof.
  intros Ht Hb. change (String "(" (t ++ tail)) with (String "(" t ++ tail).
  apply (rmatch_needs is_j); [vm_compute; reflexivity | |].
  - apply (starts_with_disjoint delimiter); [vm_compute; reflexivity | assumption].
  - cbn [string_existsb]. apply orb_false_iff. split; [reflexivity|].
    apply (existsb_disjoint int_char); [vm_compute; reflexivity|].
    apply int_text_chars. assumption.
Qed.

Lemma number_paren X :
  rmatch COMPLEX_NUMBER None (String "(" X) = [] -> number (String "(" X) = [].
Proof.
  intros H. unfold number, pmap, terminals. cbn [flat_map].
  rewrite !(terminal_rejects _ (String "(" X)) by reflexivity.
  rewrite (terminal_none _ _ H). reflexivity.
Qed.

Lemma key_rejects fuel s :
  starts_with number_start s = false -> starts_with slice_start s = false ->
  starts_with boolean_start s = false -> starts_with none_start s = false ->
  starts_with string_start s = false -> starts_with tuple_start s = false ->
  key fuel s = [].
Proof.
  intros H1 H2 H3 H4 H5 H6. rewrite key_rest_rejects by assumption.
  rewrite number_rejects, slice_key_rejects by assumption. reflexivity.
Qed.

Lemma key_paren fuel X :
  key (S fuel) (String "(" X)
  = (number (String "(" X) ++ tuple_key fuel (key fuel) (String "(" X))%list.
Proof.
  rewrite key_unfold.
  rewrite slice_key_rejects, boolean_rejects, none_rejects, string_rejects
    by reflexivity.
  reflexivity.
Qed.

Lemma tuple_key_empty fuel tail :
  tuple_key fuel (key fuel) (String "(" (String ")" tail))
  = [(Tree r_tuple_key [], tail)].
Proof.
  assert (Hk : key fuel (String ")" tail) = []) by (apply key_rejects; reflexivity).
  unfold tuple_key. set (K1 := pmap (fun k => [k]) (key fuel)).
  assert (HK1 : K1 (String ")" tail) = []) by (unfold K1, pmap; rewrite Hk; reflexivity).
  unfold pmap, alt. rewrite !(cat_skip "(").
  rewrite !(cat_nil_l K1 _ _ HK1). reflexivity.
Qed.

Lemma tuple_key_single fuel X t tail :
  starts_with (char_eqb ")") X = false ->
  key fuel X = [(t, String "," (String ")" tail))] ->
  tuple_key fuel (key fuel) (String "(" X) = [(Tree r_tuple_key [t], tail)].
Proof.
  intros HX Hk.
  assert (Hc : key fuel (String ")" tail) = []) by (apply key_rejects; reflexivity).
  assert (H0 : skip "()" (String "(" X) = []).
  { unfold skip, pmap, literal. destruct X as [|c X]; [reflexivity|].
    cbn [strip_prefix starts_with] in *. change (char_eqb "(" "(") with true.
    cbv iota. rewrite HX. reflexivity. }
  unfold tuple_key. set (K1 := pmap (fun k => [k]) (key fuel)).
  assert (HK1 : K1 X = [([t], String "," (String ")" tail))])
    by (unfold K1, pmap; rewrite Hk; reflexivity).
  assert (HK2 : K1 (String ")" tail) = [])
    by (unfold K1, pmap; rewrite Hc; reflexivity).
  unfold pmap, alt. rewrite H0. rewrite !(cat_skip "(").
  rewrite !(cat_single K1 _ X _ _ HK1).
  assert (H3 : cat (skip ",") K1 (String "," (String ")" tail)) = []).
  { rewrite (cat_skip ","). exact HK2. }
  rewrite (cat_nil_l (cat (cat (skip ",") K1) _) _ _
             (cat_nil_l (cat (skip ",") K1) _ _ H3)).
  reflexivity.
Qed.

Lemma repr_tuple_start f items rest :
  starts_with f (py_repr (VTuple items) ++ rest) = f "("%char.
Proof. destruct items as [|x [|y r]]; reflexivity. Qed.

Lemma elem_repr_start k rest f :
  canonical_elem k = true -> disjoint_classes elem_start f = true ->
  starts_with f (py_repr k ++ rest) = false.
Proof.
  intros Hc D. destruct k; try discriminate.
  - apply starts_with_int; [apply int_repr_is_int_text|].
    unfold disjoint_classes in *. rewrite forallb_forall in *. intros c Hin.
    specialize (D c Hin). unfold elem_start in D.
    destruct (int_char c); [|reflexivity]. exact D.
  - assert (H : f "T"%char = false /\ f "F"%char = false).
    { split; apply (disjoint_classes_spec elem_start); try assumption; reflexivity. }
    destruct H. destruct b; assumption.
  - cbn [canonical_elem py_repr] in *.
    destruct (str_repr_quotable s Hc) as [-> _]. cbn [append starts_with].
    apply (disjoint_classes_spec elem_start); [assumption|].
    destruct (repr_quote_cases s) as [-> | ->]; reflexivity.
  - apply (disjoint_classes_spec elem_start); [assumption | reflexivity].
  - rewrite repr_tuple_start.
    apply (disjoint_classes_spec elem_start); [assumption | reflexivity].
Qed.

Lemma complex_paren_elem x rest :
  canonical_elem x = true -> starts_with delimiter rest = true ->
  rmatch COMPLEX_NUMBER None (String "(" (py_repr x ++ rest)) = [].
Proof.
  intros Hc Hr. destruct x; try discriminate.
  - apply complex_paren_int; [apply int_repr_is_int_text | assumption].
  - apply complex_paren_rejects. destruct b; reflexivity.
  - apply complex_paren_rejects. cbn [canonical_elem py_repr] in *.
    destruct (str_repr_quotable s Hc) as [-> _].
    destruct (repr_quote_cases s) as [-> | ->]; reflexivity.
  - apply complex_paren_rejects. reflexivity.
  - apply complex_paren_rejects. rewrite repr_tuple_start. reflexivity.
Qed.

(** The text of such a key, before the end of a key, is read as that key and
    in no other way. *)
Lemma key_elem (k : value) :
  canonical_elem k = true ->
  forall fuel, (key_depth k <= fuel)%nat ->
  forall tail, starts_with key_end tail = true ->
    key fuel (py_repr k ++ tail) = [(elem_tree k, tail)].
Proof.
  induction k using value_ind; try discriminate; intros Hc fuel Hf tail Ht.
  - apply key_of_int; [apply int_repr_is_int_text | assumption].
  - apply key_of_bool.
  - cbn [canonical_elem py_repr elem_tree] in *.
    destruct (str_repr_quotable s Hc) as [Hr Hb]. rewrite Hr.
    cbn [append]. rewrite append_assoc. cbn [append].
    apply key_of_string; [apply repr_quote_cases | assumption].
  - apply key_of_none.
  - destruct items as [|x [|y r]]; try discriminate.
    + destruct fuel as [|f]; [cbn in Hf; lia|].
      change (py_repr (VTuple []) ++ tail) with (String "(" (String ")" tail)).
      rewrite key_paren. rewrite tuple_key_empty.
      rewrite number_paren; [reflexivity|].
      apply complex_paren_rejects. reflexivity.
    + destruct fuel as [|f]; [cbn in Hf; lia|].
      cbn [canonical_elem key_depth elem_tree] in *.
      inversion H as [|? ? IHx _]; subst.
      assert (Hd : starts_with key_end (String "," (String ")" tail)) = true)
        by reflexivity.
      change (py_repr (VTuple [x])) with ("(" ++ py_repr x ++ ",)").
      cbn [append]. rewrite append_assoc. cbn [append].
      rewrite key_paren.
      rewrite number_paren
        by (apply complex_paren_elem; [assumption | reflexivity]).
      rewrite (tuple_key_single f _ (elem_tree x) tail); [reflexivity| |].
      * apply elem_repr_start; [assumption | vm_compute; reflexivity].
      * apply IHx; [assumption | lia | exact Hd].
Qed.

Lemma transform_elem (k : value) :
  canonical_elem k = true -> PathTransformer.transform_tree (elem_tree k) = Ok k.
Proof.
  induction k using value_ind; try discriminate; intros Hc.
  - cbn [elem_tree PathTransformer.transform_tree PathTransformer.callback bind
         PathTransformer.number].
    rewrite literal_eval_int. reflexivity.
  - destruct b; reflexivity.
  - cbn [canonical_elem elem_tree] in *.
    destruct (str_repr_quotable s Hc) as [Hr _].
    cbn [PathTransformer.transform_tree PathTransformer.callback bind
         PathTransformer.string PathTransformer.visit].
    rewrite Hr. rewrite strip_quotes. reflexivity.
  - reflexivity.
  - destruct items as [|x [|y r]]; try discriminate; [reflexivity|].
    cbn [canonical_elem elem_tree] in *. inversion H as [|? ? IHx _]; subst.
    cbn [PathTransformer.transform_tree]. rewrite (IHx Hc). reflexivity.
Qed.

Lemma py_eq_elem (k : value) : canonical_elem k = true -> py_eq k k = true.
Proof.
  induction k using value_ind; try discriminate; intros Hc.
  - apply Z.eqb_refl.
  - destruct b; reflexivity.
  - apply String.eqb_refl.
  - reflexivity.
  - destruct items as [|x [|y r]]; try discriminate; [reflexivity|].
    cbn [canonical_elem] in Hc. inversion H as [|? ? IHx _]; subst.
    cbn [py_eq seq_eq]. rewrite (IHx Hc). reflexivity.
Qed.

Lemma elem_valid (k : value) : canonical_elem k = true -> _is_valid_part k = true.
Proof.
  induction k using value_ind; try discriminate; intros Hc; try reflexivity.
  destruct items as [|x [|y r]]; try discriminate; [reflexivity|].
  cbn [canonical_elem] in Hc. inversion H as [|? ? IHx _]; subst.
  cbn [_is_valid_part forallb]. rewrite (IHx Hc). reflexivity.
Qed.

Lemma key_depth_repr (k : value) : (key_depth k <= String.length (py_repr k))%nat.
Proof.
  induction k using value_ind; try (cbn [key_depth]; lia).
  destruct items as [|x [|y r]].
  - cbn. lia.
  - inversion H as [|? ? IHx _]; subst. cbn [key_depth].
    change (py_repr (VTuple [x])) with ("(" ++ py_repr x ++ ",)").
    cbn [append String.length]. rewrite length_append. cbn [String.length]. lia.
  - cbn [key_depth].
    change (py_repr (VTuple (x :: y :: r)))
      with ("(" ++ join ", " (map py_repr (x :: y :: r)) ++ ")").
    cbn [append String.length]. lia.
Qed.

Lemma item_tuple fuel items T :
  canonical_elem (VTuple items) = true ->
  (key_depth (VTuple items) <= fuel)%nat ->
  item fuel (format_part (VTuple items) ++ T) = [([elem_tree (VTuple items)], T)].
Proof.
  intros Hc Hf.
  change (format_part (VTuple items)) with ("[" ++ py_repr (VTuple items) ++ "]").
  cbn [append]. rewrite append_assoc. cbn [append].
  apply item_of_key. apply key_elem; [assumption | assumption | reflexivity].
Qed.

Lemma item_rejects fuel s : starts_with (char_eqb "[") s = false -> item fuel s = [].
Proof. intros H. unfold item. apply cat_nil_l. apply skip_rejects. assumption. Qed.

Lemma item_canonical fuel k T :
  canonical_key k = true -> dotted_key k = false ->
  (key_depth k <= fuel)%nat ->
  item fuel (format_part k ++ T) = [([tree_of k], T)].
Proof.
  intros Hc Hd Hf. destruct k; try discriminate.
  - apply item_int.
  - apply item_bool.
  - cbn [canonical_key dotted_key] in *. rewrite Hd in Hc. apply item_str; assumption.
  - apply item_none.
  - cbn [canonical_key] in Hc.
    apply andb_true_iff in Hc. destruct Hc as [Hc H3].
    apply andb_true_iff in Hc. destruct Hc as [H1 H2].
    apply item_slice; assumption.
  - apply item_tuple; assumption.
Qed.

(** *** What the transformer makes of the tree of a canonical key *)

Lemma transform_canonical k :
  canonical_key k = true -> PathTransformer.transform_tree (tree_of k) = Ok k.
Proof.
  intros Hc. destruct k; try discriminate.
  - cbn [tree_of PathTransformer.transform_tree PathTransformer.callback bind
         PathTransformer.number].
    rewrite literal_eval_int. reflexivity.
  - destruct b; reflexivity.
  - cbn [canonical_key tree_of] in *. destruct (isidentifier s) eqn:Hi; [reflexivity|].
    destruct (str_repr_quotable s Hc) as [Hr _].
    cbn [PathTransformer.transform_tree PathTransformer.callback bind
         PathTransformer.string PathTransformer.visit].
    rewrite Hr. rewrite strip_quotes. reflexivity.
  - reflexivity.
  - cbn [canonical_key] in Hc.
    apply andb_true_iff in Hc. destruct Hc as [Hc H3].
    apply andb_true_iff in Hc. destruct Hc as [H1 H2].
    apply transform_slice; assumption.
  - apply transform_elem. assumption.
Qed.

(** *** Segments *)

Lemma concat_cons (x : string) (l : list string) :
  String.concat "" (x :: l) = x ++ String.concat "" l.
Proof. destruct l; cbn [String.concat]; [rewrite append_nil_r|]; reflexivity. Qed.

Lemma format_part_shape k :
  (dotted_key k = true /\ exists s, k = VStr s /\ format_part k = String "." s)
  \/ (dotted_key k = false /\ exists body, format_part k = String "[" body).
Proof.
  destruct k; try (right; split; [reflexivity|]; eexists; reflexivity).
  cbn [dotted_key format_part]. destruct (isidentifier s) eqn:E.
  - left. split; [reflexivity|]. exists s. auto.
  - right. split; [reflexivity|]. eexists. reflexivity.
Qed.

Lemma concat_parts_tail ks : is_path_tail (String.concat "" (map format_part ks)) = true.
Proof.
  destruct ks as [|k ks]; [reflexivity|]. cbn [map]. rewrite concat_cons.
  destruct (format_part_shape k) as [[_ [s [_ ->]]]|[_ [body ->]]]; reflexivity.
Qed.

Lemma isidentifier_nonempty s : isidentifier s = true -> nonempty s = true.
Proof. destruct s; [discriminate|reflexivity]. Qed.

Lemma name_not_bracket s T :
  string_forallb id_start_class s = true -> nonempty s = true ->
  starts_with (char_eqb "[") (s ++ T) = false.
Proof.
  intros Hs Hn. destruct s as [|c s]; [discriminate|]. cbn [append starts_with].
  cbn [string_forallb] in Hs. apply andb_true_iff in Hs. destruct Hs as [Hc _].
  apply (disjoint_classes_spec id_start_class); [vm_compute; reflexivity | assumption].
Qed.

Lemma segment_canonical fuel k T :
  canonical_key k = true -> is_path_tail T = true ->
  (key_depth k <= fuel)%nat ->
  segment fuel (format_part k ++ T) = [([tree_of k], T)].
Proof.
  intros Hc HT Hdep. unfold segment, alt.
  destruct (format_part_shape k) as [[Hd [s [-> Hf]]]|[Hd [body Hf]]].
  - cbn [dotted_key canonical_key tree_of] in *. rewrite Hd in *. rewrite Hf.
    cbn [append]. rewrite cat_skip.
    rewrite item_rejects by reflexivity.
    unfold pmap. rewrite (identifier_name s T Hc (isidentifier_nonempty s Hd) HT).
    reflexivity.
  - rewrite (item_canonical fuel k T Hc Hd Hdep). rewrite Hf. cbn [append].
    rewrite cat_nil_l; [reflexivity|]. apply skip_rejects. reflexivity.
Qed.

Lemma segment_first_canonical fuel k T :
  canonical_key k = true -> is_path_tail T = true ->
  (key_depth k <= fuel)%nat ->
  segment_first fuel (first_text k ++ T) = [([tree_of k], T)].
Proof.
  intros Hc HT Hdep. unfold segment_first, alt.
  destruct (format_part_shape k) as [[Hd [s [-> Hf]]]|[Hd [body Hf]]].
  - cbn [dotted_key canonical_key tree_of first_text] in *. rewrite Hd in *.
    rewrite item_rejects
      by (apply name_not_bracket; [assumption | apply isidentifier_nonempty; assumption]).
    unfold pmap. rewrite (identifier_name s T Hc (isidentifier_nonempty s Hd) HT).
    reflexivity.
  - assert (Hft : first_text k = format_part k).
    { destruct k; try reflexivity. cbn [dotted_key first_text] in *. rewrite Hd. reflexivity. }
    rewrite Hft. rewrite (item_canonical fuel k T Hc Hd Hdep). rewrite Hf. cbn [append].
    unfold pmap. rewrite identifier_rejects by reflexivity. reflexivity.
Qed.

Lemma repr_cons k ks :
  __repr__wrapped (mkPath (k :: ks))
  = first_text k ++ String.concat "" (map format_part ks).
Proof.
  unfold __repr__wrapped. cbn [parts map]. rewrite concat_cons.
  destruct (format_part_shape k) as [[Hd [s [-> Hf]]]|[Hd [body Hf]]].
  - cbn [dotted_key first_text] in *. rewrite Hd. rewrite Hf. reflexivity.
  - assert (Hft : first_text k = format_part k).
    { destruct k; try reflexivity. cbn [dotted_key first_text] in *. rewrite Hd. reflexivity. }
    rewrite Hft, Hf. reflexivity.
Qed.

(** *** The whole canonical string *)

Lemma complete_map {A B} (f : A -> B) (l : list (A * string)) :
  complete (map (fun '(a, t) => (f a, t)) l)
  = map (fun '(a, t) => (f a, t)) (complete l).
Proof.
  unfold complete. induction l as [|[a t] l IH]; [reflexivity|].
  cbn [map filter]. destruct (is_empty t); cbn [map]; rewrite IH; reflexivity.
Qed.

Lemma complete_app {A} (l1 l2 : list (A * string)) :
  complete (l1 ++ l2) = (complete l1 ++ complete l2)%list.
Proof. apply filter_app. Qed.

Lemma format_part_nonempty k T : is_empty (format_part k ++ T) = false.
Proof.
  destruct (format_part_shape k) as [[_ [s [_ ->]]]|[_ [body ->]]]; reflexivity.
Qed.

Lemma many_segments fuel ks :
  forallb canonical_key ks = true ->
  Forall (fun k => (key_depth k <= fuel)%nat) ks ->
  forall n, (List.length ks <= n)%nat ->
    complete (many n (segment fuel) (String.concat "" (map format_part ks)))
    = [(map (fun k => [tree_of k]) ks, "")].
Proof.
  induction ks as [|k ks IH]; intros Hc Hdep n Hn.
  - destruct n; reflexivity.
  - destruct n as [|n]; [simpl in Hn; lia|].
    cbn [forallb] in Hc. apply andb_true_iff in Hc. destruct Hc as [Hk Hks].
    inversion Hdep as [|? ? Hdk Hdks]; subst.
    cbn [map]. rewrite concat_cons. cbn [many]. unfold alt, seq.
    rewrite (segment_canonical fuel k _ Hk (concat_parts_tail ks) Hdk).
    cbn [flat_map]. rewrite List.app_nil_r, complete_app.
    rewrite (complete_map (cons [tree_of k])).
    rewrite IH by (try assumption; simpl in Hn; lia).
    unfold pure, complete. cbn [filter map]. rewrite format_part_nonempty. reflexivity.
Qed.

Lemma length_concat_parts ks :
  (List.length ks <= String.length (String.concat "" (map format_part ks)))%nat.
Proof.
  induction ks as [|k ks IH]; [simpl; lia|].
  cbn [map]. rewrite concat_cons, length_append. cbn [List.length].
  destruct (format_part_shape k) as [[_ [s [_ ->]]]|[_ [body ->]]];
    cbn [String.length]; lia.
Qed.

Lemma key_depth_format k : (key_depth k <= String.length (format_part k))%nat.
Proof.
  destruct k; try (cbn [key_depth]; lia).
  pose proof (key_depth_repr (VTuple items)) as H.
  change (format_part (VTuple items)) with ("[" ++ py_repr (VTuple items) ++ "]").
  cbn [append String.length]. rewrite length_append. lia.
Qed.

Lemma key_depth_first k : (key_depth k <= String.length (first_text k))%nat.
Proof.
  destruct k; try apply key_depth_format. cbn [key_depth]. lia.
Qed.

Lemma key_depth_concat ks :
  Forall (fun k => (key_depth k <= String.length
                                     (String.concat "" (map format_part ks)))%nat) ks.
Proof.
  induction ks as [|k ks IH]; [constructor|].
  cbn [map]. rewrite concat_cons, length_append. constructor.
  - pose proof (key_depth_format k). lia.
  - eapply Forall_impl; [|exact IH]. cbv beta. intros a Ha. lia.
Qed.

Lemma first_text_nonempty k T :
  canonical_key k = true -> is_empty (first_text k ++ T) = false.
Proof.
  intros Hc. destruct (format_part_shape k) as [[Hd [s [-> Hf]]]|[Hd [body Hf]]].
  - cbn [dotted_key first_text] in *. rewrite Hd.
    pose proof (isidentifier_nonempty s Hd). destruct s; [discriminate|reflexivity].
  - assert (Hft : first_text k = format_part k).
    { destruct k; try reflexivity. cbn [dotted_key first_text] in *. rewrite Hd. reflexivity. }
    rewrite Hft. apply format_part_nonempty.
Qed.

Lemma concat_singletons {A B} (f : A -> B) (l : list A) :
  concat (map (fun x => [f x]) l) = map f l.
Proof. induction l as [|x l IH]; [reflexivity|]. cbn [map concat app]. rewrite IH. reflexivity. Qed.

(** The canonical string of canonical keys parses, in one way, to their
    trees. *)
Lemma parse_canonical ks :
  forallb canonical_key ks = true ->
  parse (__repr__wrapped (mkPath ks)) = Ok (PathTree (map tree_of ks)).
Proof.
  intros Hc. destruct ks as [|k ks]; [reflexivity|].
  cbn [forallb] in Hc. apply andb_true_iff in Hc. destruct Hc as [Hk Hks].
  rewrite repr_cons. unfold parse, path.
  set (rest := String.concat "" (map format_part ks)).
  set (fuel := String.length (first_text k ++ rest)).
  assert (Hfuel : (List.length ks <= fuel)%nat).
  { unfold fuel. rewrite length_append. pose proof (length_concat_parts ks). fold rest in H. lia. }
  assert (Hdk : (key_depth k <= fuel)%nat).
  { unfold fuel. rewrite length_append. pose proof (key_depth_first k). lia. }
  assert (Hdks : Forall (fun k => (key_depth k <= fuel)%nat) ks).
  { eapply Forall_impl; [|exact (key_depth_concat ks)]. cbv beta. intros a Ha.
    unfold fuel. rewrite length_append. fold rest in Ha. lia. }
  unfold maybe, alt, pure.
  unfold pmap at 1. rewrite map_app, complete_app.
  rewrite (cat_single _ _ _ _ _
             (segment_first_canonical fuel k rest Hk (concat_parts_tail ks) Hdk)).
  unfold pmap. rewrite !map_map.
  rewrite (map_ext _ (fun '(a, t) => (PathTree ([tree_of k] ++ concat a), t)))
    by (intros [a t]; reflexivity).
  rewrite (complete_map (fun a => PathTree ([tree_of k] ++ concat a))).
  unfold rest at 1. rewrite (many_segments fuel ks Hks Hdks fuel Hfuel).
  unfold complete at 1. cbn [map filter]. rewrite (first_text_nonempty k rest Hk).
  cbn [app]. rewrite concat_singletons. reflexivity.
Qed.

Lemma transform_children_canonical ks :
  forallb canonical_key ks = true ->
  PathTransformer.transform_children (map tree_of ks) = Ok ks.
Proof.
  induction ks as [|k ks IH]; [reflexivity|]. intros Hc.
  cbn [forallb] in Hc. apply andb_true_iff in Hc. destruct Hc as [Hk Hks].
  cbn [map PathTransformer.transform_children].
  rewrite (transform_canonical k Hk). cbn [bind]. rewrite (IH Hks). reflexivity.
Qed.

Lemma canonical_valid ks :
  forallb canonical_key ks = true -> forallb _is_valid_part ks = true.
Proof.
  induction ks as [|k ks IH]; [reflexivity|]. cbn [forallb]. intros Hc.
  apply andb_true_iff in Hc. destruct Hc as [Hk Hks]. rewrite (IH Hks).
  destruct k; try discriminate; try reflexivity.
  rewrite (elem_valid _ Hk). reflexivity.
Qed.

Lemma py_eq_canonical k : canonical_key k = true -> py_eq k k = true.
Proof.
  assert (Ho : forall v, opt_int v = true -> py_eq v v = true).
  { intros v Hv. destruct v; try discriminate; [apply Z.eqb_refl | reflexivity]. }
  destruct k; try discriminate; intros Hc.
  - apply Z.eqb_refl.
  - destruct b; reflexivity.
  - apply String.eqb_refl.
  - reflexivity.
  - cbn [canonical_key] in Hc.
    apply andb_true_iff in Hc. destruct Hc as [Hc H3].
    apply andb_true_iff in Hc. destruct Hc as [H1 H2].
    cbn [py_eq]. rewrite !Ho by assumption. reflexivity.
  - apply py_eq_elem. assumption.
Qed.

Lemma seq_eq_canonical ks :
  forallb canonical_key ks = true -> seq_eq py_eq ks ks = true.
Proof.
  induction ks as [|k ks IH]; [reflexivity|]. cbn [forallb seq_eq]. intros Hc.
  apply andb_true_iff in Hc. destruct Hc as [Hk Hks].
  rewrite (py_eq_canonical k Hk), (IH Hks). reflexivity.
Qed.

(** C1. [repr] of a Path raises RecursionError, for every Path, every
    recursion limit and every host: the look-up in the cache of [__repr__]
    hashes the Path, and the cached [__hash__] does not return.  So the
    round trip [from_str(repr(p)) == p] raises RecursionError before
    anything is parsed, also for the Path of the key [0], for which the
    function behind the cache writes [[0]], a text that parses to that
    Path. *)
Theorem roundtrip_raises_recursion_error
    (depth : nat) (h : host) (same : identity) :
  (forall p, __repr__ depth h p = Raise RecursionError) /\
  (forall p,
     (text <- __repr__ depth h p ;;
      q <- from_str text ;;
      Ok (__eq__ same q (OPath p)))
     = Raise RecursionError) /\
  __init__ [VInt 0] = Ok (mkPath [VInt 0]) /\
  __repr__ depth h (mkPath [VInt 0]) = Raise RecursionError /\
  __repr__wrapped (mkPath [VInt 0]) = "[0]" /\
  from_str "[0]" = Ok (mkPath [VInt 0]).
Proof.
  split; [intros p; apply repr_recursion|].
  split; [intros p; rewrite repr_recursion; reflexivity|].
  split; [reflexivity|]. split; [apply repr_recursion|].
  split; [reflexivity | vm_compute; reflexivity].
Qed.

(** X22. The text that the function behind the cached [__repr__] writes
    reads back.  For every Path with at least one key whose keys are integers,
    booleans, [None], strings that are a name of letters and underscores or
    a text [repr] quotes as it is, slices with integer or absent bounds, and
    tuples of at most one key (an integer, a boolean, [None], a string
    [repr] quotes as it is, or such a tuple again): the Path can be
    constructed, and parsing the text gives a Path equal to it. *)
Theorem wrapped_repr_reads_back (keys : list value) :
  forallb canonical_key keys = true -> keys <> [] ->
  __init__ keys = Ok (mkPath keys) /\
  from_str (__repr__wrapped (mkPath keys)) = Ok (mkPath keys) /\
  forall same, __eq__ same (mkPath keys) (OPath (mkPath keys)) = true.
Proof.
  intros Hc _.
  assert (Hinit : __init__ keys = Ok (mkPath keys)).
  { unfold __init__. cbn [_is_valid_part]. rewrite (canonical_valid keys Hc). reflexivity. }
  split; [exact Hinit|]. split.
  - unfold from_str. rewrite (parse_canonical keys Hc). cbn [bind].
    unfold PathTransformer.transform. rewrite (transform_children_canonical keys Hc).
    cbn [bind]. unfold PathTransformer.path. rewrite Hinit. reflexivity.
  - intros same. apply eq_mono. rewrite eq_unshared.
    apply seq_eq_canonical. assumption.
Qed.

Lemma wrapped_repr_reads_back_witness :
  let keys := [VStr "a_b"; VInt (-30); VStr "b c"; VSlice (VInt 1) VNone (VInt (-2));
               VBool true; VNone; VStr "it's"; VSlice VNone VNone VNone;
               VTuple []; VTuple [VTuple [VStr "x1"]]] in
  forallb canonical_key keys = true /\ keys <> [] /\
  from_str (__repr__wrapped (mkPath keys)) = Ok (mkPath keys).
Proof.
  cbv zeta. split; [reflexivity|]. split; [discriminate|].
  apply (wrapped_repr_reads_back
           [VStr "a_b"; VInt (-30); VStr "b c"; VSlice (VInt 1) VNone (VInt (-2));
            VBool true; VNone; VStr "it's"; VSlice VNone VNone VNone;
            VTuple []; VTuple [VTuple [VStr "x1"]]]);
    [reflexivity | discriminate].
Defined.

(** ** Identifiers *)

(** On Latin-1 the classes of the terminals are those of the sample table. *)
Lemma id_classes_latin1 (a : ascii) :
  id_start_class a = id_start_point sample_category (ord a) /\
  id_continue_class a = id_continue_point sample_category (ord a).
Proof. destruct a as [[] [] [] [] [] [] [] []]; vm_compute; split; reflexivity. Qed.

Lemma class_included (f g : ascii -> bool) :
  forallb (fun c => implb (f c) (g c)) all_chars = true ->
  forall c, f c = true -> g c = true.
Proof.
  intros H c Hc. rewrite forallb_forall in H. specialize (H c (in_all_chars c)).
  rewrite Hc in H. exact H.
Qed.

Lemma id_continues_chars r :
  id_continues r -> string_forallb xid_continue r = true.
Proof.
  induction 1 as [|c r [p Hc] Hr IH]; [reflexivity|].
  rewrite string_forallb_app, IH, andb_true_r.
  apply matches_alphabet in Hc.
  eapply string_forallb_impl; [|exact Hc].
  apply class_included. vm_compute. reflexivity.
Qed.

(** Within Latin-1, what the identifier rule generates is an identifier of
    the host. *)
Lemma identifier_lang_isidentifier (t : string) :
  identifier_lang t -> isidentifier t = true.
Proof.
  intros [a [r [-> [[p Ha] Hr]]]].
  pose proof (matches_alphabet _ _ _ _ Ha) as Hall.
  apply matches_first in Ha.
  destruct Ha as [[_ [N _]]|[c [a' [-> Hc]]]]; [discriminate|].
  cbn [append isidentifier]. cbn [string_forallb] in Hall.
  apply andb_true_iff in Hall. destruct Hall as [Hc' Hall].
  apply andb_true_iff. split.
  - revert Hc'. apply (class_included (alphabet ID_START)
                         (fun c => (xid_start c || N.eqb (ord c) 95)%bool)).
    vm_compute. reflexivity.
  - rewrite string_forallb_app, (id_continues_chars r Hr), andb_true_r.
    eapply string_forallb_impl; [|exact Hall].
    apply class_included. vm_compute. reflexivity.
Qed.

(** C8. The letter [A] followed by U+FDFA is one ID_START token, so the
    identifier rule accepts it, and [str.isidentifier] turns it down: U+FDFA
    has the category Lo and is not in XID_Continue. *)
Theorem identifier_rule_accepts_non_identifier
    (category : N -> general_category) (XID_Start XID_Continue : N -> bool) :
  category 65%N = Lu -> category 65018%N = Lo -> XID_Continue 65018%N = false ->
  identifier_points category [65; 65018]%N = Some [[65; 65018]%N] /\
  isidentifier_points XID_Start XID_Continue [65; 65018]%N = false.
Proof.
  intros HA HL HX. split.
  - unfold identifier_points, ID_START_points, some_run. cbn [run].
    unfold id_start_point. rewrite HA, HL. reflexivity.
  - unfold isidentifier_points. cbn [forallb]. rewrite HX.
    rewrite andb_false_r. reflexivity.
Qed.

Lemma identifier_rule_accepts_non_identifier_witness :
  identifier_points sample_category [65; 65018]%N = Some [[65; 65018]%N] /\
  isidentifier_points sample_xid_start sample_xid_continue [65; 65018]%N = false.
Proof.
  apply (identifier_rule_accepts_non_identifier
           sample_category sample_xid_start sample_xid_continue);
    reflexivity.
Defined.

(** ** Hashing and equality of Paths *)

Lemma collect_ok {A} (f : value -> result A) (items : list value) :
  Forall (fun v => exists z, f v = Ok z) items ->
  exists zs, collect (map f items) = Ok zs.
Proof.
  induction 1 as [|v items [z Hz] _ [zs IH]]; [exists []; reflexivity|].
  exists (z :: zs). cbn [map collect]. rewrite Hz, IH. reflexivity.
Qed.

Lemma collect_raise {A} (f : value -> result A) (P : exn -> Prop) (items : list value) :
  Forall (fun v => (exists z, f v = Ok z) \/ exists e, f v = Raise e /\ P e) items ->
  Exists (fun v => exists e, f v = Raise e /\ P e) items ->
  exists e, collect (map f items) = Raise e /\ P e.
Proof.
  induction 1 as [|v items Hv Hall IH]; intros Hex; [inversion Hex|].
  cbn [map collect].
  destruct Hv as [[z Hz]|[e [He HP]]].
  - rewrite Hz. cbn [bind]. inversion Hex as [? ? [e [He _]]|? ? Hex']; subst.
    + congruence.
    + destruct (IH Hex') as [e [He HP]]. exists e. rewrite He. auto.
  - exists e. rewrite He. auto.
Qed.

Lemma py_hash_hashable (h : host) (v : value) :
  if hashable v then exists z, py_hash h v = Ok z
  else exists e, py_hash h v = Raise e /\ is_type_error e.
Proof.
  induction v as [z|b|f|re im|s| |a b c Ha Hb Hc|items IH|items IH] using value_ind;
    cbn [hashable py_hash]; try (eexists; reflexivity);
    try (eexists; split; [reflexivity | eexists; reflexivity]).
  destruct (forallb hashable items) eqn:E.
  - destruct (collect_ok (py_hash h) items) as [zs Hzs].
    + rewrite forallb_forall in E. rewrite Forall_forall in IH |- *.
      intros v Hv. specialize (IH v Hv). rewrite (E v Hv) in IH. exact IH.
    + rewrite Hzs. eexists. reflexivity.
  - destruct (collect_raise (py_hash h) is_type_error items) as [e [He HP]].
    + eapply Forall_impl; [|exact IH]. cbv beta. intros v Hv.
      destruct (hashable v); [left|right]; exact Hv.
    + assert (Hex : Exists (fun v => hashable v = false) items).
      { apply Exists_exists. induction items as [|x items IHi]; [discriminate|].
        cbn [forallb] in E. destruct (hashable x) eqn:Ex.
        - inversion IH; subst. destruct (IHi) as [v [Hv Hh]]; try assumption.
          exists v. split; [right; assumption | assumption].
        - exists x. split; [left; reflexivity | assumption]. }
      rewrite Exists_exists in Hex |- *. destruct Hex as [v [Hv Hh]].
      exists v. split; [assumption|].
      rewrite Forall_forall in IH. specialize (IH v Hv). rewrite Hh in IH. exact IH.
    + exists e. rewrite He. auto.
Qed.

Lemma hashable_part_key (h : host) (k : value) :
  if hashable_key k then exists z, hashable_part h k = Ok z
  else exists e, hashable_part h k = Raise e /\ is_type_error e.
Proof.
  destruct k as [| | | | | |a b c| |];
    try (match goal with
         | |- context [hashable_part h ?v] => exact (py_hash_hashable h v)
         end).
  cbn [hashable_key hashable_part]. unfold hash_slice_parts. cbn [collect bind].
  pose proof (py_hash_hashable h a) as Ha.
  pose proof (py_hash_hashable h b) as Hb.
  pose proof (py_hash_hashable h c) as Hc.
  destruct (hashable a); cbn [andb].
  - destruct Ha as [za ->]. cbn [bind].
    destruct (hashable b); cbn [andb].
    + destruct Hb as [zb ->]. cbn [bind].
      destruct (hashable c).
      * destruct Hc as [zc ->]. eexists. reflexivity.
      * destruct Hc as [e [-> HP]]. exists e. auto.
    + destruct Hb as [e [-> HP]]. exists e. auto.
  - destruct Ha as [e [-> HP]]. exists e. auto.
Qed.

(** X6. The function behind the cached [__hash__] returns an integer
    exactly when no key holds a list and the only slices are keys
    themselves, with bounds that hold no slice and no list; for every other
    Path it raises TypeError. *)
Theorem wrapped_hash_defined_iff_hashable_keys (h : host) (p : Path) :
  if forallb hashable_key (parts p)
  then exists z, __hash__wrapped h p = Ok z
  else exists msg, __hash__wrapped h p = Raise (TypeError msg).
Proof.
  rewrite hash_unfold. destruct (forallb hashable_key (parts p)) eqn:E.
  - destruct (collect_ok (hashable_part h) (parts p)) as [zs Hzs].
    + rewrite forallb_forall in E. apply Forall_forall. intros k Hk.
      pose proof (hashable_part_key h k) as H. rewrite (E k Hk) in H. exact H.
    + rewrite Hzs. eexists. reflexivity.
  - destruct (collect_raise (hashable_part h) is_type_error (parts p)) as [e [He [msg ->]]].
    + apply Forall_forall. intros k _. pose proof (hashable_part_key h k) as H.
      destruct (hashable_key k); [left|right]; exact H.
    + apply Exists_exists.
      assert (Hex : exists k, In k (parts p) /\ hashable_key k = false).
      { induction (parts p) as [|x l IH]; [discriminate|].
        cbn [forallb] in E. destruct (hashable_key x) eqn:Ex.
        - destruct (IH E) as [k [Hk Hh]]. exists k. split; [right|]; assumption.
        - exists x. split; [left; reflexivity | assumption]. }
      destruct Hex as [k [Hk Hh]]. exists k. split; [assumption|].
      pose proof (hashable_part_key h k) as H. rewrite Hh in H. exact H.
    + exists msg. rewrite He. reflexivity.
Qed.

(** X5. The function behind the cached [__hash__] gives Paths that are
    equal by value the same result: the same integer, or the same
    TypeError. *)
Theorem wrapped_hash_of_equal_paths (h : host) (p q : Path) :
  __eq__ distinct p (OPath q) = true -> __hash__wrapped h p = __hash__wrapped h q.
Proof.
  intros H. rewrite !hash_unfold. rewrite eq_unshared in H.
  rewrite (seq_eq_map py_eq (hashable_part h) (parts p)) with (ys := parts q);
    [reflexivity | | assumption].
  apply Forall_forall. intros a _ b Hab. apply hashable_part_eq. assumption.
Qed.

Lemma wrapped_hash_of_equal_paths_witness :
  let p := mkPath [VInt 1; VStr "a"; VSlice (VBool false) VNone (VInt 2)] in
  let q := mkPath [VFloat float_one; VStr "a";
                   VSlice (VInt 0) VNone (VFloat (fadd float_one float_one))] in
  __eq__ distinct p (OPath q) = true
  /\ __hash__wrapped sample_host p = __hash__wrapped sample_host q.
Proof.
  cbv zeta. split; [vm_compute; reflexivity|].
  apply (wrapped_hash_of_equal_paths sample_host
           (mkPath [VInt 1; VStr "a"; VSlice (VBool false) VNone (VInt 2)])
           (mkPath [VFloat float_one; VStr "a";
                    VSlice (VInt 0) VNone (VFloat (fadd float_one float_one))])).
  vm_compute. reflexivity.
Defined.

(** ** Equality is symmetric *)

Lemma SFeqb_sym (f g : spec_float) : SFeqb f g = SFeqb g f.
Proof.
  unfold SFeqb, SFcompare.
  destruct f as [s| s| |s m e], g as [s'| s'| |s' m' e'];
    try reflexivity;
    try (destruct s, s'; reflexivity).
  pose proof (Pos.compare_cont_antisym m m' Eq) as Hm. cbn [CompOpp] in Hm.
  destruct s, s'; try reflexivity;
    rewrite (Z.compare_antisym e e'), <- Hm;
    destruct (e ?= e'); cbn [CompOpp]; try reflexivity;
    destruct (Pos.compare_cont Eq m m'); reflexivity.
Qed.

Lemma num_eq_sym (x y : num) : num_eq x y = num_eq y x.
Proof.
  destruct x, y; cbn [num_eq]; try reflexivity;
    rewrite ?(SFeqb_sym f), ?(SFeqb_sym re), ?(SFeqb_sym im);
    try reflexivity.
  apply Z.eqb_sym.
Qed.

Lemma seq_eq_sym {A} (eq : A -> A -> bool) (xs : list A) :
  Forall (fun x => forall y, eq x y = eq y x) xs ->
  forall ys, seq_eq eq xs ys = seq_eq eq ys xs.
Proof.
  induction 1 as [|x xs Hx _ IH]; intros [|y ys]; try reflexivity.
  cbn [seq_eq]. rewrite Hx, IH. reflexivity.
Qed.

Lemma py_eq_sym (a : value) : forall b, py_eq a b = py_eq b a.
Proof.
  induction a as [z|t|f|re im|s| |a1 a2 a3 H1 H2 H3|items IH|items IH] using value_ind;
    intros other; destruct other as [z'|t'|f'|re' im'|s'| |b1 b2 b3|items'|items'];
    cbn [py_eq numeric]; try reflexivity; try apply num_eq_sym;
    try apply String.eqb_sym; try (apply seq_eq_sym; assumption).
  rewrite H1, H2, H3. reflexivity.
Qed.

Lemma seq_eq_length {A} (eq : A -> A -> bool) (xs : list A) :
  forall ys, seq_eq eq xs ys = true -> List.length xs = List.length ys.
Proof.
  induction xs as [|x xs IH]; intros [|y ys] H; try discriminate; [reflexivity|].
  cbn [seq_eq] in H. apply andb_true_iff in H. cbn [List.length].
  rewrite (IH ys (proj2 H)). reflexivity.
Qed.

Lemma py_eq_at_sym (a : value) :
  forall same b, py_eq_at same a b = py_eq_at same b a.
Proof.
  induction a as [z|t|f|re im|s| |a1 a2 a3 H1 H2 H3|items IH|items IH] using value_ind;
    intros same other;
    destruct other as [z'|t'|f'|re' im'|s'| |b1 b2 b3|items'|items'];
    cbn [py_eq_at numeric]; try reflexivity; try apply num_eq_sym;
    try apply String.eqb_sym; try (apply seq_eq_at_sym; assumption).
  rewrite H1, H2, H3. reflexivity.
Qed.

(** X7. Equality of Paths does not depend on the side a Path is on, and
    equal Paths have the same number of keys, whatever objects the two
    Paths share. *)
Theorem eq_symmetric_and_same_length (same : identity) (p q : Path) :
  __eq__ same p (OPath q) = __eq__ same q (OPath p) /\
  (__eq__ same p (OPath q) = true -> __len__ p = __len__ q).
Proof.
  split.
  - cbn [__eq__]. apply seq_eq_at_sym. apply Forall_forall.
    intros a _ s y. apply py_eq_at_sym.
  - cbn [__eq__]. unfold __len__. apply seq_eq_at_length.
Qed.

Lemma eq_symmetric_and_same_length_witness :
  let p := mkPath [VInt 1; VTuple [VBool false]] in
  let q := mkPath [VBool true; VTuple [VInt 0]] in
  __eq__ distinct p (OPath q) = true /\ __eq__ distinct q (OPath p) = true
  /\ __len__ p = __len__ q.
Proof.
  cbv zeta.
  pose proof (eq_symmetric_and_same_length distinct
                (mkPath [VInt 1; VTuple [VBool false]])
                (mkPath [VBool true; VTuple [VInt 0]])) as [Hs Hl].
  split; [reflexivity|]. split; [rewrite <- Hs; reflexivity|].
  apply Hl. reflexivity.
Defined.

(** ** Subscription *)

Lemma tuple_item_nth (items : list value) (i : Z) :
  0 <= i < Z.of_nat (List.length items) ->
  exists v, nth_error items (Z.to_nat i) = Some v /\ tuple_item items i = Ok v.
Proof.
  intros Hi. unfold tuple_item.
  destruct (i <? 0) eqn:E1; [apply Z.ltb_lt in E1; lia|].
  destruct (Z.of_nat (List.length items) <=? i) eqn:E2; [apply Z.leb_le in E2; lia|].
  cbn [orb]. destruct (nth_error items (Z.to_nat i)) as [v|] eqn:E.
  - exists v. split; reflexivity.
  - apply nth_error_None in E. lia.
Qed.

Lemma tuple_item_outside (items : list value) (i : Z) :
  i < 0 \/ Z.of_nat (List.length items) <= i -> tuple_item items i = Raise IndexError.
Proof.
  intros Hi. unfold tuple_item.
  destruct (i <? 0) eqn:E1; [reflexivity|].
  destruct (Z.of_nat (List.length items) <=? i) eqn:E2; [reflexivity|].
  apply Z.ltb_ge in E1. apply Z.leb_gt in E2. lia.
Qed.

Lemma ssize_fits (i : Z) :
  PY_SSIZE_T_MIN <= i <= PY_SSIZE_T_MAX ->
  ((i <? PY_SSIZE_T_MIN) || (PY_SSIZE_T_MAX <? i))%bool = false.
Proof.
  intros H. apply orb_false_iff. split; apply Z.ltb_ge; lia.
Qed.

(** X1. With an integer key, [p[i]] is the key at position [i] for
    [0 <= i < len(p)], [p[i - len(p)]] is the same key, and every integer
    outside [-len(p) .. len(p) - 1] raises IndexError. *)
Theorem getitem_index_bounds (p : Path) (i : Z) :
  Z.of_nat (__len__ p) <= PY_SSIZE_T_MAX ->
  (0 <= i < Z.of_nat (__len__ p) ->
   exists v, nth_error (parts p) (Z.to_nat i) = Some v /\
             __getitem__ p (VInt i) = Ok v /\
             __getitem__ p (VInt (i - Z.of_nat (__len__ p))) = Ok v) /\
  (i < - Z.of_nat (__len__ p) \/ Z.of_nat (__len__ p) <= i ->
   __getitem__ p (VInt i) = Raise IndexError).
Proof.
  unfold __len__, __getitem__, tuple_subscript. cbn [index_of].
  set (n := Z.of_nat (List.length (parts p))). intros Hn.
  assert (Hn0 : 0 <= n) by (unfold n; lia).
  split.
  - intros Hi. destruct (tuple_item_nth (parts p) i Hi) as [v [Hv Ht]].
    exists v. split; [exact Hv|]. split.
    + rewrite ssize_fits by (unfold PY_SSIZE_T_MIN; lia).
      destruct (i <? 0) eqn:E3; [apply Z.ltb_lt in E3; lia|]. exact Ht.
    + rewrite ssize_fits by (unfold PY_SSIZE_T_MIN; lia).
      destruct (i - n <? 0) eqn:E3; [|apply Z.ltb_ge in E3; lia].
      replace (i - n + n) with i by lia. exact Ht.
  - intros Hi.
    destruct ((i <? PY_SSIZE_T_MIN) || (PY_SSIZE_T_MAX <? i))%bool; [reflexivity|].
    apply tuple_item_outside. fold n. destruct (i <? 0) eqn:E3.
    + apply Z.ltb_lt in E3. lia.
    + apply Z.ltb_ge in E3. lia.
Qed.

Lemma getitem_index_bounds_witness :
  let p := mkPath [VStr "a"; VInt 0; VStr "b"] in
  __getitem__ p (VInt 2) = Ok (VStr "b") /\
  __getitem__ p (VInt (-1)) = Ok (VStr "b") /\
  __getitem__ p (VInt 3) = Raise IndexError /\
  __getitem__ p (VInt (-4)) = Raise IndexError.
Proof.
  cbv zeta.
  assert (Hn : Z.of_nat (__len__ (mkPath [VStr "a"; VInt 0; VStr "b"])) <= PY_SSIZE_T_MAX)
    by (vm_compute; discriminate).
  pose proof (getitem_index_bounds (mkPath [VStr "a"; VInt 0; VStr "b"]) 2 Hn) as [H2 _].
  pose proof (getitem_index_bounds (mkPath [VStr "a"; VInt 0; VStr "b"]) 3 Hn) as [_ H3].
  pose proof (getitem_index_bounds (mkPath [VStr "a"; VInt 0; VStr "b"]) (-4) Hn) as [_ H4].
  destruct H2 as [v [Hv [Ha Hb]]]; [cbn; lia|].
  cbn in Hv. injection Hv as <-.
  split; [exact Ha|]. split; [exact Hb|].
  split; [apply H3; cbn; lia | apply H4; cbn; lia].
Defined.

Lemma slice_items_ok (items : list value) (step : Z) :
  forall (n : nat) (cur : Z),
    (forall j, 0 <= j < Z.of_nat n ->
               0 <= cur + j * step < Z.of_nat (List.length items)) ->
    exists xs, slice_items items cur step n = Ok xs /\
               List.length xs = n /\
               forall j, (j < n)%nat ->
                 nth_error xs j = nth_error items (Z.to_nat (cur + Z.of_nat j * step)).
Proof.
  induction n as [|n IH]; intros cur H.
  - exists []. split; [reflexivity|]. split; [reflexivity|]. intros j Hj. lia.
  - cbn [slice_items].
    destruct (tuple_item_nth items cur) as [v [Hv Ht]].
    { specialize (H 0). rewrite Z.mul_0_l, Z.add_0_r in H. apply H. lia. }
    destruct (IH (cur + step)) as [xs [Hxs [Hlen Hnth]]].
    { intros j Hj. replace (cur + step + j * step) with (cur + (j + 1) * step) by lia.
      apply H. lia. }
    rewrite Ht, Hxs. cbn [bind]. exists (v :: xs). split; [reflexivity|].
    split; [cbn [List.length]; rewrite Hlen; reflexivity|].
    intros [|j] Hj.
    + cbn [nth_error]. rewrite Z.mul_0_l, Z.add_0_r. symmetry. exact Hv.
    + cbn [nth_error]. rewrite Hnth by lia. f_equal. f_equal. lia.
Qed.

Lemma adjust_bound_range (len step i : Z) :
  0 <= len ->
  (step < 0 -> -1 <= adjust_bound len step i <= len - 1) /\
  (0 <= step -> 0 <= adjust_bound len step i <= len).
Proof.
  intros Hl. unfold adjust_bound.
  destruct (i <? 0) eqn:E1; [apply Z.ltb_lt in E1 | apply Z.ltb_ge in E1].
  - destruct (i + len <? 0) eqn:E2; [apply Z.ltb_lt in E2 | apply Z.ltb_ge in E2];
      destruct (step <? 0) eqn:E3;
      try (apply Z.ltb_lt in E3); try (apply Z.ltb_ge in E3); split; intros; lia.
  - destruct (len <=? i) eqn:E2; [apply Z.leb_le in E2 | apply Z.leb_gt in E2];
      destruct (step <? 0) eqn:E3;
      try (apply Z.ltb_lt in E3); try (apply Z.ltb_ge in E3); split; intros; lia.
Qed.

Lemma slice_length_reach (len start stop step : Z) :
  step <> 0 ->
  (step < 0 -> -1 <= start <= len - 1 /\ -1 <= stop <= len - 1) ->
  (0 <= step -> 0 <= start <= len /\ 0 <= stop <= len) ->
  0 <= slice_length start stop step <= len /\
  forall j, 0 <= j < slice_length start stop step ->
            0 <= start + j * step < len.
Proof.
  intros Hs Hneg Hpos. unfold slice_length.
  destruct (step <? 0) eqn:E; [apply Z.ltb_lt in E | apply Z.ltb_ge in E].
  - destruct (Hneg E) as [H1 H2].
    destruct (stop <? start) eqn:E2; [apply Z.ltb_lt in E2 | apply Z.ltb_ge in E2].
    + assert (Hq : 0 <= (start - stop - 1) / - step) by (apply Z.div_pos; lia).
      assert (Hm : - step * ((start - stop - 1) / - step) <= start - stop - 1)
        by (apply Z.mul_div_le; lia).
      split.
      * split; [lia|].
        assert ((start - stop - 1) / - step <= start - stop - 1)
          by (apply Z.div_le_upper_bound; nia). lia.
      * intros j Hj. nia.
    + split; [lia|]. intros j Hj. lia.
  - assert (Hp : 0 < step) by lia. destruct (Hpos E) as [H1 H2].
    destruct (start <? stop) eqn:E2; [apply Z.ltb_lt in E2 | apply Z.ltb_ge in E2].
    + assert (Hq : 0 <= (stop - start - 1) / step) by (apply Z.div_pos; lia).
      assert (Hm : step * ((stop - start - 1) / step) <= stop - start - 1)
        by (apply Z.mul_div_le; lia).
      split.
      * split; [lia|].
        assert ((stop - start - 1) / step <= stop - start - 1)
          by (apply Z.div_le_upper_bound; nia). lia.
      * intros j Hj. nia.
    + split; [lia|]. intros j Hj. lia.
Qed.

Lemma slice_index_opt (v : value) :
  opt_index v = true -> is_none v = false ->
  exists z, index_of v = Some z /\
            slice_index v = Ok (Z.max PY_SSIZE_T_MIN (Z.min PY_SSIZE_T_MAX z)).
Proof.
  destruct v; try discriminate; intros _ _; eexists; split; reflexivity.
Qed.

(** The machine integers a slice of integers or [None] unpacks to. *)
Lemma slice_unpack_opt (start stop step : value) :
  opt_index start = true -> opt_index stop = true -> opt_index step = true ->
  index_of step <> Some 0 ->
  exists a b s, slice_unpack start stop step = Ok (a, b, s) /\ s <> 0.
Proof.
  intros Ha Hb Hs Hz. unfold slice_unpack.
  assert (Hstep : exists s,
             (if is_none step then Ok 1
              else s <- slice_index step ;;
                   if s =? 0 then Raise (ValueError (Some "slice step cannot be zero"))
                   else Ok (Z.max s (- PY_SSIZE_T_MAX))) = Ok s /\ s <> 0).
  { destruct (is_none step) eqn:E; [exists 1; split; [reflexivity|lia]|].
    destruct (slice_index_opt step Hs E) as [z [Hi ->]]. cbn [bind].
    assert (z <> 0) by congruence.
    assert (Hc : Z.max PY_SSIZE_T_MIN (Z.min PY_SSIZE_T_MAX z) <> 0)
      by (unfold PY_SSIZE_T_MIN, PY_SSIZE_T_MAX; lia).
    apply Z.eqb_neq in Hc. rewrite Hc. eexists. split; [reflexivity|].
    apply Z.eqb_neq in Hc. unfold PY_SSIZE_T_MIN, PY_SSIZE_T_MAX in *. lia. }
  destruct Hstep as [s [-> Hs0]]. cbn [bind].
  assert (Hstart : exists a,
             (if is_none start then Ok (if s <? 0 then PY_SSIZE_T_MAX else 0)
              else slice_index start) = Ok a).
  { destruct (is_none start) eqn:E; [eexists; reflexivity|].
    destruct (slice_index_opt start Ha E) as [z [_ ->]]. eexists. reflexivity. }
  destruct Hstart as [a ->]. cbn [bind].
  assert (Hstop : exists b,
             (if is_none stop
              then Ok (if s <? 0 then PY_SSIZE_T_MIN else PY_SSIZE_T_MAX)
              else slice_index stop) = Ok b).
  { destruct (is_none stop) eqn:E; [eexists; reflexivity|].
    destruct (slice_index_opt stop Hb E) as [z [_ ->]]. eexists. reflexivity. }
  destruct Hstop as [b ->]. cbn [bind].
  exists a, b, s. split; [reflexivity | assumption].
Qed.

Lemma nth_error_incl {A} (xs items : list A) (f : nat -> nat) :
  (forall j, (j < List.length xs)%nat -> nth_error xs j = nth_error items (f j)) ->
  incl xs items.
Proof.
  intros H x Hx. apply In_nth_error in Hx. destruct Hx as [j Hj].
  assert (Hlt : (j < List.length xs)%nat)
    by (apply nth_error_Some; rewrite Hj; discriminate).
  rewrite (H j Hlt) in Hj. eapply nth_error_In. exact Hj.
Qed.

Lemma valid_incl (xs items : list value) :
  incl xs items -> forallb _is_valid_part items = true ->
  forallb _is_valid_part xs = true.
Proof.
  intros Hi Hv. rewrite forallb_forall in Hv |- *. intros x Hx. apply Hv, Hi, Hx.
Qed.

(** X2. With a slice key whose bounds and step are integers or [None] and
    whose step is not zero, subscription never raises: it gives a tuple, not
    a Path, of keys of the Path, at most as many as the Path has, and when
    the keys of the Path are valid the tuple can be made a Path again. *)
Theorem getitem_slice_gives_keys (p : Path) (start stop step : value) :
  opt_index start = true -> opt_index stop = true -> opt_index step = true ->
  index_of step <> Some 0 ->
  exists items,
    __getitem__ p (VSlice start stop step) = Ok (VTuple items) /\
    (List.length items <= __len__ p)%nat /\
    incl items (parts p) /\
    (forallb _is_valid_part (parts p) = true -> __init__ items = Ok (mkPath items)).
Proof.
  intros Ha Hb Hs Hz.
  destruct (slice_unpack_opt start stop step Ha Hb Hs Hz) as [a [b [s [Hu Hs0]]]].
  unfold __getitem__, tuple_subscript, __len__. cbn [index_of]. rewrite Hu. cbn [bind].
  set (len := Z.of_nat (List.length (parts p))).
  assert (Hl : 0 <= len) by (unfold len; lia).
  destruct (slice_length_reach len (adjust_bound len s a) (adjust_bound len s b) s Hs0)
    as [Hn Hreach].
  { intros H. split; apply (adjust_bound_range len s _ Hl); assumption. }
  { intros H. split; apply (adjust_bound_range len s _ Hl); assumption. }
  set (n := slice_length (adjust_bound len s a) (adjust_bound len s b) s) in *.
  destruct (slice_items_ok (parts p) s (Z.to_nat n) (adjust_bound len s a))
    as [xs [Hxs [Hlen Hnth]]].
  { intros j Hj. apply Hreach. lia. }
  rewrite Hxs. cbn [bind]. exists xs. split; [reflexivity|].
  assert (Hincl : incl xs (parts p)).
  { apply (nth_error_incl xs (parts p)
             (fun j => Z.to_nat (adjust_bound len s a + Z.of_nat j * s))).
    intros j Hj. apply Hnth. lia. }
  split; [unfold len in Hn; lia|]. split; [exact Hincl|].
  intros Hv. unfold __init__. cbn [_is_valid_part].
  rewrite (valid_incl xs (parts p) Hincl Hv). reflexivity.
Qed.

Lemma getitem_slice_gives_keys_witness :
  exists items,
    __getitem__ (mkPath [VStr "a"; VInt 0; VStr "b"; VNone])
      (VSlice VNone (VInt (-1)) (VInt 2)) = Ok (VTuple items) /\
    __init__ items = Ok (mkPath items).
Proof.
  destruct (getitem_slice_gives_keys (mkPath [VStr "a"; VInt 0; VStr "b"; VNone])
              VNone (VInt (-1)) (VInt 2))
    as [items [H [_ [_ Hv]]]]; try reflexivity; [discriminate|].
  exists items. split; [exact H | apply Hv; reflexivity].
Defined.

(** A step that is zero is turned down. *)
Lemma getitem_zero_step (p : Path) (start stop : value) :
  __getitem__ p (VSlice start stop (VInt 0))
  = Raise (ValueError (Some "slice step cannot be zero")).
Proof. reflexivity. Qed.

Lemma tuple_item_app (pre post : list value) (x : value) :
  tuple_item (pre ++ x :: post) (Z.of_nat (List.length pre)) = Ok x.
Proof.
  destruct (tuple_item_nth (pre ++ x :: post) (Z.of_nat (List.length pre)))
    as [v [Hv Ht]].
  { rewrite length_app. cbn [List.length]. lia. }
  rewrite Nat2Z.id, nth_error_app2, Nat.sub_diag in Hv by lia.
  cbn [nth_error] in Hv. injection Hv as <-. exact Ht.
Qed.

(** Reading forwards, one by one, a run of items. *)
Lemma slice_items_run (mid : list value) :
  forall pre post,
    slice_items (pre ++ mid ++ post) (Z.of_nat (List.length pre)) 1 (List.length mid)
    = Ok mid.
Proof.
  induction mid as [|x mid IH]; intros pre post; [reflexivity|].
  cbn [List.length slice_items app]. rewrite tuple_item_app. cbn [bind].
  specialize (IH (pre ++ [x])%list post).
  rewrite <- app_assoc in IH. cbn [app] in IH.
  rewrite length_app in IH. cbn [List.length] in IH.
  replace (Z.of_nat (List.length pre) + 1)
    with (Z.of_nat (List.length pre + 1)) by lia.
  rewrite IH. reflexivity.
Qed.

(** Reading backwards, one by one, to the first item. *)
Lemma slice_items_back (pre : list value) :
  forall post,
    slice_items (pre ++ post) (Z.of_nat (List.length pre) - 1) (-1) (List.length pre)
    = Ok (rev pre).
Proof.
  induction pre as [|x pre IH] using rev_ind; intros post; [reflexivity|].
  rewrite length_app, rev_app_distr. cbn [List.length rev app].
  rewrite Nat.add_1_r. cbn [slice_items].
  rewrite <- app_assoc. cbn [app].
  replace (Z.of_nat (S (List.length pre)) - 1) with (Z.of_nat (List.length pre)) by lia.
  rewrite tuple_item_app. cbn [bind].
  replace (Z.of_nat (List.length pre) + -1) with (Z.of_nat (List.length pre) - 1) by lia.
  rewrite (IH (x :: post)). reflexivity.
Qed.

Lemma adjust_bound_end (len : Z) :
  0 <= len <= PY_SSIZE_T_MAX -> adjust_bound len 1 PY_SSIZE_T_MAX = len.
Proof.
  intros H. unfold adjust_bound.
  destruct (PY_SSIZE_T_MAX <? 0) eqn:E1; [apply Z.ltb_lt in E1; lia|].
  destruct (len <=? PY_SSIZE_T_MAX) eqn:E2; [reflexivity | apply Z.leb_gt in E2; lia].
Qed.

Lemma adjust_bound_zero (len : Z) : 0 <= len -> adjust_bound len 1 0 = 0.
Proof.
  intros H. unfold adjust_bound. cbn [Z.ltb Z.compare].
  destruct (len <=? 0) eqn:E; [apply Z.leb_le in E; cbn; lia | reflexivity].
Qed.

Lemma slice_length_forward (start stop : Z) :
  start <= stop -> slice_length start stop 1 = stop - start.
Proof.
  intros H. unfold slice_length. cbn [Z.ltb Z.compare].
  destruct (start <? stop) eqn:E; [apply Z.ltb_lt in E | apply Z.ltb_ge in E; lia].
  rewrite Z.div_1_r. lia.
Qed.

(** X3. For every integer [k], also a negative one or one past the end,
    [p[:k]] and [p[k:]] are tuples that together hold the keys of [p], in
    order. *)
Theorem getitem_split (p : Path) (k : Z) :
  Z.of_nat (__len__ p) <= PY_SSIZE_T_MAX ->
  exists a b,
    __getitem__ p (VSlice VNone (VInt k) VNone) = Ok (VTuple a) /\
    __getitem__ p (VSlice (VInt k) VNone VNone) = Ok (VTuple b) /\
    (a ++ b)%list = parts p.
Proof.
  unfold __len__, __getitem__, tuple_subscript, slice_unpack, slice_index.
  cbn [index_of is_none bind Z.ltb Z.compare].
  set (len := Z.of_nat (List.length (parts p))). intros Hmax.
  assert (Hl : 0 <= len) by (unfold len; lia).
  set (c := Z.max PY_SSIZE_T_MIN (Z.min PY_SSIZE_T_MAX k)).
  rewrite (adjust_bound_end len) by lia.
  rewrite (adjust_bound_zero len) by lia.
  destruct (adjust_bound_range len 1 c Hl) as [_ Hs]. specialize (Hs ltac:(lia)).
  set (s := adjust_bound len 1 c) in *.
  rewrite !slice_length_forward by lia.
  exists (firstn (Z.to_nat s) (parts p)), (skipn (Z.to_nat s) (parts p)).
  assert (Hf : List.length (firstn (Z.to_nat s) (parts p)) = Z.to_nat s)
    by (apply firstn_length_le; unfold len in Hs; lia).
  assert (Hk : List.length (skipn (Z.to_nat s) (parts p)) = Z.to_nat (len - s))
    by (rewrite length_skipn; unfold len; lia).
  split; [|split; [|apply firstn_skipn]].
  - pose proof (slice_items_run (firstn (Z.to_nat s) (parts p)) []
                  (skipn (Z.to_nat s) (parts p))) as H.
    cbn [app List.length] in H. rewrite firstn_skipn, Hf in H.
    rewrite Z.sub_0_r. change (Z.of_nat 0) with 0 in H. rewrite H. reflexivity.
  - pose proof (slice_items_run (skipn (Z.to_nat s) (parts p))
                  (firstn (Z.to_nat s) (parts p)) []) as H.
    rewrite List.app_nil_r, firstn_skipn, Hf, Hk in H.
    rewrite Z2Nat.id in H by lia. rewrite H. reflexivity.
Qed.

Lemma getitem_split_witness :
  exists a b,
    __getitem__ (mkPath [VStr "a"; VInt 0; VStr "b"]) (VSlice VNone (VInt (-1)) VNone)
    = Ok (VTuple a) /\
    __getitem__ (mkPath [VStr "a"; VInt 0; VStr "b"]) (VSlice (VInt (-1)) VNone VNone)
    = Ok (VTuple b) /\
    (a ++ b)%list = [VStr "a"; VInt 0; VStr "b"].
Proof.
  apply (getitem_split (mkPath [VStr "a"; VInt 0; VStr "b"]) (-1)).
  vm_compute. discriminate.
Defined.

(** X4. [p[:]] is the tuple of the keys of [p] and [p[::-1]] is the tuple of
    its keys in reverse order. *)
Theorem getitem_whole_and_reversed (p : Path) :
  Z.of_nat (__len__ p) <= PY_SSIZE_T_MAX ->
  __getitem__ p (VSlice VNone VNone VNone) = Ok (VTuple (parts p)) /\
  __getitem__ p (VSlice VNone VNone (VInt (-1))) = Ok (VTuple (rev (parts p))).
Proof.
  unfold __len__, __getitem__, tuple_subscript, slice_unpack, slice_index.
  cbn [index_of is_none bind].
  set (len := Z.of_nat (List.length (parts p))). intros Hmax.
  assert (Hl : 0 <= len) by (unfold len; lia).
  split.
  - cbn [Z.ltb Z.compare]. rewrite (adjust_bound_end len) by lia.
    rewrite (adjust_bound_zero len) by lia.
    rewrite slice_length_forward by lia. rewrite Z.sub_0_r.
    pose proof (slice_items_run (parts p) [] []) as H.
    cbn [app List.length] in H. rewrite List.app_nil_r in H.
    unfold len. rewrite Nat2Z.id. change (Z.of_nat 0) with 0 in H. rewrite H.
    reflexivity.
  - assert (Hs : Z.max PY_SSIZE_T_MIN (Z.min PY_SSIZE_T_MAX (-1)) = -1) by reflexivity.
    rewrite Hs. change (-1 =? 0) with false. cbv iota.
    assert (Hm : Z.max (-1) (- PY_SSIZE_T_MAX) = -1) by reflexivity.
    rewrite Hm. cbn [bind]. change (-1 <? 0) with true. cbv iota.
    assert (Ha : adjust_bound len (-1) PY_SSIZE_T_MAX = len - 1).
    { unfold adjust_bound. change (PY_SSIZE_T_MAX <? 0) with false. cbv iota.
      destruct (len <=? PY_SSIZE_T_MAX) eqn:E; [reflexivity | apply Z.leb_gt in E; lia]. }
    assert (Hb : adjust_bound len (-1) PY_SSIZE_T_MIN = -1).
    { unfold adjust_bound. change (PY_SSIZE_T_MIN <? 0) with true. cbv iota. cbv zeta.
      destruct (PY_SSIZE_T_MIN + len <? 0) eqn:E; [reflexivity|].
      apply Z.ltb_ge in E. unfold PY_SSIZE_T_MIN in E. lia. }
    rewrite Ha, Hb.
    assert (Hn : slice_length (len - 1) (-1) (-1) = len).
    { unfold slice_length. change (-1 <? 0) with true. cbv iota.
      destruct (-1 <? len - 1) eqn:E; [apply Z.ltb_lt in E | apply Z.ltb_ge in E; lia].
      change (- -1) with 1. rewrite Z.div_1_r. lia. }
    rewrite Hn. pose proof (slice_items_back (parts p) []) as H.
    rewrite List.app_nil_r in H. unfold len. rewrite Nat2Z.id, H. reflexivity.
Qed.

Lemma getitem_whole_and_reversed_witness :
  __getitem__ (mkPath [VStr "a"; VInt 0; VStr "b"]) (VSlice VNone VNone (VInt (-1)))
  = Ok (VTuple [VStr "b"; VInt 0; VStr "a"]).
Proof.
  apply (getitem_whole_and_reversed (mkPath [VStr "a"; VInt 0; VStr "b"])).
  vm_compute. discriminate.
Defined.

(** ** The canonical string of a longer Path *)

Lemma concat_app (xs ys : list string) :
  String.concat "" (xs ++ ys) = String.concat "" xs ++ String.concat "" ys.
Proof.
  induction xs as [|x xs IH]; [reflexivity|].
  cbn [app]. rewrite !concat_cons, IH, append_assoc. reflexivity.
Qed.

(** X8. The text that the function behind the cached [__repr__] writes for
    a Path with further keys is the text it writes for the Path followed by
    what [format_part] writes for the further keys: the text of a Path
    begins with that of each of its prefixes that has a key. *)
Theorem repr_of_extended_path (keys more : list value) :
  keys <> [] ->
  __repr__wrapped (mkPath (keys ++ more))
  = __repr__wrapped (mkPath keys) ++ String.concat "" (map format_part more).
Proof.
  destruct keys as [|k ks]; [congruence|]. intros _.
  cbn [app]. rewrite !repr_cons, map_app, concat_app, append_assoc. reflexivity.
Qed.

Lemma repr_of_extended_path_witness :
  __repr__wrapped (mkPath ([VStr "a"; VInt 0] ++ [VStr "b"; VSlice VNone (VInt 2) VNone]))
  = __repr__wrapped (mkPath [VStr "a"; VInt 0]) ++ ".b[:2]".
Proof.
  apply (repr_of_extended_path [VStr "a"; VInt 0] [VStr "b"; VSlice VNone (VInt 2) VNone]).
  discriminate.
Defined.

(** ** Different Paths, different texts *)

(** X9. Two Paths of keys whose text reads back (integers, booleans,
    [None], names of letters and underscores, strings [repr] quotes as they
    are, slices of integers or [None], tuples of at most one key) that
    differ in their keys are given different texts by the function behind
    the cached [__repr__]. *)
Theorem repr_injective_on_canonical (keys keys' : list value) :
  forallb canonical_key keys = true -> forallb canonical_key keys' = true ->
  keys <> keys' -> __repr__wrapped (mkPath keys) <> __repr__wrapped (mkPath keys').
Proof.
  intros Hc Hc' Hne E. apply Hne.
  pose proof (parse_canonical keys Hc) as H.
  pose proof (parse_canonical keys' Hc') as H'.
  rewrite E, H' in H. injection H as Ht.
  pose proof (transform_children_canonical keys Hc) as T.
  pose proof (transform_children_canonical keys' Hc') as T'.
  rewrite <- Ht, T' in T. injection T as ->. reflexivity.
Qed.

Lemma repr_injective_on_canonical_witness :
  __repr__wrapped (mkPath [VStr "a"; VInt 1; VStr "1"])
  <> __repr__wrapped (mkPath [VStr "a"; VBool true; VInt 1]).
Proof.
  apply (repr_injective_on_canonical
           [VStr "a"; VInt 1; VStr "1"] [VStr "a"; VBool true; VInt 1]);
    [reflexivity | reflexivity | discriminate].
Defined.

(** ** No dot in front *)

Lemma identifier_lang_start (i : string) :
  identifier_lang i -> starts_with id_start_class i = true.
Proof.
  intros [a [r [-> [[p Ha] _]]]].
  apply matches_first in Ha.
  destruct Ha as [[_ [N _]]|[c [a' [-> Hc]]]]; [discriminate|].
  cbn [append starts_with]. unfold ID_START, Plus in Hc. cbn [first nullable] in Hc.
  destruct (id_start_class c); [reflexivity | discriminate].
Qed.

Lemma path_lang_start (text : string) :
  path_lang text ->
  text = "" \/ starts_with id_start_class text = true
  \/ starts_with (char_eqb "[") text = true.
Proof.
  intros [|i r Hi _|k r _ _].
  - left. reflexivity.
  - right. left. pose proof (identifier_lang_start i Hi) as H.
    destruct i as [|c i]; [discriminate|]. exact H.
  - right. right. reflexivity.
Qed.

Lemma parse_raises (text : string) (e : exn) :
  parse text = Raise e -> e = ParseError.
Proof.
  unfold parse. destruct (complete _) as [|[? ?] ?]; [|discriminate].
  intros H. injection H as <-. reflexivity.
Qed.

(** What the grammar does not generate is a parse error. *)
Lemma not_in_grammar (text : string) :
  ~ path_lang text -> from_str text = Raise ParseError.
Proof.
  intros H. unfold from_str. destruct (parse text) as [t|e] eqn:E.
  - exfalso. apply H. eapply parse_sound. exact E.
  - rewrite (parse_raises text e E). reflexivity.
Qed.

(** X10. A text that begins with a dot never parses, and the function
    behind the cached [__repr__] never writes one: the dot [format_part]
    writes before a name is dropped at the head of the text. *)
Theorem no_dot_in_front :
  (forall text, from_str (String "." text) = Raise ParseError) /\
  (forall p, starts_with is_dot (__repr__wrapped p) = false).
Proof.
  split.
  - intros text. apply not_in_grammar. intros H.
    apply path_lang_start in H. destruct H as [H|[H|H]]; discriminate.
  - intros [[|k ks]]; [reflexivity|]. rewrite repr_cons.
    destruct (format_part_shape k) as [[Hd [s [-> Hf]]]|[Hd [body Hf]]].
    + cbn [dotted_key first_text] in *. rewrite Hd.
      destruct s as [|c s]; [discriminate|]. cbn [append starts_with].
      destruct (is_dot c) eqn:E; [|reflexivity].
      unfold is_dot, char_eqb in E. apply Ascii.eqb_eq in E. subst c.
      cbn [isidentifier] in Hd. vm_compute in Hd. discriminate.
    + assert (Hft : first_text k = format_part k).
      { destruct k; try reflexivity. cbn [dotted_key first_text] in *. rewrite Hd. reflexivity. }
      rewrite Hft, Hf. reflexivity.
Qed.

(** ** Characters the grammar has no place for *)

Scheme key_lang_mind := Minimality for key_lang Sort Prop
  with more_keys_mind := Minimality for more_keys Sort Prop.

Lemma lang_chars (r : regex) (t : string) :
  forallb (fun c => implb (alphabet r c) (grammar_char c)) all_chars = true ->
  lang r t -> string_forallb grammar_char t = true.
Proof.
  intros Hr [p Hm]. apply matches_alphabet in Hm.
  eapply string_forallb_impl; [|exact Hm]. apply class_included. exact Hr.
Qed.

Lemma one_of_chars (rs : list regex) (t : string) :
  forallb (fun r => forallb (fun c => implb (alphabet r c) (grammar_char c)) all_chars)
    rs = true ->
  one_of rs t -> string_forallb grammar_char t = true.
Proof.
  intros Hrs [r [Hin Hl]]. rewrite forallb_forall in Hrs.
  apply (lang_chars r t (Hrs r Hin) Hl).
Qed.

Lemma optional_integer_chars (t : string) :
  optional integer_lang t -> string_forallb grammar_char t = true.
Proof.
  intros [->|H]; [reflexivity|].
  unfold integer_lang in H. eapply one_of_chars; [|exact H]. vm_compute. reflexivity.
Qed.

Lemma quoted_has_quote (q : ascii) (t : string) :
  is_quote q = true -> lang (quoted q) t -> string_existsb is_quote t = true.
Proof.
  intros Hq [p Hm]. apply (matches_needs is_quote) in Hm; [exact Hm|].
  unfold quoted. cbn [needs]. apply orb_true_iff. left.
  apply forallb_forall. intros c _. unfold Chr.
  destruct (char_eqb q c) eqn:E; [|reflexivity].
  unfold char_eqb in E. apply Ascii.eqb_eq in E. subst c. rewrite Hq. reflexivity.
Qed.

Ltac split_text :=
  repeat match goal with
    | H : string_existsb _ (_ ++ _) = false |- _ =>
        rewrite string_existsb_app in H; apply orb_false_iff in H; destruct H
    | H : string_existsb _ (String _ _) = false |- _ =>
        cbn [string_existsb] in H; apply orb_false_iff in H; destruct H
    | |- string_forallb _ (_ ++ _) = true =>
        rewrite string_forallb_app; apply andb_true_iff; split
    end.

Lemma key_lang_chars (k : string) :
  key_lang k -> string_existsb is_quote k = false ->
  string_forallb grammar_char k = true.
Proof.
  intros H.
  induction H using key_lang_mind
    with (P0 := fun ks => string_existsb is_quote ks = false ->
                          string_forallb grammar_char ks = true);
    intros Hq.
  - unfold number_lang in H. eapply one_of_chars; [|exact H]. vm_compute. reflexivity.
  - destruct H as [a b Ha Hb|a b c Ha Hb Hc]; split_text;
      auto using optional_integer_chars.
  - destruct H as [-> | ->]; reflexivity.
  - rewrite H. reflexivity.
  - exfalso. destruct H as [H|H]; apply quoted_has_quote in H;
      try reflexivity; congruence.
  - reflexivity.
  - split_text; auto.
  - split_text; auto.
  - split_text; auto.
  - split_text; auto.
  - split_text; auto.
Qed.

Lemma identifier_lang_chars (i : string) :
  identifier_lang i -> string_forallb grammar_char i = true.
Proof.
  intros [a [r [-> [Ha Hr]]]]. rewrite string_forallb_app. apply andb_true_iff. split.
  - apply (lang_chars ID_START a); [vm_compute; reflexivity | exact Ha].
  - induction Hr as [|c r Hc _ IH]; [reflexivity|].
    rewrite string_forallb_app, IH, andb_true_r.
    apply (lang_chars ID_CONTINUE c); [vm_compute; reflexivity | exact Hc].
Qed.

Lemma segments_lang_chars (t : string) :
  segments_lang t -> string_existsb is_quote t = false ->
  string_forallb grammar_char t = true.
Proof.
  induction 1 as [|i r Hi _ IH|k r Hk _ IH]; intros Hq; [reflexivity| |];
    split_text; auto using identifier_lang_chars, key_lang_chars.
Qed.

Lemma path_lang_chars (t : string) :
  path_lang t -> string_existsb is_quote t = false ->
  string_forallb grammar_char t = true.
Proof.
  intros [|i r Hi Hr|k r Hk Hr] Hq; [reflexivity| |]; split_text;
    auto using identifier_lang_chars, key_lang_chars, segments_lang_chars.
Qed.

Lemma forallb_existsb_negb (f : ascii -> bool) (s : string) :
  string_forallb f s = true -> string_existsb (fun c => negb (f c)) s = false.
Proof.
  induction s as [|c s IH]; [reflexivity|]. cbn [string_forallb string_existsb].
  intros H. apply andb_true_iff in H. destruct H as [Hc Hs].
  rewrite Hc, (IH Hs). reflexivity.
Qed.

(** A text without quotes that holds a character of no terminal and no
    literal is a parse error. *)
Lemma foreign_char_rejected (text : string) :
  string_existsb is_quote text = false ->
  string_existsb (fun c => negb (grammar_char c)) text = true ->
  from_str text = Raise ParseError.
Proof.
  intros Hq Hf. apply not_in_grammar. intros H.
  apply path_lang_chars in H; [|exact Hq].
  apply forallb_existsb_negb in H. congruence.
Qed.

(** X11. White space is no character of the grammar outside string
    literals: a text without quote characters that holds a blank, a tab, a
    line end, or any other character that no terminal and no literal of the
    grammar can match, is rejected with a parse error. *)
Theorem from_str_rejects_foreign_characters :
  (forall c, is_space c = true -> grammar_char c = false) /\
  (forall text,
     string_existsb is_quote text = false ->
     string_existsb (fun c => negb (grammar_char c)) text = true ->
     from_str text = Raise ParseError).
Proof.
  split; [|exact foreign_char_rejected].
  assert (H : forallb (fun c => implb (is_space c) (negb (grammar_char c))) all_chars
              = true) by (vm_compute; reflexivity).
  intros c Hc. pose proof (class_included _ _ H c Hc) as Hn.
  apply negb_true_iff in Hn. exact Hn.
Qed.

Lemma from_str_rejects_foreign_characters_witness :
  grammar_char " " = false /\
  from_str "a .b" = Raise ParseError /\
  from_str "[1, 2]" = Raise ParseError /\
  from_str "a/b" = Raise ParseError.
Proof.
  destruct from_str_rejects_foreign_characters as [Hs Hr].
  split; [apply Hs; reflexivity|].
  repeat split; apply Hr; reflexivity.
Defined.

(** ** Tuples of two or more keys *)

Lemma existsb_negb_forallb (f : ascii -> bool) (s : string) :
  string_forallb (fun c => negb (f c)) s = true -> string_existsb f s = false.
Proof.
  induction s as [|c s IH]; [reflexivity|]. cbn [string_forallb string_existsb].
  intros H. apply andb_true_iff in H. destruct H as [Hc Hs].
  apply negb_true_iff in Hc. rewrite Hc, (IH Hs). reflexivity.
Qed.

Lemma int_repr_no_quote (z : Z) : string_existsb is_quote (int_repr z) = false.
Proof.
  apply existsb_negb_forallb.
  eapply string_forallb_impl; [|exact (int_text_chars _ (int_repr_is_int_text z))].
  apply class_included. vm_compute. reflexivity.
Qed.

Lemma join_no_quote (l : list string) :
  Forall (fun s => string_existsb is_quote s = false) l ->
  string_existsb is_quote (join ", " l) = false.
Proof.
  induction 1 as [|x l Hx Hl IH]; [reflexivity|].
  destruct l as [|y l]; [exact Hx|].
  change (join ", " (x :: y :: l)) with (x ++ ", " ++ join ", " (y :: l)).
  rewrite !string_existsb_app, Hx, IH. reflexivity.
Qed.

Lemma plain_no_quote (v : value) :
  plain v = true -> string_existsb is_quote (py_repr v) = false.
Proof.
  induction v as [z|b|f|re im|s| |a b c Ha Hb Hc|items IH|items IH] using value_ind;
    try discriminate; intros Hp.
  - apply int_repr_no_quote.
  - destruct b; reflexivity.
  - reflexivity.
  - cbn [plain] in Hp.
    assert (Hj : string_existsb is_quote (join ", " (map py_repr items)) = false).
    { apply join_no_quote. apply Forall_map.
      rewrite forallb_forall in Hp. rewrite Forall_forall in IH |- *.
      intros x Hx. apply (IH x Hx), (Hp x Hx). }
    cbn [py_repr]. destruct items as [|x [|y l]].
    + reflexivity.
    + cbn [map join] in Hj. cbn [append string_existsb].
      rewrite string_existsb_app, Hj. reflexivity.
    + cbn [append string_existsb]. rewrite string_existsb_app, Hj. reflexivity.
Qed.

Lemma wide_tuple_has_blank (a b : value) (more : list value) :
  string_existsb (fun c => negb (grammar_char c))
    (py_repr (VTuple (a :: b :: more))) = true.
Proof.
  cbn [py_repr map].
  change (join ", " (py_repr a :: py_repr b :: map py_repr more))
    with (py_repr a ++ ", " ++ join ", " (py_repr b :: map py_repr more)).
  cbn [append string_existsb]. rewrite !string_existsb_app.
  cbn [append string_existsb].
  replace (negb (grammar_char " ")) with true by (vm_compute; reflexivity).
  rewrite !orb_true_r. reflexivity.
Qed.

Lemma plain_format (k : value) :
  plain k = true -> format_part k = "[" ++ py_repr k ++ "]".
Proof. destruct k; try discriminate; reflexivity. Qed.

Lemma plain_valid (v : value) : plain v = true -> _is_valid_part v = true.
Proof.
  induction v as [z|b|f|re im|s| |a b c Ha Hb Hc|items IH|items IH] using value_ind;
    try discriminate; try reflexivity.
  cbn [plain _is_valid_part]. intros Hp.
  rewrite forallb_forall in Hp |- *. rewrite Forall_forall in IH.
  intros x Hx. apply (IH x Hx), (Hp x Hx).
Qed.

Lemma concat_plain_no_quote (keys : list value) :
  forallb plain keys = true ->
  string_existsb is_quote (String.concat "" (map format_part keys)) = false.
Proof.
  induction keys as [|k keys IH]; [reflexivity|]. cbn [forallb map]. intros H.
  apply andb_true_iff in H. destruct H as [Hk Hks].
  rewrite concat_cons, string_existsb_app, (IH Hks), (plain_format k Hk).
  cbn [append string_existsb]. rewrite string_existsb_app, (plain_no_quote k Hk).
  reflexivity.
Qed.

Lemma concat_has_blank (keys : list value) (a b : value) (more : list value) :
  forallb plain keys = true -> In (VTuple (a :: b :: more)) keys ->
  string_existsb (fun c => negb (grammar_char c))
    (String.concat "" (map format_part keys)) = true.
Proof.
  induction keys as [|k keys IH]; [intros _ []|]. cbn [forallb map]. intros H Hin.
  apply andb_true_iff in H. destruct H as [Hk Hks].
  rewrite concat_cons, string_existsb_app. apply orb_true_iff.
  destruct Hin as [->|Hin]; [left | right; apply IH; assumption].
  rewrite (plain_format _ Hk). cbn [append string_existsb].
  rewrite string_existsb_app, wide_tuple_has_blank. rewrite orb_true_r. reflexivity.
Qed.

Lemma repr_plain (keys : list value) :
  forallb plain keys = true ->
  __repr__wrapped (mkPath keys) = String.concat "" (map format_part keys).
Proof.
  destruct keys as [|k keys]; [reflexivity|]. cbn [forallb]. intros H.
  apply andb_true_iff in H. destruct H as [Hk _].
  unfold __repr__wrapped. cbn [parts map]. rewrite concat_cons, (plain_format k Hk).
  reflexivity.
Qed.

(** X12. A Path of integers, booleans, [None] and tuples of these, one of
    its keys a tuple of two or more, can be constructed, and the text that
    the function behind the cached [__repr__] writes for it does not parse:
    the [repr] of a tuple has a blank after each comma. *)
Theorem wide_tuple_does_not_read_back
    (keys : list value) (a b : value) (more : list value) :
  forallb plain keys = true -> In (VTuple (a :: b :: more)) keys ->
  __init__ keys = Ok (mkPath keys) /\
  from_str (__repr__wrapped (mkPath keys)) = Raise ParseError.
Proof.
  intros Hp Hin. split.
  - unfold __init__. cbn [_is_valid_part].
    replace (forallb _is_valid_part keys) with true; [reflexivity|].
    symmetry. rewrite forallb_forall in Hp |- *. intros x Hx.
    apply plain_valid, (Hp x Hx).
  - rewrite (repr_plain keys Hp). apply foreign_char_rejected.
    + apply concat_plain_no_quote. exact Hp.
    + apply (concat_has_blank keys a b more Hp Hin).
Qed.

Lemma wide_tuple_does_not_read_back_witness :
  let keys := [VInt 0; VTuple [VInt 1; VTuple [VNone]; VBool true]] in
  __repr__wrapped (mkPath keys) = "[0][(1, (None,), True)]" /\
  from_str (__repr__wrapped (mkPath keys)) = Raise ParseError.
Proof.
  cbv zeta. split; [reflexivity|].
  apply (wide_tuple_does_not_read_back
           [VInt 0; VTuple [VInt 1; VTuple [VNone]; VBool true]]
           (VInt 1) (VTuple [VNone]) [VBool true]);
    [reflexivity | right; left; reflexivity].
Defined.

(** ** A name with digits *)

Lemma digits_not_id_start (d : string) :
  string_forallb digit d = true -> starts_with id_start_class d = false.
Proof.
  destruct d as [|c d]; [reflexivity|]. cbn [string_forallb starts_with]. intros H.
  apply andb_true_iff in H. destruct H as [Hc _].
  apply (disjoint_classes_spec digit); [vm_compute; reflexivity | assumption].
Qed.

Lemma terminal_continue_digits (d : string) :
  nonempty d = true -> string_forallb digit d = true ->
  terminal ID_CONTINUE d = [(d, "")].
Proof.
  intros Hn Hd. unfold terminal, ID_CONTINUE. cbn [rmatch].
  assert (H1 : rmatch ID_START None d = []).
  { destruct d as [|c d]; [discriminate|]. apply rmatch_first; [reflexivity|].
    pose proof (digits_not_id_start _ Hd) as H. cbn [starts_with] in H.
    unfold ID_START, Plus. cbn [first nullable]. rewrite H. reflexivity. }
  fold ID_START. rewrite H1. cbn [app].
  destruct (plus_greedy id_continue_class d "" None) as [p' [l' E]];
    [reflexivity| |assumption|].
  { eapply string_forallb_impl; [|exact Hd]. apply class_included.
    vm_compute. reflexivity. }
  rewrite append_nil_r in E. rewrite E. reflexivity.
Qed.

Lemma segment_rejects fuel s :
  starts_with (char_eqb ".") s = false -> starts_with (char_eqb "[") s = false ->
  segment fuel s = [].
Proof.
  intros Hd Hb. unfold segment, alt.
  rewrite (item_rejects fuel s Hb), List.app_nil_r.
  apply cat_nil_l. destruct s as [|c s]; [reflexivity|].
  apply skip_rejects. exact Hd.
Qed.

Lemma identifier_name_digits (a d : string) :
  nonempty a = true -> string_forallb id_start_class a = true ->
  nonempty d = true -> string_forallb digit d = true ->
  identifier (a ++ d)
  = [(Tree r_identifier [Token a; Token d], "");
     (Tree r_identifier [Token a], d)].
Proof.
  intros Hna Ha Hnd Hd. unfold identifier, cat, seq, token1, pmap. cbv beta.
  assert (H1 : terminal ID_START (a ++ d) = [(a, d)]).
  { apply terminal_first. apply plus_greedy; try assumption.
    apply digits_not_id_start. assumption. }
  rewrite H1. cbn [map flat_map].
  assert (Hlen : exists f, String.length (a ++ d) = S f).
  { destruct a as [|c a]; [discriminate|]. cbn [append String.length]. eexists. reflexivity. }
  destruct Hlen as [f ->]. cbn [many]. unfold alt, seq.
  rewrite (terminal_continue_digits d Hnd Hd). cbn [flat_map].
  rewrite (many_none (terminal ID_CONTINUE) f "")
    by (apply terminal_rejects; reflexivity).
  reflexivity.
Qed.

Lemma digits_isidentifier (a d : string) :
  nonempty a = true -> string_forallb id_start_class a = true ->
  string_forallb digit d = true -> isidentifier (a ++ d) = true.
Proof.
  intros Hn Ha Hd. destruct a as [|c a]; [discriminate|].
  cbn [append isidentifier]. cbn [string_forallb] in Ha.
  apply andb_true_iff in Ha. destruct Ha as [Hc Ha].
  apply andb_true_iff. split.
  - revert Hc. apply (class_included id_start_class
                        (fun c => (xid_start c || N.eqb (ord c) 95)%bool)).
    vm_compute. reflexivity.
  - rewrite string_forallb_app. apply andb_true_iff. split.
    + eapply string_forallb_impl; [|exact Ha]. apply class_included.
      vm_compute. reflexivity.
    + eapply string_forallb_impl; [|exact Hd]. apply class_included.
      vm_compute. reflexivity.
Qed.

(** X14. A name of letters followed by digits is a name for [format_part],
    which writes it after a dot as it is, and parsing the name gives the
    Path of the letters alone: the identifier callback keeps the first of
    the two tokens. *)
Theorem name_with_digits_is_cut (a d : string) :
  nonempty a = true -> string_forallb id_start_class a = true ->
  nonempty d = true -> string_forallb digit d = true ->
  format_part (VStr (a ++ d)) = "." ++ a ++ d /\
  from_str (a ++ d) = Ok (mkPath [VStr a]).
Proof.
  intros Hna Ha Hnd Hd. split.
  - cbn [format_part].
    rewrite (digits_isidentifier a d Hna Ha Hd). reflexivity.
  - assert (Hb : starts_with (char_eqb "[") (a ++ d) = false)
      by (apply name_not_bracket; assumption).
    assert (Hd1 : starts_with (char_eqb ".") d = false).
    { destruct d as [|c d]; [reflexivity|]. cbn [string_forallb starts_with] in *.
      apply andb_true_iff in Hd. destruct Hd as [Hc _].
      apply (disjoint_classes_spec digit); [vm_compute; reflexivity | assumption]. }
    assert (Hd2 : starts_with (char_eqb "[") d = false).
    { destruct d as [|c d]; [reflexivity|]. cbn [string_forallb starts_with] in *.
      apply andb_true_iff in Hd. destruct Hd as [Hc _].
      apply (disjoint_classes_spec digit); [vm_compute; reflexivity | assumption]. }
    assert (Hp : parse (a ++ d)
                 = Ok (PathTree [Tree r_identifier [Token a; Token d]])).
    { unfold parse, path, maybe, alt, pure, cat, seq, segment_first, alt, pmap.
      rewrite (identifier_name_digits a d Hna Ha Hnd Hd).
      rewrite (item_rejects _ _ Hb). cbn [map app flat_map].
      rewrite (many_none (segment _) _ "") by reflexivity.
      rewrite (many_none (segment _) _ d) by (apply segment_rejects; assumption).
      cbn [map app]. unfold complete. cbn [filter is_empty nonempty negb].
      reflexivity. }
    unfold from_str. rewrite Hp. reflexivity.
Qed.

Lemma name_with_digits_is_cut_witness :
  format_part (VStr "item42") = ".item42" /\
  from_str "item42" = Ok (mkPath [VStr "item"]).
Proof.
  apply (name_with_digits_is_cut "item" "42"); reflexivity.
Defined.

(** ** What [from_str] can build *)

Ltac break_in H :=
  repeat (match type of H with
          | context [bind ?r _] => destruct r eqn:?; cbn [bind] in H
          | context [match ?x with _ => _ end] => destruct x eqn:?
          end; try discriminate).

Lemma radix_literal_number base ds v : radix_literal base ds = Ok v -> is_number v = true.
Proof. unfold radix_literal. intros H. break_in H. injection H as <-. reflexivity. Qed.

Lemma decimal_literal_number u v : decimal_literal u = Ok v -> is_number v = true.
Proof. unfold decimal_literal. intros H. break_in H; injection H as <-; reflexivity. Qed.

Lemma unsigned_literal_number u v : unsigned_literal u = Ok v -> is_number v = true.
Proof.
  unfold unsigned_literal. intros H.
  destruct u as [|c [|x ds]]; try (apply decimal_literal_number in H; exact H).
  destruct (char_eqb c "0" && is_x x)%bool; [apply radix_literal_number in H; exact H|].
  destruct (char_eqb c "0" && is_o x)%bool; [apply radix_literal_number in H; exact H|].
  destruct (char_eqb c "0" && is_b x)%bool; [apply radix_literal_number in H; exact H|].
  apply decimal_literal_number in H. exact H.
Qed.

Lemma negate_number v : is_number v = true -> is_number (negate v) = true.
Proof. destruct v; try discriminate; reflexivity. Qed.

Lemma signed_literal_number t v : signed_literal t = Ok v -> is_number v = true.
Proof.
  unfold signed_literal. destruct (split_sign false t) as [neg u].
  destruct (unsigned_literal u) as [w|e] eqn:E; [|discriminate]. cbn [bind].
  intros H. injection H as <-. apply unsigned_literal_number in E.
  destruct neg; [apply negate_number|]; exact E.
Qed.

Lemma complex_literal_number body v : complex_literal body = Ok v -> is_number v = true.
Proof.
  unfold complex_literal. destruct (split_sign false body) as [neg rest].
  intros H. break_in H; injection H as <-; reflexivity.
Qed.

Lemma literal_eval_number text v : literal_eval text = Ok v -> is_number v = true.
Proof.
  unfold literal_eval. destruct text as [|c r]; [discriminate|].
  destruct (char_eqb c "(").
  - destruct (last_char r) as [e|]; [|discriminate].
    destruct (char_eqb e ")"); [|discriminate]. apply complex_literal_number.
  - apply signed_literal_number.
Qed.

Lemma skipn_next {A} (l : list A) :
  forall i x, In x (skipn (S i) l) -> In x (skipn i l).
Proof.
  induction l as [|y l IH]; intros i x Hx; [destruct i; exact Hx|].
  destruct i as [|i]; [right; exact Hx|]. apply (IH i x Hx).
Qed.

Lemma set_item_opt sargs i v out :
  forallb opt_int sargs = true -> opt_int v = true ->
  PathTransformer.set_item sargs i v = Ok out -> forallb opt_int out = true.
Proof.
  unfold PathTransformer.set_item. intros Hs Hv H.
  destruct (Nat.ltb i (List.length sargs)); [|discriminate]. injection H as <-.
  rewrite <- (firstn_skipn i sargs) in Hs. rewrite forallb_app in Hs |- *.
  apply andb_true_iff in Hs. destruct Hs as [H1 H2]. rewrite H1. cbn [forallb andb].
  rewrite Hv. cbn [andb].
  rewrite forallb_forall in H2 |- *. intros x Hx. apply H2.
  apply (skipn_next sargs i x Hx).
Qed.

Lemma slice_loop_opt args : forall i sargs out,
  forallb opt_int sargs = true ->
  PathTransformer.slice_loop args i sargs = Ok out -> forallb opt_int out = true.
Proof.
  induction args as [|a rest IH]; intros i sargs out Hs H.
  - injection H as <-. exact Hs.
  - cbn [PathTransformer.slice_loop] in H.
    destruct (py_eq a (VStr ":")); [apply (IH _ _ _ Hs H)|].
    destruct a; try discriminate.
    + destruct (py_int s) as [n|e]; [|discriminate]. cbn [bind] in H.
      destruct (PathTransformer.set_item sargs i (VInt n)) as [sargs'|e] eqn:E;
        [|discriminate]. cbn [bind] in H.
      apply (IH _ _ _ (set_item_opt sargs i (VInt n) sargs' Hs eq_refl E) H).
    + cbn [bind] in H.
      destruct (PathTransformer.set_item sargs i VNone) as [sargs'|e] eqn:E;
        [|discriminate]. cbn [bind] in H.
      apply (IH _ _ _ (set_item_opt sargs i VNone sargs' Hs eq_refl E) H).
Qed.

Lemma visit_ok {A} (r : result A) (a : A) :
  PathTransformer.visit r = Ok a -> r = Ok a.
Proof. destruct r; [intros H; exact H | discriminate]. Qed.

Lemma callback_parsed data args v :
  forallb parsed_key args = true ->
  PathTransformer.callback data args = Ok v -> parsed_key v = true.
Proof.
  intros Ha H. destruct data; cbn [PathTransformer.callback] in H.
  - unfold PathTransformer.identifier in H. destruct args; [discriminate|].
    injection H as <-. reflexivity.
  - unfold PathTransformer.slice_key in H.
    destruct (PathTransformer.slice_loop args 0 [VNone; VNone; VNone]) as [sargs|e] eqn:E;
      [|discriminate]. cbn [bind] in H.
    apply slice_loop_opt in E; [|reflexivity].
    destruct sargs as [|a [|b [|c [|d l]]]]; try discriminate. injection H as <-.
    cbn [forallb] in E. rewrite andb_true_r in E. cbn [parsed_key].
    rewrite <- andb_assoc. exact E.
  - unfold PathTransformer.number in H. destruct args as [|a l]; [discriminate|].
    destruct a; try discriminate. apply literal_eval_number in H.
    destruct v; try discriminate; reflexivity.
  - injection H as <-. reflexivity.
  - unfold PathTransformer.boolean in H. destruct args as [|a l]; [discriminate|].
    destruct a; try discriminate.
    destruct (String.eqb s "True"); [injection H as <-; reflexivity|].
    destruct (String.eqb s "False"); [injection H as <-; reflexivity|discriminate].
  - unfold PathTransformer.string in H. destruct args as [|a l]; [discriminate|].
    destruct a; try discriminate. injection H as <-. reflexivity.
  - injection H as <-. exact Ha.
Qed.

Lemma transform_tree_unfold data children :
  PathTransformer.transform_tree (Tree data children)
  = (args <- PathTransformer.transform_children children ;;
     PathTransformer.visit (PathTransformer.callback data args)).
Proof.
  cbn [PathTransformer.transform_tree]. f_equal.
Qed.

Lemma transform_children_parsed (cs : list tree) :
  Forall (fun t => forall v, PathTransformer.transform_tree t = Ok v ->
                             parsed_key v = true) cs ->
  forall args, PathTransformer.transform_children cs = Ok args ->
               forallb parsed_key args = true.
Proof.
  induction 1 as [|c r Hc _ IH]; intros args H.
  - injection H as <-. reflexivity.
  - cbn [PathTransformer.transform_children] in H.
    destruct (PathTransformer.transform_tree c) as [x|e] eqn:Ex; [|discriminate].
    cbn [bind] in H.
    destruct (PathTransformer.transform_children r) as [xs|e] eqn:Exs; [|discriminate].
    cbn [bind] in H. injection H as <-. cbn [forallb].
    rewrite (Hc x eq_refl), (IH xs eq_refl). reflexivity.
Qed.

Lemma transform_tree_parsed (t : tree) :
  forall v, PathTransformer.transform_tree t = Ok v -> parsed_key v = true.
Proof.
  induction t as [text|data children IH] using tree_ind; intros v H.
  - injection H as <-. reflexivity.
  - rewrite transform_tree_unfold in H.
    destruct (PathTransformer.transform_children children) as [args|e] eqn:E;
      [|discriminate]. cbn [bind] in H. apply visit_ok in H.
    apply (callback_parsed data args v); [|exact H].
    apply (transform_children_parsed children IH args E).
Qed.

(** X16. Every key of a Path that [from_str] returns is a number, a
    boolean, [None], a string, a slice whose start, stop and step are each an
    integer or [None], or a tuple of such keys: no parsed slice has a bound
    that is not an integer, and the Path passes the validation of its
    constructor. *)
Theorem from_str_builds_parsed_keys (text : string) (p : Path) :
  from_str text = Ok p ->
  forallb parsed_key (parts p) = true /\ __init__ (parts p) = Ok p.
Proof.
  unfold from_str. intros H.
  destruct (parse text) as [[children]|e]; [|discriminate]. cbn [bind] in H.
  unfold PathTransformer.transform in H.
  destruct (PathTransformer.transform_children children) as [args|e] eqn:E;
    [|discriminate]. cbn [bind] in H. apply visit_ok in H.
  unfold PathTransformer.path in H.
  assert (Hp : p = mkPath args).
  { unfold __init__ in H. destruct (negb _); [discriminate|]. injection H as <-.
    reflexivity. }
  subst p. cbn [parts]. split; [|exact H].
  apply (transform_children_parsed children); [|exact E].
  apply Forall_forall. intros t _. apply transform_tree_parsed.
Qed.

Lemma from_str_builds_parsed_keys_witness :
  forallb parsed_key
    [VStr "a"; VSlice (VInt 1) VNone (VInt (-2)); VTuple [VStr "x"; VSlice VNone VNone VNone]]
  = true.
Proof.
  apply (from_str_builds_parsed_keys "a[1::-2][('x',:)]"
           (mkPath [VStr "a"; VSlice (VInt 1) VNone (VInt (-2));
                    VTuple [VStr "x"; VSlice VNone VNone VNone]])).
  vm_compute. reflexivity.
Defined.

(** ** Integers written with zeros in front *)

Lemma dec_value_digits (d : string) :
  string_forallb digit d = true -> exists n, dec_value d = Some n.
Proof.
  unfold dec_value. intros Hd.
  assert (H : exists u, NilEmpty.uint_of_string d = Some u).
  { induction d as [|c d IH]; [eexists; reflexivity|].
    cbn [string_forallb] in Hd. apply andb_true_iff in Hd. destruct Hd as [Hc Hd].
    destruct (IH Hd) as [u Hu]. cbn [NilEmpty.uint_of_string]. rewrite Hu.
    destruct c as [[] [] [] [] [] [] [] []]; try discriminate; eexists; reflexivity. }
  destruct H as [u ->]. eexists. reflexivity.
Qed.

Lemma literal_eval_leading_zero (d : string) :
  string_forallb digit d = true -> starts_with (char_eqb "0") d = true ->
  string_forallb (char_eqb "0") d = false ->
  literal_eval d = Raise SyntaxError.
Proof.
  intros Hd H0 Hz. destruct d as [|c d]; [discriminate|].
  cbn [starts_with] in H0. unfold char_eqb in H0. apply Ascii.eqb_eq in H0. subst c.
  unfold literal_eval. change (char_eqb "0" "(") with false. cbv iota.
  unfold signed_literal. cbn [split_sign]. change (char_eqb "0" "-") with false.
  cbv iota. cbn [andb].
  assert (Hu : unsigned_literal (String "0" d) = decimal_literal (String "0" d)).
  { unfold unsigned_literal. destruct d as [|x ds]; [reflexivity|].
    cbn [string_forallb] in Hd. apply andb_true_iff in Hd. destruct Hd as [_ Hd].
    apply andb_true_iff in Hd. destruct Hd as [Hx _].
    assert (Hnx : is_x x = false)
      by (apply (disjoint_classes_spec digit); [vm_compute; reflexivity | assumption]).
    assert (Hno : is_o x = false)
      by (apply (disjoint_classes_spec digit); [vm_compute; reflexivity | assumption]).
    assert (Hnb : is_b x = false)
      by (apply (disjoint_classes_spec digit); [vm_compute; reflexivity | assumption]).
    rewrite Hnx, Hno, Hnb. rewrite !andb_false_r. reflexivity. }
  rewrite Hu. unfold decimal_literal.
  destruct (last_char_nonempty (String "0" d) eq_refl) as [c Hc]. rewrite Hc.
  assert (Hj : is_j c = false).
  { apply (disjoint_classes_spec digit); [vm_compute; reflexivity|].
    apply (last_char_forallb digit (String "0" d) c Hd Hc). }
  rewrite Hj, Hd. cbn [starts_with]. change (char_eqb "0" "0") with true.
  rewrite Hz. reflexivity.
Qed.

Lemma parse_bracketed fuel body t :
  key fuel (body ++ "]") = [(t, "]")] ->
  complete (path fuel (String "[" (body ++ "]"))) = [(PathTree [t], "")].
Proof.
  intros Hk. unfold path, maybe, alt, pure, segment_first, alt, cat, seq, pmap.
  rewrite (identifier_rejects (String "[" (body ++ "]"))) by reflexivity.
  rewrite (item_of_key fuel body t "" Hk). cbn [map app flat_map].
  rewrite (many_none (segment fuel) fuel "") by reflexivity.
  reflexivity.
Qed.

(** X18. A run of digits with a zero in front that is not all zeros is read
    in two ways: as a key, [ast.literal_eval] turns it down and [from_str]
    raises a VisitError; as the start of a slice, [int] reads it and
    [from_str] gives the slice that starts there. *)
Theorem leading_zeros_key_and_slice (d : string) :
  string_forallb digit d = true -> starts_with (char_eqb "0") d = true ->
  string_forallb (char_eqb "0") d = false ->
  from_str ("[" ++ d ++ "]") = Raise (VisitError SyntaxError) /\
  exists n, dec_value d = Some n /\
            from_str ("[" ++ d ++ ":]")
            = Ok (mkPath [VSlice (VInt (Z.of_N n)) VNone VNone]).
Proof.
  intros Hd H0 Hz.
  assert (Hn : nonempty d = true) by (destruct d; [discriminate | reflexivity]).
  pose proof (is_int_text_digits d Hd Hn) as Ht.
  destruct (dec_value_digits d Hd) as [n Hv].
  split; [|exists n; split; [exact Hv|]].
  - assert (Hp : parse ("[" ++ d ++ "]") = Ok (PathTree [Tree r_number [Token d]])).
    { unfold parse. cbn [append].
      rewrite (parse_bracketed _ d (Tree r_number [Token d]));
        [reflexivity | apply key_of_int; [exact Ht | reflexivity]]. }
    unfold from_str. rewrite Hp. cbn [bind].
    unfold PathTransformer.transform.
    cbn [PathTransformer.transform_children PathTransformer.transform_tree bind
         PathTransformer.callback PathTransformer.number].
    rewrite (literal_eval_leading_zero d Hd H0 Hz). reflexivity.
  - assert (Hk : forall fuel,
               key fuel (d ++ ":" ++ "]") = [(Tree r_number [Token d], ":]");
                                             (Tree r_slice_key [Token d; Token ":"], "]")]).
    { intros fuel. cbn [append].
      rewrite key_rest_rejects by int_side.
      rewrite number_int by int_side.
      unfold slice_key, pmap, alt. eval_slice. reflexivity. }
    assert (Hp : parse ("[" ++ d ++ ":]")
                 = Ok (PathTree [Tree r_slice_key [Token d; Token ":"]])).
    { unfold parse. cbn [append].
      unfold path, maybe, alt, pure, segment_first, alt, cat, seq, pmap.
      rewrite (identifier_rejects (String "[" (d ++ ":]"))) by reflexivity.
      rewrite item_closed. cbn [append] in Hk. rewrite Hk.
      cbn [closed flat_map].
      change (char_eqb "]" ":") with false. change (char_eqb "]" "]") with true.
      cbv iota. cbn [app flat_map map].
      rewrite (many_none (segment _) _ "") by reflexivity. reflexivity. }
    unfold from_str. rewrite Hp. cbn [bind].
    unfold PathTransformer.transform.
    cbn [PathTransformer.transform_children PathTransformer.transform_tree bind
         PathTransformer.callback].
    unfold PathTransformer.slice_key.
    assert (Hc : py_eq (VStr d) (VStr ":") = false).
    { cbn [py_eq]. apply (int_text_not_colon d Ht). }
    cbn [PathTransformer.slice_loop]. rewrite Hc.
    assert (Hi : py_int d = Ok (Z.of_N n)).
    { unfold py_int. rewrite (split_sign_digits true d Hd). rewrite Hn, Hd, Hv. reflexivity. }
    rewrite Hi. reflexivity.
Qed.

Lemma leading_zeros_key_and_slice_witness :
  from_str "[007]" = Raise (VisitError SyntaxError) /\
  exists n, dec_value "007" = Some n /\
            from_str "[007:]" = Ok (mkPath [VSlice (VInt (Z.of_N n)) VNone VNone]).
Proof.
  apply (leading_zeros_key_and_slice "007"); reflexivity.
Defined.

(** ** Hexadecimal integers *)

Lemma first_is_hex hs tail p :
  string_forallb hex_class hs = true -> starts_with hex_class tail = false ->
  first_is (rmatch HEX_NUMBER p (String "0" (String "x" (hs ++ tail))))
    (String "0" (String "x" hs)) tail.
Proof.
  intros Hh Ht. unfold HEX_NUMBER.
  apply (first_is_cat (Opt (Chr "-")) _ p _ ""
           (String "0" (String "x" (hs ++ tail))) (String "0" (String "x" hs)) tail).
  - apply first_is_opt_skip. reflexivity.
  - intros p1.
    apply (first_is_cat (Chr "0") _ p1 _ (String "0" "")
             (String "x" (hs ++ tail)) (String "x" hs) tail).
    + apply first_is_chr.
    + intros p2.
      apply (first_is_cat (ChrI "x" "X") _ p2 _ (String "x" "") (hs ++ tail) hs tail).
      * apply first_is_cls. reflexivity.
      * intros p3. apply star_greedy; assumption.
Qed.

Lemma rmatch_after_zero P r p rest :
  needs P r = true -> P "0"%char = false ->
  starts_with (alphabet r) rest = false ->
  rmatch r p (String "0" rest) = [].
Proof.
  intros N H0 Hr. apply (rmatch_needs P r p "0" rest N Hr).
  cbn [string_existsb]. rewrite H0. reflexivity.
Qed.

Lemma nodup_two (a b : string * string) :
  a <> b -> nodup token_eq_dec [a; b] = [a; b].
Proof.
  intros H. cbn [nodup]. destruct (in_dec token_eq_dec a [b]) as [[E|[]]|_].
  - congruence.
  - destruct (in_dec token_eq_dec b []) as [[]|_]. reflexivity.
Qed.

Lemma nodup_three (a b : string * string) :
  a <> b -> nodup token_eq_dec [a; b; a] = [b; a].
Proof.
  intros H. cbn [nodup]. destruct (in_dec token_eq_dec a [b; a]) as [_|N].
  - apply nodup_two. congruence.
  - exfalso. apply N. right. left. reflexivity.
Qed.

Section Hex.

Variable hs tail : string.
Hypothesis Hh : string_forallb hex_class hs = true.
Hypothesis Ht : starts_with delimiter tail = true.

Let text : string := String "0" (String "x" hs).
Let rest : string := String "x" (hs ++ tail).

Lemma hex_tail : starts_with hex_class tail = false.
Proof.
  apply (starts_with_disjoint delimiter); [vm_compute; reflexivity | exact Ht].
Qed.

Lemma terminal_hex : terminal HEX_NUMBER (String "0" rest) = [(text, tail)].
Proof. apply terminal_first. apply first_is_hex; [exact Hh | exact hex_tail]. Qed.

Lemma terminal_dec_hex : terminal DEC_NUMBER (String "0" rest) = [("0", rest)].
Proof.
  apply terminal_first. apply (first_is_dec "0" rest None); reflexivity.
Qed.

Lemma terminal_float_hex : terminal FLOAT_NUMBER (String "0" rest) = [("0", rest)].
Proof.
  apply terminal_first. rewrite float_number_unfold.
  apply (first_is_cat (Opt (Chr "-")) unsigned_number None _ ""
           (String "0" rest) "0" rest).
  - apply first_is_opt_skip. reflexivity.
  - intros p1. apply first_is_alt_l.
    apply (first_is_cat _ (Opt exponent) p1 _ "0" rest "" rest).
    + apply first_is_alt_r.
      * apply (rmatch_after_zero is_dot); reflexivity.
      * apply first_is_alt_r.
        -- apply (rmatch_after_zero is_dot); reflexivity.
        -- apply (plus_greedy digit "0" rest); reflexivity.
    + intros p2. apply first_is_opt_skip. apply rmatch_starts_not; reflexivity.
Qed.

Lemma hex_tokens_differ : ("0", rest) <> (text, tail).
Proof. unfold text. intros H. discriminate H. Qed.

Lemma integer_hex :
  integer (String "0" rest) = [([Token "0"], rest); ([Token text], tail)].
Proof.
  unfold integer, token1, pmap, terminals. cbn [flat_map].
  rewrite terminal_dec_hex, terminal_hex.
  rewrite (terminal_none BIN_NUMBER) by (apply (rmatch_after_zero is_b); reflexivity).
  rewrite (terminal_none OCT_NUMBER) by (apply (rmatch_after_zero is_o); reflexivity).
  cbn [app]. rewrite (nodup_two _ _ hex_tokens_differ). reflexivity.
Qed.

Lemma number_hex :
  number (String "0" rest)
  = [(Tree r_number [Token text], tail); (Tree r_number [Token "0"], rest)].
Proof.
  unfold number, pmap, terminals. cbn [flat_map].
  rewrite terminal_dec_hex, terminal_hex, terminal_float_hex.
  rewrite (terminal_none BIN_NUMBER) by (apply (rmatch_after_zero is_b); reflexivity).
  rewrite (terminal_none OCT_NUMBER) by (apply (rmatch_after_zero is_o); reflexivity).
  rewrite (terminal_none COMPLEX_NUMBER)
    by (apply (rmatch_after_zero is_j); reflexivity).
  cbn [app]. rewrite (nodup_three _ _ hex_tokens_differ). reflexivity.
Qed.

Lemma cat_maybe_hex q :
  cat (maybe integer) q (String "0" rest)
  = (map (fun '(b, u) => (Token "0" :: b, u)) (q rest)
     ++ map (fun '(b, u) => (Token text :: b, u)) (q tail)
     ++ q (String "0" rest))%list.
Proof.
  unfold cat, seq, maybe, alt, pure. rewrite integer_hex.
  cbn [app flat_map]. rewrite List.app_nil_r, map_prepend_nil. reflexivity.
Qed.

End Hex.

Lemma radix_value_hex hs : forall acc,
  string_forallb hex_class hs = true -> exists n, radix_value 16 acc hs = Some n.
Proof.
  induction hs as [|c hs IH]; intros acc H; [eexists; reflexivity|].
  cbn [string_forallb] in H. apply andb_true_iff in H. destruct H as [Hc Hs].
  cbn [radix_value].
  assert (Hd : exists d, digit_value c = Some d /\ (d <? 16)%N = true).
  { destruct c as [[] [] [] [] [] [] [] []]; try discriminate Hc;
      vm_compute; eexists; split; reflexivity. }
  destruct Hd as [d [-> ->]]. apply IH. exact Hs.
Qed.

Lemma literal_eval_hex hs :
  literal_eval (String "0" (String "x" hs)) = (v <- radix_literal 16 hs ;; Ok v).
Proof. reflexivity. Qed.

(** X19. A hexadecimal integer is a key and not a slice bound: between
    brackets [0x] and hexadecimal digits read as the integer they spell;
    before the colon of a slice the grammar takes them, [int] turns them
    down with a ValueError and [from_str] raises a VisitError around it;
    [0x] with no digit is taken by the grammar and turned down by
    [ast.literal_eval] with a SyntaxError. *)
Theorem hexadecimal_key_and_slice (hs : string) :
  string_forallb hex_class hs = true ->
  from_str ("[0x" ++ hs ++ ":]") = Raise (VisitError (ValueError None)) /\
  (if nonempty hs
   then exists n, radix_value 16 0 hs = Some n /\
                  from_str ("[0x" ++ hs ++ "]") = Ok (mkPath [VInt (Z.of_N n)])
   else from_str ("[0x" ++ hs ++ "]") = Raise (VisitError SyntaxError)).
Proof.
  intros Hh. split.
  - assert (Hp : parse ("[0x" ++ hs ++ ":]")
                 = Ok (PathTree [Tree r_slice_key
                                   [Token (String "0" (String "x" hs)); Token ":"]])).
    { unfold parse. cbn [append].
      unfold path, maybe, alt, pure, segment_first, alt, cat, seq, pmap.
      rewrite (identifier_rejects (String "[" _)) by reflexivity.
      rewrite item_closed. rewrite key_rest_rejects by reflexivity.
      rewrite (number_hex hs ":]" Hh eq_refl).
      unfold slice_key, pmap, alt.
      rewrite !(cat_maybe_hex hs ":]" Hh eq_refl).
      eval_slice. cbn [closed flat_map app map].
      change (char_eqb "]" ":") with false. change (char_eqb "]" "x") with false.
      change (char_eqb "]" "]") with true. cbv iota. cbn [app flat_map map].
      rewrite (many_none (segment _) _ "") by reflexivity. reflexivity. }
    unfold from_str. rewrite Hp. cbn [bind].
    unfold PathTransformer.transform.
    cbn [PathTransformer.transform_children PathTransformer.transform_tree bind
         PathTransformer.callback].
    unfold PathTransformer.slice_key. cbn [PathTransformer.slice_loop].
    change (py_eq (VStr (String "0" (String "x" hs))) (VStr ":")) with false.
    cbv iota. reflexivity.
  - assert (Hp : parse ("[0x" ++ hs ++ "]")
                 = Ok (PathTree [Tree r_number [Token (String "0" (String "x" hs))]])).
    { unfold parse. cbn [append].
      unfold path, maybe, alt, pure, segment_first, alt, cat, seq, pmap.
      rewrite (identifier_rejects (String "[" _)) by reflexivity.
      rewrite item_closed. rewrite key_rest_rejects by reflexivity.
      rewrite (number_hex hs "]" Hh eq_refl).
      unfold slice_key, pmap, alt.
      rewrite !(cat_maybe_hex hs "]" Hh eq_refl).
      eval_slice. cbn [closed flat_map app map].
      change (char_eqb "]" "x") with false.
      change (char_eqb "]" "]") with true. cbv iota. cbn [app flat_map map].
      rewrite (many_none (segment _) _ "") by reflexivity. reflexivity. }
    unfold from_str. rewrite Hp. cbn [bind].
    unfold PathTransformer.transform.
    cbn [PathTransformer.transform_children PathTransformer.transform_tree bind
         PathTransformer.callback PathTransformer.number].
    rewrite literal_eval_hex. unfold radix_literal. destruct (nonempty hs) eqn:E.
    + destruct (radix_value_hex hs 0%N Hh) as [n Hn]. exists n. split; [exact Hn|].
      rewrite Hn. reflexivity.
    + reflexivity.
Qed.

Lemma hexadecimal_key_and_slice_witness :
  string_forallb hex_class "1F" = true /\
  from_str "[0x1F:]" = Raise (VisitError (ValueError None)) /\
  from_str "[0x1F]" = Ok (mkPath [VInt 31]).
Proof.
  split; [reflexivity|].
  destruct (hexadecimal_key_and_slice "1F" eq_refl) as [Hs [n [Hn Hk]]].
  split; [exact Hs|].
  vm_compute in Hn. injection Hn as <-. exact Hk.
Defined.

(** ** Joining canonical strings *)

Lemma format_first_text k :
  format_part k
  = (if starts_with (char_eqb "[") (first_text k) then "" else ".") ++ first_text k.
Proof.
  destruct (format_part_shape k) as [[Hd [s [-> Hf]]]|[Hd [body Hf]]].
  - cbn [dotted_key first_text] in *. rewrite Hd, Hf.
    destruct s as [|c s]; [discriminate|]. cbn [starts_with].
    destruct (char_eqb "[" c) eqn:E; [|reflexivity].
    unfold char_eqb in E. apply Ascii.eqb_eq in E. subst c.
    cbn [isidentifier] in Hd. vm_compute in Hd. discriminate.
  - assert (Hft : first_text k = format_part k).
    { destruct k; try reflexivity. cbn [dotted_key first_text] in *. rewrite Hd. reflexivity. }
    rewrite Hft, Hf. reflexivity.
Qed.

Lemma starts_with_append f a b :
  nonempty a = true -> starts_with f (a ++ b) = starts_with f a.
Proof. destruct a; [discriminate | reflexivity]. Qed.

Lemma first_text_is_nonempty k : nonempty (first_text k) = true.
Proof.
  destruct (format_part_shape k) as [[Hd [s [-> Hf]]]|[Hd [body Hf]]].
  - cbn [dotted_key first_text] in *. rewrite Hd. apply isidentifier_nonempty. exact Hd.
  - assert (Hft : first_text k = format_part k).
    { destruct k; try reflexivity. cbn [dotted_key first_text] in *. rewrite Hd. reflexivity. }
    rewrite Hft, Hf. reflexivity.
Qed.

(** X21. The texts that the function behind the cached [__repr__] writes
    for two non-empty Paths of keys whose text reads back, joined with a dot
    when the second begins with a name and with nothing when it begins with
    a bracket, parse to the Path of the keys of the first followed by the
    keys of the second. *)
Theorem from_str_of_joined_strings (keys keys' : list value) :
  forallb canonical_key keys = true -> forallb canonical_key keys' = true ->
  keys <> [] -> keys' <> [] ->
  from_str (__repr__wrapped (mkPath keys)
            ++ (if starts_with (char_eqb "[") (__repr__wrapped (mkPath keys')) then "" else ".")
            ++ __repr__wrapped (mkPath keys'))
  = Ok (mkPath (keys ++ keys')).
Proof.
  intros Hc Hc' Hn Hn'.
  assert (Hall : forallb canonical_key (keys ++ keys') = true)
    by (rewrite forallb_app, Hc, Hc'; reflexivity).
  assert (E : __repr__wrapped (mkPath keys)
              ++ (if starts_with (char_eqb "[") (__repr__wrapped (mkPath keys'))
                  then "" else ".")
              ++ __repr__wrapped (mkPath keys')
              = __repr__wrapped (mkPath (keys ++ keys'))).
  { destruct keys as [|k ks]; [congruence|]. destruct keys' as [|k' ks']; [congruence|].
    cbn [app]. rewrite !repr_cons, map_app, concat_app. cbn [map].
    rewrite concat_cons, (format_first_text k').
    rewrite (starts_with_append _ _ _ (first_text_is_nonempty k')).
    rewrite !append_assoc. reflexivity. }
  rewrite E. unfold from_str. rewrite (parse_canonical _ Hall). cbn [bind].
  unfold PathTransformer.transform. rewrite (transform_children_canonical _ Hall).
  cbn [bind]. unfold PathTransformer.path, __init__. cbn [_is_valid_part].
  rewrite (canonical_valid _ Hall). reflexivity.
Qed.

Lemma from_str_of_joined_strings_witness :
  from_str ("a[0]" ++ "." ++ "b[1:]")
  = Ok (mkPath [VStr "a"; VInt 0; VStr "b"; VSlice (VInt 1) VNone VNone]) /\
  from_str ("a[0]" ++ "" ++ "[None].c")
  = Ok (mkPath [VStr "a"; VInt 0; VNone; VStr "c"]).
Proof.
  split.
  - apply (from_str_of_joined_strings
             [VStr "a"; VInt 0] [VStr "b"; VSlice (VInt 1) VNone VNone]);
      [reflexivity | reflexivity | discriminate | discriminate].
  - apply (from_str_of_joined_strings [VStr "a"; VInt 0] [VNone; VStr "c"]);
      [reflexivity | reflexivity | discriminate | discriminate].
Defined.

(** ** A slice with a second colon and no step *)

Lemma parse_item text t :
  (forall fuel, item fuel text = [([t], "")]) ->
  starts_with (char_eqb "[") text = true ->
  parse text = Ok (PathTree [t]).
Proof.
  intros Hi Hs. unfold parse, path, maybe, alt, pure, segment_first, alt, cat, seq, pmap.
  rewrite identifier_rejects
    by (destruct text as [|c r]; [reflexivity|]; cbn [starts_with] in *;
        unfold char_eqb in Hs; apply Ascii.eqb_eq in Hs; subst c; reflexivity).
  rewrite Hi. cbn [map app flat_map].
  rewrite (many_none (segment _) _ "") by reflexivity. reflexivity.
Qed.

Lemma item_slice_colon fuel a b :
  opt_int a = true -> opt_int b = true ->
  item fuel (String "[" (opt_text a ++ ":" ++ opt_text b ++ ":]"))
  = [([Tree r_slice_key (opt_tokens a ++ [Token ":"] ++ opt_tokens b ++ [Token ":"])], "")].
Proof.
  intros Ha Hb.
  destruct a, b; try discriminate;
    cbn [opt_text opt_tokens append app];
    repeat (rewrite append_assoc; cbn [append]);
    name_int_texts;
    rewrite item_closed;
    rewrite key_rest_rejects by int_side;
    first [rewrite number_int by int_side | rewrite number_rejects by reflexivity];
    unfold slice_key, pmap, alt; eval_slice; eval_closed; reflexivity.
Qed.

Lemma transform_slice_colon a b :
  opt_int a = true -> opt_int b = true ->
  PathTransformer.transform_tree
    (Tree r_slice_key (opt_tokens a ++ [Token ":"] ++ opt_tokens b ++ [Token ":"]))
  = Ok (VSlice a b VNone).
Proof.
  intros Ha Hb.
  destruct a, b; try discriminate;
    cbn [opt_tokens app PathTransformer.transform_tree bind PathTransformer.callback];
    unfold PathTransformer.slice_key;
    cbn [PathTransformer.slice_loop];
    repeat match goal with
      | |- context [py_eq (VStr (int_repr ?z)) (VStr ":")] =>
          replace (py_eq (VStr (int_repr z)) (VStr ":")) with false
            by (symmetry; apply int_text_not_colon, int_repr_is_int_text)
      end;
    rewrite ?py_int_repr; reflexivity.
Qed.

(** X20. A slice of integers or absent bounds written with a second colon
    and no step after it parses to the same Path as the text [format_part]
    writes for it, which has one colon: the slice with that start and stop
    and no step. *)
Theorem slice_with_second_colon (a b : value) :
  opt_int a = true -> opt_int b = true ->
  from_str ("[" ++ opt_text a ++ ":" ++ opt_text b ++ ":]")
  = Ok (mkPath [VSlice a b VNone]) /\
  format_part (VSlice a b VNone) = "[" ++ opt_text a ++ ":" ++ opt_text b ++ "]" /\
  from_str ("[" ++ opt_text a ++ ":" ++ opt_text b ++ "]")
  = Ok (mkPath [VSlice a b VNone]).
Proof.
  intros Ha Hb.
  assert (Hr : __repr__wrapped (mkPath [VSlice a b VNone])
               = "[" ++ opt_text a ++ ":" ++ opt_text b ++ "]").
  { unfold __repr__wrapped. cbn [parts map String.concat].
    rewrite (format_slice a b VNone Ha Hb eq_refl). unfold slice_text.
    cbn [is_none]. cbv iota. rewrite !append_assoc. reflexivity. }
  split; [|split].
  - unfold from_str.
    change ("[" ++ opt_text a ++ ":" ++ opt_text b ++ ":]")
      with (String "[" (opt_text a ++ ":" ++ opt_text b ++ ":]")).
    rewrite (parse_item _ _ (fun fuel => item_slice_colon fuel a b Ha Hb) eq_refl).
    cbn [bind]. unfold PathTransformer.transform.
    cbn [PathTransformer.transform_children].
    rewrite (transform_slice_colon a b Ha Hb). reflexivity.
  - rewrite (format_slice a b VNone Ha Hb eq_refl). unfold slice_text.
    cbn [is_none]. cbv iota. rewrite !append_assoc. reflexivity.
  - rewrite <- Hr. unfold from_str.
    assert (Hc : forallb canonical_key [VSlice a b VNone] = true)
      by (cbn [forallb canonical_key opt_int]; rewrite Ha, Hb; reflexivity).
    rewrite (parse_canonical _ Hc). cbn [bind].
    unfold PathTransformer.transform. rewrite (transform_children_canonical _ Hc).
    reflexivity.
Qed.

Lemma slice_with_second_colon_witness :
  from_str "[-3::]" = Ok (mkPath [VSlice (VInt (-3)) VNone VNone]) /\
  from_str "[-3:]" = Ok (mkPath [VSlice (VInt (-3)) VNone VNone]).
Proof.
  destruct (slice_with_second_colon (VInt (-3)) VNone) as [H1 [_ H2]];
    [reflexivity | reflexivity |].
  split; [exact H1 | exact H2].
Defined.

(** ** The exceptions of [from_str] *)

Lemma yields_pmap {A B} (f : A -> B) (p : parser A) (Q : A -> Prop) (Q' : B -> Prop) :
  yields p Q -> (forall a, Q a -> Q' (f a)) -> yields (pmap f p) Q'.
Proof.
  intros Hp Hf s x t H. unfold pmap in H. apply in_map_iff in H.
  destruct H as [[a t'] [E H]]. inversion E; subst. apply Hf. eapply Hp. exact H.
Qed.

Lemma yields_seq {A B C} (f : A -> B -> C) p q
    (Q1 : A -> Prop) (Q2 : B -> Prop) (Q : C -> Prop) :
  yields p Q1 -> yields q Q2 -> (forall a b, Q1 a -> Q2 b -> Q (f a b)) ->
  yields (seq f p q) Q.
Proof.
  intros Hp Hq Hf s x t H. unfold seq in H. apply in_flat_map in H.
  destruct H as [[a t1] [H1 H2]]. apply in_map_iff in H2.
  destruct H2 as [[b t2] [E H2]]. inversion E; subst.
  apply Hf; [eapply Hp | eapply Hq]; eassumption.
Qed.

Lemma yields_alt {A} (p q : parser A) (Q : A -> Prop) :
  yields p Q -> yields q Q -> yields (alt p q) Q.
Proof.
  intros Hp Hq s x t H. unfold alt in H. apply in_app_or in H.
  destruct H as [H|H]; [eapply Hp | eapply Hq]; exact H.
Qed.

Lemma yields_pure {A} (a : A) (Q : A -> Prop) : Q a -> yields (pure a) Q.
Proof. intros Ha s x t [H|[]]. inversion H; subst. exact Ha. Qed.

Lemma yields_fail {A} (Q : A -> Prop) : yields (@fail A) Q.
Proof. intros s x t []. Qed.

Lemma yields_weaken {A} (p : parser A) (Q Q' : A -> Prop) :
  (forall a, Q a -> Q' a) -> yields p Q -> yields p Q'.
Proof. intros HQ Hp s x t H. apply HQ. eapply Hp. exact H. Qed.

Lemma yields_many {A} (p : parser A) (Q : A -> Prop) (fuel : nat) :
  yields p Q -> yields (many fuel p) (Forall Q).
Proof.
  intros Hp. induction fuel as [|f IH]; cbn [many].
  - apply yields_pure. constructor.
  - apply yields_alt; [|apply yields_pure; constructor].
    apply (yields_seq cons p (many f p) Q (Forall Q)); try assumption.
    intros a b Ha Hb. constructor; assumption.
Qed.

Lemma yields_terminal (r : regex) : yields (terminal r) (lang r).
Proof.
  intros s x t H. unfold terminal in H.
  destruct (rmatch r None s) as [|[[m p] t'] l] eqn:E; [contradiction|].
  destruct H as [H|[]]. inversion H; subst.
  assert (Hin : In (x, p, t) (rmatch r None s)) by (rewrite E; left; reflexivity).
  apply rmatch_sound in Hin. destruct Hin as [_ Hm]. exists p. exact Hm.
Qed.

Lemma yields_literal (l : string) : yields (literal l) (eq l).
Proof.
  intros s x t H. unfold literal in H.
  destruct (strip_prefix l s); [|contradiction].
  destruct H as [H|[]]. inversion H; subst. reflexivity.
Qed.

Lemma yields_terminals (rs : list regex) : yields (terminals rs) (one_of rs).
Proof.
  intros s x t H. unfold terminals in H. apply nodup_In in H.
  apply in_flat_map in H. destruct H as [r [Hr H]].
  exists r. split; [exact Hr | exact (yields_terminal r s x t H)].
Qed.

Lemma tokens_with_app n m a b :
  tokens_with n a -> tokens_with m b -> tokens_with (n + m) (a ++ b)%list.
Proof.
  intros [Ha Hn] [Hb Hm]. split.
  - rewrite forallb_app, Ha, Hb. reflexivity.
  - unfold colons in *. rewrite filter_app, length_app, Hn, Hm. reflexivity.
Qed.

Lemma integer_not_colon (m : string) :
  one_of [DEC_NUMBER; HEX_NUMBER; BIN_NUMBER; OCT_NUMBER] m -> String.eqb m ":" = false.
Proof.
  intros [r [Hr [p Hm]]]. apply matches_alphabet in Hm.
  destruct (String.eqb_spec m ":") as [->|]; [|reflexivity]. exfalso.
  cbn [string_forallb] in Hm. rewrite andb_true_r in Hm.
  destruct Hr as [<-|[<-|[<-|[<-|[]]]]]; vm_compute in Hm; discriminate.
Qed.

Lemma yields_maybe_integer : yields (maybe integer) (tokens_with 0).
Proof.
  apply yields_alt; [|apply yields_pure; split; reflexivity].
  unfold integer, token1.
  apply (yields_pmap _ _ (one_of [DEC_NUMBER; HEX_NUMBER; BIN_NUMBER; OCT_NUMBER]));
    [apply yields_terminals|].
  intros m Hm. split; [reflexivity|]. unfold colons. cbn [filter is_colon].
  rewrite (integer_not_colon m Hm). reflexivity.
Qed.

Lemma yields_colon : yields colon (tokens_with 1).
Proof.
  unfold colon, token1. apply (yields_pmap _ _ (eq ":")); [apply yields_literal|].
  intros m <-. split; reflexivity.
Qed.

Lemma yields_cat p q (Q1 Q2 Q : list tree -> Prop) :
  yields p Q1 -> yields q Q2 -> (forall a b, Q1 a -> Q2 b -> Q (a ++ b)%list) ->
  yields (cat p q) Q.
Proof. apply yields_seq. Qed.

Lemma yields_slice_key : yields slice_key wf.
Proof.
  unfold slice_key.
  apply (yields_pmap _ _ (fun ts => exists n, (n <= 2)%nat /\ tokens_with n ts)).
  - apply yields_alt.
    + apply (yields_weaken _ (tokens_with (0 + (1 + 0)))); [intros a H; exists 1%nat; auto|].
      apply (yields_cat _ _ (tokens_with 0) (tokens_with (1 + 0)));
        [apply yields_maybe_integer | | apply tokens_with_app].
      apply (yields_cat _ _ (tokens_with 1) (tokens_with 0));
        [apply yields_colon | apply yields_maybe_integer | apply tokens_with_app].
    + apply (yields_weaken _ (tokens_with (0 + (1 + (0 + (1 + 0))))));
        [intros a H; exists 2%nat; auto|].
      apply (yields_cat _ _ (tokens_with 0) (tokens_with (1 + (0 + (1 + 0)))));
        [apply yields_maybe_integer | | apply tokens_with_app].
      apply (yields_cat _ _ (tokens_with 1) (tokens_with (0 + (1 + 0))));
        [apply yields_colon | | apply tokens_with_app].
      apply (yields_cat _ _ (tokens_with 0) (tokens_with (1 + 0)));
        [apply yields_maybe_integer | | apply tokens_with_app].
      apply (yields_cat _ _ (tokens_with 1) (tokens_with 0));
        [apply yields_colon | apply yields_maybe_integer | apply tokens_with_app].
  - intros ts [n [Hn [Ht Hc]]]. unfold wf. cbn [well_formed]. rewrite Ht, Hc.
    apply Nat.leb_le in Hn. rewrite Hn. reflexivity.
Qed.

Lemma yields_number : yields number wf.
Proof.
  unfold number. apply (yields_pmap _ _ (fun _ => True)); [|reflexivity].
  intros s x t _. exact I.
Qed.

Lemma yields_string : yields string_ wf.
Proof.
  unfold string_. apply (yields_pmap _ _ (fun _ => True)); [|reflexivity].
  intros s x t _. exact I.
Qed.

Lemma yields_none : yields none wf.
Proof.
  unfold none. apply (yields_pmap _ _ (fun _ => True)); [|reflexivity].
  intros s x t _. exact I.
Qed.

Lemma yields_boolean : yields boolean wf.
Proof.
  unfold boolean. apply (yields_pmap _ _ (fun m => m = "True" \/ m = "False")).
  - apply yields_alt.
    + apply (yields_weaken _ (eq "True")); [intros a <-; left; reflexivity|].
      apply yields_literal.
    + apply (yields_weaken _ (eq "False")); [intros a <-; right; reflexivity|].
      apply yields_literal.
  - intros m [->| ->]; reflexivity.
Qed.

Lemma yields_identifier : yields identifier wf.
Proof.
  intros s x t H. unfold identifier in H.
  assert (Hy : yields (pmap (Tree r_identifier)
                         (cat (token1 (terminal ID_START))
                            (pmap (map Token)
                               (many (String.length s) (terminal ID_CONTINUE))))) wf).
  { apply (yields_pmap _ _ (fun ts => exists a rest, ts = Token a :: map Token rest)).
    - apply (yields_cat _ _ (fun ts => exists a, ts = [Token a])
                            (fun ts => exists rest, ts = map Token rest)).
      + unfold token1. apply (yields_pmap _ _ (fun _ => True)).
        * intros s' x' t' _. exact I.
        * intros a _. exists a. reflexivity.
      + apply (yields_pmap _ _ (fun _ => True)).
        * intros s' x' t' _. exact I.
        * intros l _. exists l. reflexivity.
      + intros a b [a0 ->] [rest ->]. exists a0, rest. reflexivity.
    - intros ts [a [rest ->]]. unfold wf. cbn [well_formed].
      induction rest as [|r rest IH]; [reflexivity | exact IH]. }
  exact (Hy s x t H).
Qed.

Lemma wf_singleton t : wf t -> forallb well_formed [t] = true.
Proof. intros H. cbn [forallb]. rewrite H. reflexivity. Qed.

Lemma all_wf_app a b : all_wf a -> all_wf b -> all_wf (a ++ b)%list.
Proof. unfold all_wf. intros Ha Hb. rewrite forallb_app, Ha, Hb. reflexivity. Qed.

Lemma all_wf_nil : all_wf [].
Proof. reflexivity. Qed.

Lemma all_wf_concat (l : list (list tree)) : Forall all_wf l -> all_wf (concat l).
Proof.
  induction 1 as [|a l Ha _ IH]; [reflexivity|]. cbn [concat].
  apply all_wf_app; assumption.
Qed.

Lemma yields_skip l : yields (skip l) all_wf.
Proof.
  unfold skip. apply (yields_pmap _ _ (fun _ => True)); [|reflexivity].
  intros s x t _. exact I.
Qed.

Lemma yields_key1 (key : parser tree) :
  yields key wf -> yields (pmap (fun k => [k]) key) all_wf.
Proof. intros H. apply (yields_pmap _ _ wf); [exact H | apply wf_singleton]. Qed.

Lemma yields_tuple_key (fuel : nat) (key : parser tree) :
  yields key wf -> yields (tuple_key fuel key) wf.
Proof.
  intros Hk. unfold tuple_key.
  apply (yields_pmap _ _ all_wf); [|intros ts H; exact H].
  pose proof (yields_key1 key Hk) as Hk1.
  assert (Hck : yields (cat (skip ",") (pmap (fun k => [k]) key)) all_wf)
    by (apply (yields_cat _ _ all_wf all_wf);
        [apply yields_skip | exact Hk1 | apply all_wf_app]).
  repeat first
    [ apply yields_alt
    | apply yields_skip
    | exact Hk1
    | exact Hck
    | apply yields_pure; apply all_wf_nil
    | apply (yields_cat _ _ all_wf all_wf); [| | apply all_wf_app]
    | apply (yields_pmap _ _ (Forall all_wf)); [apply yields_many|apply all_wf_concat] ].
Qed.

Lemma yields_key (fuel : nat) : yields (key fuel) wf.
Proof.
  induction fuel as [|f IH]; cbn [key];
    repeat first
      [ apply yields_alt
      | apply yields_number | apply yields_slice_key | apply yields_boolean
      | apply yields_none | apply yields_string | apply yields_fail
      | apply yields_tuple_key; exact IH ].
Qed.

Lemma yields_item (fuel : nat) : yields (item fuel) all_wf.
Proof.
  unfold item.
  apply (yields_cat _ _ all_wf all_wf); [apply yields_skip | | apply all_wf_app].
  apply (yields_cat _ _ all_wf all_wf);
    [apply yields_key1; apply yields_key | apply yields_skip | apply all_wf_app].
Qed.

Lemma yields_segment (fuel : nat) : yields (segment fuel) all_wf.
Proof.
  unfold segment. apply yields_alt; [|apply yields_item].
  apply (yields_cat _ _ all_wf all_wf);
    [apply yields_skip | apply yields_key1; apply yields_identifier | apply all_wf_app].
Qed.

Lemma yields_segment_first (fuel : nat) : yields (segment_first fuel) all_wf.
Proof.
  unfold segment_first. apply yields_alt; [|apply yields_item].
  apply yields_key1. apply yields_identifier.
Qed.

Lemma yields_path (fuel : nat) :
  yields (path fuel) (fun t => match t with PathTree cs => all_wf cs end).
Proof.
  unfold path. apply (yields_pmap _ _ all_wf); [|intros a H; exact H].
  apply yields_alt; [|apply yields_pure; apply all_wf_nil].
  apply (yields_cat _ _ all_wf all_wf);
    [apply yields_segment_first | | apply all_wf_app].
  apply (yields_pmap _ _ (Forall all_wf));
    [apply yields_many; apply yields_segment | apply all_wf_concat].
Qed.

Lemma parse_well_formed (text : string) (cs : list tree) :
  parse text = Ok (PathTree cs) -> all_wf cs.
Proof.
  unfold parse. intros H.
  destruct (complete (path (String.length text) text)) as [|[t0 r] l] eqn:E;
    [discriminate|]. injection H as ->.
  assert (Hin : In (PathTree cs, r) (complete (path (String.length text) text)))
    by (rewrite E; left; reflexivity).
  apply filter_In in Hin. destruct Hin as [Hin _].
  exact (yields_path _ _ _ _ Hin).
Qed.

(** *** What the callbacks raise on such trees *)

Lemma float_text_raises u e : float_text u = Raise e -> e = SyntaxError.
Proof.
  unfold float_text. intros H. break_in H; injection H as <-; reflexivity.
Qed.

Lemma radix_literal_raises base ds e : radix_literal base ds = Raise e -> e = SyntaxError.
Proof.
  unfold radix_literal. intros H. break_in H; injection H as <-; reflexivity.
Qed.

Lemma decimal_literal_raises u e : decimal_literal u = Raise e -> e = SyntaxError.
Proof.
  unfold decimal_literal. intros H.
  destruct (last_char u) as [c|]; [|injection H as <-; reflexivity].
  destruct (is_j c).
  - destruct (float_text (drop_last u)) as [f|e'] eqn:E; [discriminate|].
    cbn [bind] in H. injection H as <-. apply (float_text_raises _ _ E).
  - destruct (string_forallb digit u).
    + break_in H; injection H as <-; reflexivity.
    + destruct (float_text u) as [f|e'] eqn:E; [discriminate|].
      cbn [bind] in H. injection H as <-. apply (float_text_raises _ _ E).
Qed.

Lemma unsigned_literal_raises u e : unsigned_literal u = Raise e -> e = SyntaxError.
Proof.
  unfold unsigned_literal. intros H.
  destruct u as [|c [|x ds]]; try (apply decimal_literal_raises in H; exact H).
  destruct (char_eqb c "0" && is_x x)%bool; [apply radix_literal_raises in H; exact H|].
  destruct (char_eqb c "0" && is_o x)%bool; [apply radix_literal_raises in H; exact H|].
  destruct (char_eqb c "0" && is_b x)%bool; [apply radix_literal_raises in H; exact H|].
  apply decimal_literal_raises in H. exact H.
Qed.

Lemma signed_literal_raises t e : signed_literal t = Raise e -> e = SyntaxError.
Proof.
  unfold signed_literal. destruct (split_sign false t) as [neg u].
  destruct (unsigned_literal u) as [w|e'] eqn:E; [discriminate|]. cbn [bind].
  intros H. injection H as <-. apply (unsigned_literal_raises _ _ E).
Qed.

Lemma float_of_int_raises z e : float_of_int z = Raise e -> e = OverflowError.
Proof.
  unfold float_of_int. intros H. break_in H; injection H as <-; reflexivity.
Qed.

Lemma complex_literal_raises body e :
  complex_literal body = Raise e -> is_conversion_error e = true.
Proof.
  unfold complex_literal. destruct (split_sign false body) as [neg rest].
  intros H.
  destruct (rmatch unsigned_number None rest) as [|[[lt p] [|op rt]] l];
    try (injection H as <-; reflexivity).
  destruct (unsigned_literal lt) as [lv|e'] eqn:El.
  2: { cbn [bind] in H. injection H as <-.
       rewrite (unsigned_literal_raises _ _ El). reflexivity. }
  cbn [bind] in H.
  destruct (starts_with sign_class rt); [injection H as <-; reflexivity|].
  destruct (unsigned_literal rt) as [rv|e'] eqn:Er.
  2: { cbn [bind] in H. injection H as <-.
       rewrite (unsigned_literal_raises _ _ Er). reflexivity. }
  cbn [bind] in H.
  destruct (if neg then negate lv else lv) as [z| |f| | | | | |];
    try (cbn [bind] in H; injection H as <-; reflexivity).
  - destruct (float_of_int z) as [lf|e'] eqn:Ef.
    + cbn [bind] in H. break_in H; injection H as <-; reflexivity.
    + cbn [bind] in H. injection H as <-.
      rewrite (float_of_int_raises _ _ Ef). reflexivity.
  - cbn [bind] in H. break_in H; injection H as <-; reflexivity.
Qed.

Lemma literal_eval_raises text e :
  literal_eval text = Raise e -> is_conversion_error e = true.
Proof.
  unfold literal_eval. destruct text as [|c r]; [intros H; injection H as <-; reflexivity|].
  destruct (char_eqb c "(").
  - destruct (last_char r) as [x|]; [|intros H; injection H as <-; reflexivity].
    destruct (char_eqb x ")"); [|intros H; injection H as <-; reflexivity].
    apply complex_literal_raises.
  - intros H. rewrite (signed_literal_raises _ _ H). reflexivity.
Qed.

Lemma py_int_raises text e : py_int text = Raise e -> is_conversion_error e = true.
Proof.
  unfold py_int. destruct (split_sign true text) as [neg body].
  intros H. break_in H; injection H as <-; reflexivity.
Qed.

Lemma set_item_length sargs i v :
  (i < List.length sargs)%nat ->
  exists out, PathTransformer.set_item sargs i v = Ok out /\
              List.length out = List.length sargs.
Proof.
  intros Hi. unfold PathTransformer.set_item.
  apply Nat.ltb_lt in Hi. rewrite Hi. eexists. split; [reflexivity|].
  apply Nat.ltb_lt in Hi.
  rewrite length_app. cbn [List.length]. rewrite firstn_length_le, length_skipn by lia.
  lia.
Qed.

Lemma tokens_texts (cs : list tree) :
  forallb is_token cs = true -> exists texts, cs = map Token texts.
Proof.
  induction cs as [|c cs IH]; [exists []; reflexivity|]. cbn [forallb]. intros H.
  apply andb_true_iff in H. destruct H as [Hc Hcs].
  destruct c as [text|]; [|discriminate]. destruct (IH Hcs) as [texts ->].
  exists (text :: texts). reflexivity.
Qed.

Lemma transform_tokens (texts : list string) :
  PathTransformer.transform_children (map Token texts) = Ok (map VStr texts).
Proof.
  induction texts as [|t texts IH]; [reflexivity|].
  cbn [map PathTransformer.transform_children PathTransformer.transform_tree bind].
  rewrite IH. reflexivity.
Qed.

Lemma colons_texts (texts : list string) :
  colons (map Token texts) = List.length (filter (fun t => String.eqb t ":") texts).
Proof.
  unfold colons. induction texts as [|t texts IH]; [reflexivity|].
  cbn [map filter is_colon]. destruct (String.eqb t ":"); cbn [List.length]; rewrite IH;
    reflexivity.
Qed.

Lemma slice_loop_texts (texts : list string) : forall i sargs,
  List.length sargs = 3%nat ->
  (i + List.length (filter (fun t => String.eqb t ":") texts) <= 2)%nat ->
  match PathTransformer.slice_loop (map VStr texts) i sargs with
  | Ok out => List.length out = 3%nat
  | Raise e => is_conversion_error e = true
  end.
Proof.
  induction texts as [|t texts IH]; intros i sargs Hl Hi; [exact Hl|].
  cbn [map PathTransformer.slice_loop py_eq]. cbn [filter] in Hi.
  destruct (String.eqb t ":").
  - apply IH; [exact Hl | cbn [List.length] in Hi; lia].
  - destruct (py_int t) as [n|e] eqn:En; [|exact (py_int_raises _ _ En)].
    cbn [bind].
    destruct (set_item_length sargs i (VInt n)) as [out [-> Ho]]; [lia|].
    cbn [bind]. apply IH; [lia | exact Hi].
Qed.

Lemma callback_raises data (children : list tree) (args : list value) (e : exn) :
  well_formed (Tree data children) = true ->
  PathTransformer.transform_children children = Ok args ->
  PathTransformer.callback data args = Raise e -> is_conversion_error e = true.
Proof.
  intros Hw Ha H. destruct data; cbn [well_formed PathTransformer.callback] in *.
  - destruct children as [|[text|] rest]; try discriminate.
    cbn [PathTransformer.transform_children PathTransformer.transform_tree bind] in Ha.
    destruct (PathTransformer.transform_children rest); [|discriminate].
    cbn [bind] in Ha. injection Ha as <-. discriminate.
  - apply andb_true_iff in Hw. destruct Hw as [Ht Hc].
    destruct (tokens_texts children Ht) as [texts ->].
    rewrite transform_tokens in Ha. injection Ha as <-.
    rewrite colons_texts in Hc. apply Nat.leb_le in Hc.
    unfold PathTransformer.slice_key in H.
    pose proof (slice_loop_texts texts 0 [VNone; VNone; VNone] eq_refl Hc) as Hs.
    destruct (PathTransformer.slice_loop (map VStr texts) 0 [VNone; VNone; VNone])
      as [out|e'].
    + cbn [bind] in H. destruct out as [|a [|b [|c [|d l]]]]; discriminate.
    + cbn [bind] in H. injection H as <-. exact Hs.
  - destruct children as [|[text|] [|? ?]]; try discriminate.
    cbn in Ha. injection Ha as <-. cbn [PathTransformer.number] in H.
    apply (literal_eval_raises _ _ H).
  - discriminate.
  - destruct children as [|[text|] [|? ?]]; try discriminate.
    cbn in Ha. injection Ha as <-. cbn [PathTransformer.boolean] in H.
    apply orb_true_iff in Hw. destruct Hw as [Hw|Hw].
    + rewrite Hw in H. discriminate.
    + rewrite Hw in H. destruct (String.eqb text "True"); discriminate.
  - destruct children as [|[text|] [|? ?]]; try discriminate.
    cbn in Ha. injection Ha as <-. discriminate.
  - discriminate.
Qed.

Lemma transform_children_raises (cs : list tree) :
  Forall (fun t => raises_conversion (PathTransformer.transform_tree t)) cs ->
  raises_conversion (PathTransformer.transform_children cs).
Proof.
  induction 1 as [|c r Hc _ IH]; [exact I|].
  cbn [PathTransformer.transform_children].
  destruct (PathTransformer.transform_tree c); [|exact Hc]. cbn [bind].
  destruct (PathTransformer.transform_children r); [exact I | exact IH].
Qed.

Lemma well_formed_children data children :
  well_formed (Tree data children) = true ->
  Forall (fun c => is_token c = true \/ well_formed c = true) children.
Proof.
  intros Hw. apply Forall_forall. intros c Hc. destruct data; cbn [well_formed] in Hw.
  - destruct children as [|[text|] rest]; try discriminate.
    rewrite forallb_forall in Hw. destruct Hc as [<-|Hc]; [left; reflexivity|].
    left. apply Hw, Hc.
  - apply andb_true_iff in Hw. destruct Hw as [Hw _].
    rewrite forallb_forall in Hw. left. apply Hw, Hc.
  - destruct children as [|[text|] [|? ?]]; try discriminate.
    destruct Hc as [<-|[]]. left. reflexivity.
  - destruct children as [|[text|] [|? ?]]; try discriminate.
    destruct Hc as [<-|[]]. left. reflexivity.
  - destruct children as [|[text|] [|? ?]]; try discriminate.
    destruct Hc as [<-|[]]. left. reflexivity.
  - destruct children as [|[text|] [|? ?]]; try discriminate.
    destruct Hc as [<-|[]]. left. reflexivity.
  - rewrite forallb_forall in Hw. right. apply Hw, Hc.
Qed.

Lemma transform_tree_raises (t : tree) :
  well_formed t = true -> raises_conversion (PathTransformer.transform_tree t).
Proof.
  induction t as [text|data children IH] using tree_ind; intros Hw; [exact I|].
  rewrite transform_tree_unfold.
  assert (Hcs : raises_conversion (PathTransformer.transform_children children)).
  { apply transform_children_raises.
    pose proof (well_formed_children data children Hw) as Hc.
    rewrite Forall_forall in IH, Hc |- *. intros c Hin.
    destruct (Hc c Hin) as [Ht|Hwc].
    - destruct c; [exact I | discriminate].
    - apply (IH c Hin Hwc). }
  destruct (PathTransformer.transform_children children) as [args|e] eqn:E;
    [|exact Hcs]. cbn [bind].
  destruct (PathTransformer.callback data args) as [v|o] eqn:Ec; [exact I|].
  exists o. split; [reflexivity|]. apply (callback_raises data children args o Hw E Ec).
Qed.

Lemma parsed_valid (v : value) : parsed_key v = true -> _is_valid_part v = true.
Proof.
  induction v as [z|b|f|re im|s| |a b c Ha Hb Hc|items IH|items IH] using value_ind;
    try discriminate; try reflexivity.
  cbn [parsed_key _is_valid_part]. intros Hp.
  rewrite forallb_forall in Hp |- *. rewrite Forall_forall in IH.
  intros x Hx. apply (IH x Hx), (Hp x Hx).
Qed.

(** X17. [from_str] raises a parse error, or a VisitError around the
    SyntaxError, ValueError or OverflowError of [ast.literal_eval] on a number
    or of [int] on a slice bound, and nothing else: the callbacks never raise
    IndexError, KeyError or TypeError on a tree of the grammar, and the
    constructor never turns down the keys they build. *)
Theorem from_str_raises_only (text : string) (e : exn) :
  from_str text = Raise e ->
  e = ParseError \/ exists o, e = VisitError o /\ is_conversion_error o = true.
Proof.
  unfold from_str. intros H.
  destruct (parse text) as [[cs]|e'] eqn:Ep.
  - right. cbn [bind] in H. unfold PathTransformer.transform in H.
    pose proof (parse_well_formed text cs Ep) as Hw.
    assert (Hcs : raises_conversion (PathTransformer.transform_children cs)).
    { apply transform_children_raises. apply Forall_forall. intros c Hc.
      apply transform_tree_raises. unfold all_wf in Hw. rewrite forallb_forall in Hw.
      apply Hw, Hc. }
    destruct (PathTransformer.transform_children cs) as [args|e'] eqn:E.
    + exfalso. cbn [bind] in H.
      assert (Hp : forallb parsed_key args = true).
      { apply (transform_children_parsed cs); [|exact E].
        apply Forall_forall. intros t _. apply transform_tree_parsed. }
      unfold PathTransformer.path, __init__ in H. cbn [_is_valid_part] in H.
      replace (forallb _is_valid_part args) with true in H; [discriminate|].
      symmetry. rewrite forallb_forall in Hp |- *. intros x Hx.
      apply parsed_valid, Hp, Hx.
    + cbn [bind] in H. injection H as <-. exact Hcs.
  - left. cbn [bind] in H. injection H as <-. apply (parse_raises text e' Ep).
Qed.

Lemma from_str_raises_only_witness :
  VisitError SyntaxError = ParseError \/
  exists o, VisitError SyntaxError = VisitError o /\ is_conversion_error o = true.
Proof.
  apply (from_str_raises_only "[0b]" (VisitError SyntaxError)).
  vm_compute. reflexivity.
Defined.

(** ** A name between quotes *)

Lemma letters_quotable (s : string) :
  string_forallb id_start_class s = true -> quotable s = true.
Proof.
  intros H. unfold quotable. apply andb_true_iff. split.
  - eapply string_forallb_impl; [|exact H]. apply class_included.
    vm_compute. reflexivity.
  - assert (Hq : contains squote s = false).
    { induction s as [|c s IH]; [reflexivity|]. cbn [string_forallb contains] in *.
      apply andb_true_iff in H. destruct H as [Hc Hs]. rewrite (IH Hs), orb_false_r.
      destruct (char_eqb c squote) eqn:E; [|reflexivity].
      unfold char_eqb in E. apply Ascii.eqb_eq in E. subst c. discriminate. }
    rewrite Hq. reflexivity.
Qed.

Lemma letters_isidentifier (s : string) :
  nonempty s = true -> string_forallb id_start_class s = true -> isidentifier s = true.
Proof.
  intros Hn Hs. rewrite <- (append_nil_r s).
  apply digits_isidentifier; [assumption | assumption | reflexivity].
Qed.

Lemma from_str_quoted (s : string) :
  quotable s = true -> from_str ("[" ++ str_repr s ++ "]") = Ok (mkPath [VStr s]).
Proof.
  intros Hq. destruct (str_repr_quotable s Hq) as [Hr Hb]. rewrite Hr.
  set (q := repr_quote s) in *.
  assert (Hk : forall fuel,
             key fuel (String q (s ++ String q "") ++ "]")
             = [(Tree r_string [Token (String q (s ++ String q ""))], "]")]).
  { intros fuel. cbn [append]. rewrite append_assoc. cbn [append].
    apply key_of_string; [|exact Hb].
    unfold q. destruct (repr_quote_cases s); auto. }
  assert (Hp : parse ("[" ++ String q (s ++ String q "") ++ "]")
               = Ok (PathTree [Tree r_string [Token (String q (s ++ String q ""))]])).
  { unfold parse.
    change ("[" ++ String q (s ++ String q "") ++ "]")
      with (String "[" (String q (s ++ String q "") ++ "]")).
    rewrite (parse_bracketed _ _ _ (Hk _)). reflexivity. }
  unfold from_str. rewrite Hp. cbn [bind]. unfold PathTransformer.transform.
  cbn [PathTransformer.transform_children PathTransformer.transform_tree bind
       PathTransformer.callback PathTransformer.string PathTransformer.visit].
  rewrite strip_quotes. reflexivity.
Qed.

(** X15. A name of letters and underscores written as a string between
    brackets parses to the same Path as the bare name, and [format_part]
    writes the key of that Path as the bare name after a dot: parsing and
    formatting again turns [['name']] into [.name]. *)
Theorem quoted_name_is_the_name (s : string) :
  nonempty s = true -> string_forallb id_start_class s = true ->
  from_str ("[" ++ str_repr s ++ "]") = Ok (mkPath [VStr s]) /\
  from_str s = Ok (mkPath [VStr s]) /\
  format_part (VStr s) = "." ++ s.
Proof.
  intros Hn Hs.
  pose proof (letters_isidentifier s Hn Hs) as Hi.
  assert (Hr : __repr__wrapped (mkPath [VStr s]) = s).
  { unfold __repr__wrapped. cbn [parts map String.concat format_part]. rewrite Hi. reflexivity. }
  split; [apply from_str_quoted, letters_quotable, Hs|].
  split; [|cbn [format_part]; rewrite Hi; reflexivity].
  assert (Hc : forallb canonical_key [VStr s] = true).
  { cbn [forallb canonical_key]. rewrite Hi, Hs. reflexivity. }
  rewrite <- Hr at 1. unfold from_str. rewrite (parse_canonical _ Hc). cbn [bind].
  unfold PathTransformer.transform. rewrite (transform_children_canonical _ Hc).
  reflexivity.
Qed.

Lemma quoted_name_is_the_name_witness :
  from_str "['key_a']" = Ok (mkPath [VStr "key_a"]) /\
  from_str "key_a" = Ok (mkPath [VStr "key_a"]) /\
  format_part (VStr "key_a") = ".key_a".
Proof.
  apply (quoted_name_is_the_name "key_a"); reflexivity.
Defined.

(** ** Tuples of integers without blanks *)

Lemma rmatch_needs_follow P r p t tail :
  needs P r = true ->
  disjoint_classes follower (alphabet r) = true ->
  disjoint_classes int_char P = true ->
  is_int_text t = true -> starts_with follower tail = true ->
  rmatch r p (t ++ tail) = [].
Proof.
  intros N D1 D2 Ht Hb. apply (rmatch_needs P); try assumption.
  - eapply starts_with_disjoint; eassumption.
  - eapply existsb_disjoint; [eassumption|]. apply int_text_chars. assumption.
Qed.

Lemma first_is_float_body_follow ds tail p :
  string_forallb digit ds = true -> nonempty ds = true ->
  starts_with follower tail = true ->
  first_is (rmatch unsigned_number p (ds ++ tail)) ds tail.
Proof.
  intros Hds Hne Hb.
  assert (Hbd : starts_with digit tail = false).
  { apply (starts_with_disjoint follower); [vm_compute; reflexivity | assumption]. }
  apply first_is_alt_l.
  rewrite <- (append_nil_r ds) at 2.
  eapply first_is_cat.
  - apply first_is_alt_r.
    + apply (rmatch_needs is_dot); [vm_compute; reflexivity | |].
      * apply (starts_with_disjoint follower); [vm_compute; reflexivity | assumption].
      * apply (existsb_disjoint digit); [vm_compute; reflexivity | assumption].
    + apply first_is_alt_r.
      * apply (rmatch_needs is_dot); [vm_compute; reflexivity | |].
        -- apply (starts_with_disjoint follower); [vm_compute; reflexivity | assumption].
        -- apply (existsb_disjoint digit); [vm_compute; reflexivity | assumption].
      * apply plus_greedy; assumption.
  - intros p1. apply first_is_opt_skip. apply rmatch_starts_not; [reflexivity|].
    apply (starts_with_disjoint follower); [vm_compute; reflexivity | assumption].
Qed.

Lemma first_is_float_follow t tail p :
  is_int_text t = true -> starts_with follower tail = true ->
  first_is (rmatch FLOAT_NUMBER p (t ++ tail)) t tail.
Proof.
  intros Ht Hb. rewrite float_number_unfold.
  unfold is_int_text in Ht. destruct t as [|c ds]; [discriminate|].
  destruct (Ascii.eqb_spec c "-") as [->|Hc].
  - apply andb_true_iff in Ht. destruct Ht as [Hne Hds].
    apply (first_is_cat (Opt (Chr "-")) unsigned_number p _
             (String "-" "") (ds ++ tail) ds tail).
    + apply first_is_alt_l. apply first_is_chr.
    + intros p1. apply first_is_float_body_follow; assumption.
  - assert (H' : (nonempty (String c ds) && string_forallb digit (String c ds))%bool
                 = true).
    { destruct c as [[] [] [] [] [] [] [] []]; try exact Ht. exfalso. apply Hc. reflexivity. }
    apply andb_true_iff in H'. destruct H' as [Hne Hds].
    apply (first_is_cat (Opt (Chr "-")) unsigned_number p _
             "" (String c ds ++ tail) (String c ds) tail).
    + apply first_is_opt_skip. apply rmatch_first; [reflexivity|].
      unfold Chr. cbn [first]. unfold char_eqb. apply Ascii.eqb_neq. congruence.
    + intros p1. apply first_is_float_body_follow; assumption.
Qed.

Lemma complex_follow t tail p :
  is_int_text t = true -> starts_with follower tail = true ->
  rmatch COMPLEX_NUMBER p (t ++ tail) = [].
Proof.
  intros Ht Hb. rewrite complex_number_unfold, rmatch_alt.
  rewrite (rmatch_needs_follow is_j IMAG_NUMBER p t tail)
    by (try assumption; vm_compute; reflexivity).
  cbn [app]. apply rmatch_starts_not; [reflexivity|].
  apply starts_with_int; [assumption | reflexivity].
Qed.

Lemma follower_not_digit tail :
  starts_with follower tail = true -> starts_with digit tail = false.
Proof. apply starts_with_disjoint. vm_compute. reflexivity. Qed.

Lemma number_follow t tail :
  is_int_text t = true -> starts_with follower tail = true ->
  number (t ++ tail) = [(Tree r_number [Token t], tail)].
Proof.
  intros Ht Hb. unfold number, pmap, terminals. cbn [flat_map].
  rewrite (terminal_first _ _ _ _ (first_is_dec t tail None Ht (follower_not_digit _ Hb))).
  rewrite (terminal_none HEX_NUMBER)
    by (apply (rmatch_needs_follow is_x); try assumption; vm_compute; reflexivity).
  rewrite (terminal_none BIN_NUMBER)
    by (apply (rmatch_needs_follow is_b); try assumption; vm_compute; reflexivity).
  rewrite (terminal_none OCT_NUMBER)
    by (apply (rmatch_needs_follow is_o); try assumption; vm_compute; reflexivity).
  rewrite (terminal_first _ _ _ _ (first_is_float_follow t tail None Ht Hb)).
  rewrite (terminal_none _ _ (complex_follow t tail None Ht Hb)).
  cbn [app]. rewrite nodup_same. reflexivity.
Qed.

Lemma integer_follow t tail :
  is_int_text t = true -> starts_with follower tail = true ->
  integer (t ++ tail) = [([Token t], tail)].
Proof.
  intros Ht Hb. unfold integer, token1, pmap, terminals. cbn [flat_map].
  rewrite (terminal_first _ _ _ _ (first_is_dec t tail None Ht (follower_not_digit _ Hb))).
  rewrite (terminal_none HEX_NUMBER)
    by (apply (rmatch_needs_follow is_x); try assumption; vm_compute; reflexivity).
  rewrite (terminal_none BIN_NUMBER)
    by (apply (rmatch_needs_follow is_b); try assumption; vm_compute; reflexivity).
  rewrite (terminal_none OCT_NUMBER)
    by (apply (rmatch_needs_follow is_o); try assumption; vm_compute; reflexivity).
  reflexivity.
Qed.

Lemma slice_key_follow t tail :
  is_int_text t = true -> starts_with follower tail = true ->
  slice_key (t ++ tail) = [].
Proof.
  intros Ht Hb.
  assert (Hc1 : colon tail = []).
  { apply colon_rejects.
    apply (starts_with_disjoint follower); [vm_compute; reflexivity | assumption]. }
  assert (Hc2 : colon (t ++ tail) = []).
  { apply colon_rejects. apply starts_with_int; [assumption|reflexivity]. }
  assert (Hm : maybe integer (t ++ tail) = [([Token t], tail); ([], t ++ tail)]).
  { unfold maybe, alt, pure. rewrite integer_follow by assumption. reflexivity. }
  unfold slice_key. apply pmap_nil. apply alt_nil; apply cat_nil_r;
    intros a u Hin; rewrite Hm in Hin;
    destruct Hin as [E|[E|[]]]; inversion E; subst; apply cat_nil_l; assumption.
Qed.

Lemma key_of_int_follow fuel t tail :
  is_int_text t = true -> starts_with follower tail = true ->
  key fuel (t ++ tail) = [(Tree r_number [Token t], tail)].
Proof.
  intros Ht Hb. rewrite key_unfold.
  rewrite (number_follow t tail Ht Hb).
  rewrite (slice_key_follow t tail Ht Hb).
  rewrite boolean_rejects by (apply starts_with_int; [assumption|reflexivity]).
  rewrite none_rejects by (apply starts_with_int; [assumption|reflexivity]).
  rewrite string_rejects by (apply starts_with_int; [assumption|reflexivity]).
  destruct fuel as [|f]; [reflexivity|].
  rewrite tuple_key_rejects by (apply starts_with_int; [assumption|reflexivity]).
  reflexivity.
Qed.

Lemma more_text_cons z l :
  more_text (z :: l) = String "," (int_repr z ++ more_text l).
Proof.
  unfold more_text. cbn [map]. rewrite concat_cons. reflexivity.
Qed.

Lemma more_text_follower l T :
  starts_with follower (more_text l ++ String ")" T) = true.
Proof. destruct l as [|z l]; [reflexivity|]. rewrite more_text_cons. reflexivity. Qed.

Lemma length_more_text l : (List.length l <= String.length (more_text l))%nat.
Proof.
  induction l as [|z l IH]; [cbn; lia|]. rewrite more_text_cons.
  cbn [String.length List.length]. rewrite length_append. lia.
Qed.

Lemma cat_assoc (p q r : parser (list tree)) (s : string) :
  cat (cat p q) r s = cat p (cat q r) s.
Proof.
  unfold cat, seq. induction (p s) as [|[a t] l IH]; [reflexivity|].
  cbn [flat_map]. rewrite flat_map_app, IH. f_equal.
  induction (q t) as [|[b u] l' IH']; [reflexivity|].
  cbn [map flat_map]. rewrite map_app, IH'. f_equal.
  rewrite !map_map. apply map_ext. intros [c v]. rewrite app_assoc. reflexivity.
Qed.

Lemma cat_concat_cons (a : list tree) (l : list (list (list tree) * string))
    (Q : parser (list tree)) :
  flat_map (fun '(x, t) => map (fun '(b, u) => ((x ++ b)%list, u)) (Q t))
    (map (fun '(xs, t) => (concat xs, t)) (map (fun '(b, u) => (a :: b, u)) l))
  = map (fun '(b, u) => ((a ++ b)%list, u))
      (flat_map (fun '(x, t) => map (fun '(b, u) => ((x ++ b)%list, u)) (Q t))
         (map (fun '(xs, t) => (concat xs, t)) l)).
Proof.
  induction l as [|[b u] l IH]; [reflexivity|].
  cbn [map flat_map concat]. rewrite map_app, IH. f_equal.
  rewrite map_map. apply map_ext. intros [c v]. rewrite app_assoc. reflexivity.
Qed.

Section TupleOfIntegers.

Variable fuel : nat.

Let key1 : parser (list tree) := pmap (fun k => [k]) (key fuel).
Let step : parser (list tree) := cat (skip ",") key1.
Let closer : parser (list tree) := cat (maybe (skip ",")) (skip ")").

Lemma key1_int z tail :
  starts_with follower tail = true ->
  key1 (int_repr z ++ tail) = [([number_tree z], tail)].
Proof.
  intros H. unfold key1, pmap.
  rewrite (key_of_int_follow fuel _ tail (int_repr_is_int_text z) H). reflexivity.
Qed.

Lemma step_more z l T :
  step (more_text (z :: l) ++ String ")" T)
  = [([number_tree z], more_text l ++ String ")" T)].
Proof.
  unfold step. rewrite more_text_cons. cbn [append]. rewrite cat_skip.
  rewrite append_assoc. apply key1_int. apply more_text_follower.
Qed.

Lemma step_rejects T : step (String ")" T) = [].
Proof. unfold step. apply cat_nil_l. apply skip_rejects. reflexivity. Qed.

Lemma closer_here T : closer (String ")" T) = [([], T)].
Proof. reflexivity. Qed.

Lemma closer_comma z rest : closer (String "," (int_repr z ++ rest)) = [].
Proof.
  unfold closer, cat, seq, maybe, alt, pure.
  assert (H1 : skip "," (String "," (int_repr z ++ rest)) = [([], int_repr z ++ rest)])
    by reflexivity.
  rewrite H1. cbn [app flat_map].
  rewrite (skip_rejects ")" "" (int_repr z ++ rest))
    by (apply starts_with_int; [apply int_repr_is_int_text | reflexivity]).
  reflexivity.
Qed.

Lemma many_closed (more : list Z) : forall n T,
  (List.length more <= n)%nat ->
  cat (pmap (@concat tree) (many n step)) closer (more_text more ++ String ")" T)
  = [(map number_tree more, T)].
Proof.
  induction more as [|z more IH]; intros n T Hn.
  - cbn [more_text map String.concat append].
    unfold cat, seq, pmap. rewrite (many_none step n _ (step_rejects T)).
    cbn [map flat_map]. rewrite closer_here. reflexivity.
  - destruct n as [|n]; [cbn in Hn; lia|].
    unfold cat, seq, pmap. cbn [many]. unfold alt, seq, pure.
    rewrite step_more. cbn [flat_map]. rewrite List.app_nil_r.
    rewrite map_app, flat_map_app.
    rewrite (cat_concat_cons [number_tree z] (many n step _) closer).
    specialize (IH n T ltac:(cbn in Hn; lia)).
    unfold cat, seq, pmap in IH. rewrite IH.
    cbn [map flat_map concat app]. rewrite more_text_cons. cbn [append].
    rewrite append_assoc, closer_comma. reflexivity.
Qed.

Lemma tuple_key_wide z1 z2 more T :
  (List.length more <= fuel)%nat ->
  tuple_key fuel (key fuel)
    (String "(" (int_repr z1 ++ more_text (z2 :: more) ++ String ")" T))
  = [(Tree r_tuple_key (map number_tree (z1 :: z2 :: more)), T)].
Proof.
  intros Hn. unfold tuple_key. fold key1. fold step. fold closer.
  unfold pmap at 1. unfold alt.
  assert (Hi : starts_with (char_eqb ")") (int_repr z1 ++ more_text (z2 :: more)
                                            ++ String ")" T) = false)
    by (apply starts_with_int; [apply int_repr_is_int_text | reflexivity]).
  assert (H1 : skip "()" (String "(" (int_repr z1 ++ more_text (z2 :: more)
                                        ++ String ")" T)) = []).
  { unfold skip, pmap, literal. cbn [strip_prefix].
    change (char_eqb "(" "(") with true. cbv iota.
    destruct (int_repr z1 ++ more_text (z2 :: more) ++ String ")" T) as [|c r];
      [reflexivity|]. cbn [starts_with] in Hi. cbn [strip_prefix]. rewrite Hi.
    reflexivity. }
  rewrite H1. rewrite !cat_skip.
  assert (Hk : key1 (int_repr z1 ++ more_text (z2 :: more) ++ String ")" T)
               = [([number_tree z1], more_text (z2 :: more) ++ String ")" T)])
    by (apply key1_int; apply more_text_follower).
  rewrite !(cat_single _ _ _ _ _ Hk).
  assert (H2 : skip ",)" (more_text (z2 :: more) ++ String ")" T) = []).
  { rewrite more_text_cons. cbn [append]. unfold skip, pmap, literal.
    cbn [strip_prefix]. change (char_eqb "," ",") with true. cbv iota.
    pose proof (starts_with_int (char_eqb ")") (int_repr z2)
                  (more_text more ++ String ")" T)
                  (int_repr_is_int_text z2) eq_refl) as Hz.
    rewrite <- append_assoc in Hz.
    destruct ((int_repr z2 ++ more_text more) ++ String ")" T) as [|c r];
      [reflexivity|]. cbn [starts_with] in Hz. cbn [strip_prefix]. rewrite Hz.
    reflexivity. }
  rewrite H2. cbn [map app].
  rewrite cat_assoc.
  rewrite (cat_single _ _ _ _ _ (step_more z2 more T)).
  rewrite (many_closed more fuel T Hn). reflexivity.
Qed.

End TupleOfIntegers.

Lemma transform_numbers (zs : list Z) :
  PathTransformer.transform_children (map number_tree zs) = Ok (map VInt zs).
Proof.
  induction zs as [|z zs IH]; [reflexivity|].
  cbn [map PathTransformer.transform_children]. rewrite IH.
  unfold number_tree.
  cbn [PathTransformer.transform_tree bind PathTransformer.callback
       PathTransformer.number].
  rewrite literal_eval_int. reflexivity.
Qed.

Lemma valid_integers (zs : list Z) : forallb _is_valid_part (map VInt zs) = true.
Proof. induction zs as [|z zs IH]; [reflexivity|]. exact IH. Qed.

Lemma join_more z l :
  join "," (map int_repr (z :: l)) = int_repr z ++ more_text l.
Proof.
  revert z. induction l as [|y l IH]; intros z.
  - cbn [map join more_text String.concat]. rewrite append_nil_r. reflexivity.
  - change (join "," (map int_repr (z :: y :: l)))
      with (int_repr z ++ "," ++ join "," (map int_repr (y :: l))).
    rewrite IH, more_text_cons. reflexivity.
Qed.

(** X13. A tuple of two or more integers written with commas and no blanks
    parses to the Path of that tuple, while [format_part] writes the tuple
    with a blank after each comma. *)
Theorem tuple_of_integers_without_blanks (z1 z2 : Z) (more : list Z) :
  let zs := z1 :: z2 :: more in
  from_str ("[(" ++ join "," (map int_repr zs) ++ ")]")
  = Ok (mkPath [VTuple (map VInt zs)]) /\
  format_part (VTuple (map VInt zs))
  = "[(" ++ join ", " (map int_repr zs) ++ ")]".
Proof.
  cbv zeta. split.
  - rewrite join_more.
    set (body := String "(" (int_repr z1 ++ more_text (z2 :: more) ++ String ")" "")).
    assert (Ht : "[(" ++ (int_repr z1 ++ more_text (z2 :: more)) ++ ")]"
                 = String "[" (body ++ "]")).
    { unfold body. cbn [append]. rewrite !append_assoc. reflexivity. }
    rewrite Ht.
    assert (Hlen : exists f, String.length (String "[" (body ++ "]")) = S f /\
                             (List.length more <= f)%nat).
    { exists (String.length (body ++ "]")). split; [reflexivity|].
      unfold body. cbn [append String.length].
      rewrite !length_append, more_text_cons. cbn [String.length].
      rewrite length_append. pose proof (length_more_text more). lia. }
    destruct Hlen as [f [Hf Hm]].
    assert (Hk : key (S f) (body ++ "]")
                 = [(Tree r_tuple_key (map number_tree (z1 :: z2 :: more)), "]")]).
    { unfold body. cbn [append]. rewrite !append_assoc. cbn [append].
      rewrite key_paren.
      rewrite number_paren
        by (apply complex_paren_int; [apply int_repr_is_int_text|];
            rewrite more_text_cons; reflexivity).
      cbn [app]. apply (tuple_key_wide f z1 z2 more "]" Hm). }
    assert (Hp : parse (String "[" (body ++ "]"))
                 = Ok (PathTree [Tree r_tuple_key (map number_tree (z1 :: z2 :: more))])).
    { unfold parse. rewrite Hf. rewrite (parse_bracketed _ _ _ Hk). reflexivity. }
    unfold from_str. rewrite Hp. cbn [bind]. unfold PathTransformer.transform.
    cbn [PathTransformer.transform_children]. rewrite transform_tree_unfold.
    rewrite transform_numbers.
    cbn [bind PathTransformer.callback PathTransformer.tuple_key PathTransformer.visit].
    unfold PathTransformer.path, __init__.
    cbn [_is_valid_part forallb map]. rewrite valid_integers. reflexivity.
  - cbn [map format_part py_repr].
    rewrite map_map. cbn [append]. rewrite append_assoc. reflexivity.
Qed.

Lemma tuple_of_integers_without_blanks_witness :
  from_str "[(1,-2,30)]" = Ok (mkPath [VTuple [VInt 1; VInt (-2); VInt 30]]) /\
  format_part (VTuple [VInt 1; VInt (-2); VInt 30]) = "[(1, -2, 30)]".
Proof. exact (tuple_of_integers_without_blanks 1 (-2) [30]). Defined.
